(** * Excel-dashboard: ingestion, chart series and statistics pipeline

    A shallow embedding of the data pipeline of the server:

    - [fileFilter], [analyzeColumnType] and [processExcelFile]
      (server/routes/upload.js),
    - [calculateStatistics], [processChartData], [generateChartConfig]
      and the handler of [POST /api/analysis]
      (server/models/Analysis.js),
    - the middleware [auth] (server/middleware/auth.js).

    The JavaScript runtime is modelled as far as these functions use
    it.  A number is an IEEE double: [NaN], an infinity, the negative
    zero, or a finite number given by its exact rational value, and
    every operation rounds its exact result to the nearest double
    (ties to even), with overflow to an infinity and underflow to a
    zero.  A text is a sequence of code units below 256.  A plain
    object has its own properties and, unless it has been removed,
    the prototype [Object.prototype], whose members are read through
    it.  Arrays and objects live in a heap and are passed by
    reference; the chart that the builder returns is given as a
    record of its parts.

    What the program gets from outside is a parameter: the parsing of
    dates, the square root and the power function, the reading of a
    workbook, the verification of a token, and the queries and updates
    of the database.  [path.extname] is that of Node where the
    separator is the slash. *)

From Stdlib Require Import QArith Qpower Qround Qabs Lqa ZArith Lia Ascii String.
From stdpp Require Import base tactics option list strings sorting gmap.

Local Open Scope string_scope.
Local Open Scope list_scope.

(** ** Numbers *)

Module Js.

Inductive number :=
| NaN
| Infinity (neg : bool)
| NegZero
| Fin (q : Q).

Definition isNaN (x : number) : bool :=
  match x with NaN => true | _ => false end.

(** [x == y] on numbers: [NaN] is equal to nothing, and the two zeros
    are equal. *)
Definition num_eqb (x y : number) : bool :=
  match x, y with
  | Fin a, Fin b => Qeq_bool a b
  | NegZero, NegZero => true
  | NegZero, Fin q | Fin q, NegZero => Qeq_bool q 0
  | Infinity s, Infinity t => Bool.eqb s t
  | _, _ => false
  end.

(** The same number, as a relation ([NaN] related to itself, the two
    zeros apart): the rationals [1/2] and [2/4] denote one number. *)
Definition num_equiv (x y : number) : Prop :=
  match x, y with
  | NaN, NaN => True
  | Infinity s, Infinity t => s = t
  | NegZero, NegZero => True
  | Fin a, Fin b => (a == b)%Q
  | _, _ => False
  end.

Definition Qsign_neg (q : Q) : bool := if Qlt_le_dec q 0 then true else false.

(** The exact value of a finite number (and 0 for the others). *)
Definition exact (x : number) : Q :=
  match x with Fin q => q | _ => 0 end.

(** The sign bit. *)
Definition sign_neg (x : number) : bool :=
  match x with
  | NaN => false
  | Infinity s => s
  | NegZero => true
  | Fin q => Qsign_neg q
  end.

Definition is_zero (x : number) : bool :=
  match x with
  | NegZero => true
  | Fin q => Qeq_bool q 0
  | _ => false
  end.

Definition zero (neg : bool) : number := if neg then NegZero else Fin 0.

(** ** Rounding to a double *)

(** [2 ^ e] as a rational. *)
Definition pow2 (e : Z) : Q :=
  match e with
  | Zneg p => 1 # (2 ^ p)
  | _ => inject_Z (2 ^ e)
  end.

(** For [q > 0], the integer [e] with [2^e <= q < 2^(e+1)]. *)
Definition ilog2 (q : Q) : Z :=
  let l := (Z.log2 (Qnum q) - Z.log2 (Zpos (Qden q)))%Z in
  if Qle_bool (pow2 l) q then l else (l - 1)%Z.

(** The integer nearest to [q], the even one of two. *)
Definition round_half_even (q : Q) : Z :=
  let f := Qfloor q in
  match (q - inject_Z f ?= 1 # 2)%Q with
  | Lt => f
  | Gt => (f + 1)%Z
  | Eq => if Z.even f then f else (f + 1)%Z
  end.

(** The double nearest to the rational [q], the one with the even
    significand of two.  A double is [m * 2^p] with [m < 2^53] and
    [-1074 <= p <= 971]: [p] is chosen so that [q / 2^p] has 53 binary
    digits before the point, and not below [-1074] (there the doubles
    are subnormal).  From [2^1024] on the result is an infinity; a
    number that rounds to zero keeps its sign. *)
Definition round64 (q : Q) : number :=
  if Qeq_bool q 0 then Fin 0 else
  let a := Qabs q in
  let p := Z.max (ilog2 a - 52) (-1074) in
  let m := round_half_even (a / pow2 p) in
  if (m =? 0)%Z then zero (Qsign_neg q)
  else if Qle_bool (pow2 1024) (inject_Z m * pow2 p) then Infinity (Qsign_neg q)
  else Fin (Qred (if Qsign_neg q then - (inject_Z m * pow2 p) else inject_Z m * pow2 p)).

(** ** Arithmetic *)

Definition num_neg (x : number) : number :=
  match x with
  | NaN => NaN
  | Infinity s => Infinity (negb s)
  | NegZero => Fin 0
  | Fin q => if Qeq_bool q 0 then NegZero else Fin (- q)
  end.

(** [x + y]: adding a zero leaves the other number as it is (the sum
    of two zeros is negative when both are), and an exact sum of zero
    is the positive zero. *)
Definition num_add (x y : number) : number :=
  match x, y with
  | NaN, _ | _, NaN => NaN
  | Infinity s, Infinity t => if Bool.eqb s t then Infinity s else NaN
  | Infinity s, _ | _, Infinity s => Infinity s
  | NegZero, _ => y
  | _, NegZero => x
  | Fin a, Fin b =>
      if Qeq_bool a 0 then y
      else if Qeq_bool b 0 then x
      else round64 (a + b)
  end.

Definition num_sub (x y : number) : number := num_add x (num_neg y).

Definition num_mul (x y : number) : number :=
  match x, y with
  | NaN, _ | _, NaN => NaN
  | Infinity s, _ => if is_zero y then NaN else Infinity (xorb s (sign_neg y))
  | _, Infinity t => if is_zero x then NaN else Infinity (xorb (sign_neg x) t)
  | _, _ =>
      if is_zero x || is_zero y then zero (xorb (sign_neg x) (sign_neg y))
      else round64 (exact x * exact y)
  end.

Definition num_div (x y : number) : number :=
  match x, y with
  | NaN, _ | _, NaN => NaN
  | Infinity _, Infinity _ => NaN
  | Infinity s, _ => Infinity (xorb s (sign_neg y))
  | _, Infinity t => zero (xorb (sign_neg x) t)
  | _, _ =>
      if is_zero y
      then (if is_zero x then NaN else Infinity (xorb (sign_neg x) (sign_neg y)))
      else if is_zero x then zero (xorb (sign_neg x) (sign_neg y))
      else round64 (exact x / exact y)
  end.

(** [x > 0], as the sort uses the sign of its comparator. *)
Definition num_pos (x : number) : bool :=
  match x with
  | NaN => false
  | Infinity s => negb s
  | NegZero => false
  | Fin q => if Qlt_le_dec 0 q then true else false
  end.

(** ToBoolean on a number: [NaN] and the zeros are falsy. *)
Definition num_truthy (x : number) : bool :=
  match x with
  | NaN => false
  | Infinity _ => true
  | NegZero => false
  | Fin q => negb (Qeq_bool q 0)
  end.

(** A count or a length, and an integer, as numbers (doubles as long
    as they are below [2^53] in magnitude). *)
Definition of_nat (n : nat) : number := Fin (inject_Z (Z.of_nat n)).
Definition of_Z (z : Z) : number := Fin (inject_Z z).

(** ** Decimal digits *)

Definition digit_char (d : N) : ascii := ascii_of_N (48 + d).

Definition is_digit (c : ascii) : bool :=
  let n := N_of_ascii c in ((48 <=? n) && (n <=? 57))%N.

Definition digit_val (c : ascii) : N := N_of_ascii c - 48.

(** Big-endian decimal digits of [n]; [fuel] bounds the number of digits. *)
Fixpoint digits_go (fuel : nat) (n : N) (acc : list ascii) : list ascii :=
  match fuel with
  | O => acc
  | S fuel' =>
      let acc' := digit_char (n mod 10) :: acc in
      if (n / 10 =? 0)%N then acc' else digits_go fuel' (n / 10) acc'
  end.

Definition digits (n : N) : list ascii :=
  digits_go (S (N.to_nat (N.size n))) n [].

(** Value of a run of decimal digits, most significant first. *)
Definition digits_val (ds : list ascii) : N :=
  fold_left (λ acc c, (10 * acc + digit_val c)%N) ds 0%N.

(** The longest run of digits at the head of [cs], and the rest. *)
Fixpoint span_digits (cs : list ascii) : list ascii * list ascii :=
  match cs with
  | c :: cs' =>
      if is_digit c
      then let '(ds, r) := span_digits cs' in (c :: ds, r)
      else ([], cs)
  | [] => ([], [])
  end.

(** ** Strings to numbers: [parseFloat] *)

(** White space and line terminators, among the code units below 256:
    tab, line feed, vertical tab, form feed, carriage return, space and
    the no-break space. *)
Definition is_space (c : ascii) : bool :=
  let n := N_of_ascii c in
  ((n =? 32) || ((9 <=? n) && (n <=? 13)) || (n =? 160))%N.

Fixpoint trim_start (cs : list ascii) : list ascii :=
  match cs with
  | c :: cs' => if is_space c then trim_start cs' else cs
  | [] => []
  end.

Fixpoint starts_with (p cs : list ascii) : bool :=
  match p, cs with
  | [], _ => true
  | a :: p', c :: cs' => Ascii.eqb a c && starts_with p' cs'
  | _ :: _, [] => false
  end.

Definition no_digits (ds : list ascii) : bool :=
  match ds with [] => true | _ => false end.

(** An optional sign. *)
Definition read_sign (cs : list ascii) : bool * list ascii :=
  match cs with
  | "+"%char :: r => (false, r)
  | "-"%char :: r => (true, r)
  | _ => (false, cs)
  end.

(** ExponentPart: [e] or [E], an optional sign and at least one digit;
    anything else is not part of the number. *)
Definition read_exponent (cs : list ascii) : Z * list ascii :=
  match cs with
  | c :: r =>
      if Ascii.eqb c "e" || Ascii.eqb c "E" then
        let '(neg, r') := read_sign r in
        let '(ds, r'') := span_digits r' in
        if no_digits ds then (0%Z, cs)
        else (if neg then (- Z.of_N (digits_val ds))%Z else Z.of_N (digits_val ds), r'')
      else (0%Z, cs)
  | [] => (0%Z, [])
  end.

(** [m * 10 ^ e] as a rational. *)
Definition scale10 (m : Z) (e : Z) : Q :=
  match e with
  | Zneg p => Qmake m (10 ^ p)
  | _ => inject_Z (m * 10 ^ e)
  end.

(** The number that the decimal numeral [m * 10 ^ e], with a minus sign
    in front when [neg], denotes: the double nearest to its value. *)
Definition decimal (neg : bool) (m : N) (e : Z) : number :=
  if (m =? 0)%N then zero neg
  else round64 (scale10 (if neg then - Z.of_N m else Z.of_N m) e).

(** The longest prefix of [cs1] that is a StrUnsignedDecimalLiteral:
    its value, negated when [neg], and what follows it. *)
Definition read_unsigned (neg : bool) (cs1 : list ascii) : option (number * list ascii) :=
  if starts_with (list_ascii_of_string "Infinity") cs1
  then Some (Infinity neg, drop 8 cs1) else
  let '(ip, r1) := span_digits cs1 in
  let '(fp, r2) :=
    match r1 with
    | "."%char :: r =>
        let '(fp, r2) := span_digits r in
        if no_digits ip && no_digits fp then ([], r1) else (fp, r2)
    | _ => ([], r1)
    end in
  if no_digits ip && no_digits fp then None else
  let '(e, r3) := read_exponent r2 in
  Some (decimal neg (digits_val (ip ++ fp)) (e - Z.of_nat (length fp)), r3).

(** The longest prefix of [cs] that is a StrDecimalLiteral. *)
Definition read_number (cs : list ascii) : option (number * list ascii) :=
  let '(neg, cs1) := read_sign cs in
  read_unsigned neg cs1.

(** [parseFloat] on a string: leading white space is skipped, and the
    result is [NaN] when no numeral starts the rest. *)
Definition parse_float (cs : list ascii) : number :=
  match read_number (trim_start cs) with
  | Some (x, _) => x
  | None => NaN
  end.

(** StringToNumber: the whole string, white space at both ends apart,
    must be a numeral, and the empty string is zero.  (Hexadecimal,
    octal and binary literals are not modelled: the program applies
    no arithmetic to a text.) *)
Definition string_to_number (cs : list ascii) : number :=
  let cs' := trim_start cs in
  if no_digits cs' then Fin 0 else
  match read_number cs' with
  | Some (x, r) => if no_digits (trim_start r) then x else NaN
  | None => NaN
  end.

(** ** Numbers to strings *)

Definition digits_string (n : N) : string := string_of_list_ascii (digits n).

(** The last [w] digits of [n]. *)
Fixpoint fixed_digits (w : nat) (n : N) : list ascii :=
  match w with
  | O => []
  | S w' => fixed_digits w' (n / 10) ++ [digit_char (n mod 10)]
  end.

(** [10 ^ e] as a rational. *)
Definition pow10 (e : Z) : Q :=
  match e with
  | Zneg p => 1 # (10 ^ p)
  | _ => inject_Z (10 ^ e)
  end.

(** For [0 < q < 1], the integer [n <= 0] with [10^(n-1) <= q < 10^n],
    as long as [fuel] lasts. *)
Fixpoint small_exponent (fuel : nat) (q : Q) : Z :=
  match fuel with
  | O => 0
  | S fuel' =>
      if Qle_bool (1 # 10) q then 0%Z else (small_exponent fuel' (q * 10) - 1)%Z
  end.

(** For [q > 0], the integer [n] with [10^(n-1) <= q < 10^n]. *)
Definition decimal_exponent (q : Q) : Z :=
  if Qle_bool 1 q then Z.of_nat (length (digits (Z.to_N (Qfloor q))))
  else small_exponent (N.to_nat (N.size (Npos (Qden q)))) q.

(** The decimal [s * 10^e] reads as the double [q]. *)
Definition reads_back (q : Q) (s e : Z) : bool :=
  num_eqb (round64 (inject_Z s * pow10 e)) (Fin q).

(** Among the decimals [s * 10^e] that read as [q], the one nearest to
    [q] (with [s] even when there are two): it is the multiple of
    [10^e] just below [q] or the one just above. *)
Definition nearest_decimal (q : Q) (e : Z) : option Z :=
  let x := (q / pow10 e)%Q in
  let lo := Qfloor x in
  let hi := (lo + 1)%Z in
  match reads_back q lo e, reads_back q hi e with
  | true, true =>
      match (x - inject_Z lo ?= inject_Z hi - x)%Q with
      | Lt => Some lo
      | Gt => Some hi
      | Eq => Some (if Z.even lo then lo else hi)
      end
  | true, false => Some lo
  | false, true => Some hi
  | false, false => None
  end.

(** The shortest decimal [s * 10^e] that reads as the double [q]: [s]
    has [k] digits, for the least [k] for which there is one, and 17
    digits always suffice. *)
Fixpoint shortest (fuel : nat) (q : Q) (n k : Z) : Z * Z :=
  match fuel with
  | O => (round_half_even (q / pow10 (n - k)), (n - k)%Z)
  | S fuel' =>
      match nearest_decimal q (n - k) with
      | Some s => (s, (n - k)%Z)
      | None => shortest fuel' q n (k + 1)
      end
  end.

(** Without the zeros at the end. *)
Fixpoint drop_zeros (rds : list ascii) : list ascii :=
  match rds with
  | c :: rds' => if Ascii.eqb c "0" then drop_zeros rds' else rds
  | [] => []
  end.

Definition strip_zeros (ds : list ascii) : list ascii := rev (drop_zeros (rev ds)).

(** The exponent part: [e], the sign and the digits of [n]. *)
Definition exponent_part (n : Z) : list ascii :=
  "e"%char :: (if (n <? 0)%Z then "-"%char else "+"%char) :: digits (Z.abs_N n).

(** The digits [ds] of the decimal [0.ds * 10^n] laid out as
    [Number::toString] does: plain up to 21 digits before the point and
    up to 6 zeros after it, with an exponent otherwise. *)
Definition layout (ds : list ascii) (n : Z) : list ascii :=
  let k := Z.of_nat (length ds) in
  if (k <=? n)%Z && (n <=? 21)%Z then ds ++ replicate (Z.to_nat (n - k)) "0"%char
  else if (0 <? n)%Z && (n <=? 21)%Z
  then take (Z.to_nat n) ds ++ "."%char :: drop (Z.to_nat n) ds
  else if (-6 <? n)%Z && (n <=? 0)%Z
  then "0"%char :: "."%char :: replicate (Z.to_nat (- n)) "0"%char ++ ds
  else match ds with
       | [] => []
       | [d] => d :: exponent_part (n - 1)
       | d :: rest => d :: "."%char :: rest ++ exponent_part (n - 1)
       end.

(** [Number::toString] of a positive number. *)
Definition positive_to_string (q : Q) : list ascii :=
  let '(s, e) := shortest 16 q (decimal_exponent q) 1 in
  let ds := digits (Z.to_N s) in
  layout (strip_zeros ds) (Z.of_nat (length ds) + e).

(** [Number::toString]: the shortest decimal that reads as the number
    again. *)
Definition number_to_string (x : number) : string :=
  match x with
  | NaN => "NaN"
  | Infinity neg => if neg then "-Infinity" else "Infinity"
  | NegZero => "0"
  | Fin q =>
      if Qeq_bool q 0 then "0"
      else string_of_list_ascii
             (if Qsign_neg q then "-"%char :: positive_to_string (Qabs q)
              else positive_to_string q)
  end.

(** The integer [n] for which [n / 10^f - |q|] is closest to zero, the
    larger one of two. *)
Definition round_scaled (f : nat) (q : Q) : N :=
  Z.to_N (Qfloor (Qabs q * inject_Z (10 ^ Z.of_nat f) + (1 # 2))).

(** [Number.prototype.toFixed(f)]: from [10^21] on, the number as
    [Number::toString] prints it; below, with [x] made non-negative,
    the integer [n] for which [n / 10^f - x] is closest to zero, the
    larger one of two, printed with [f] digits after the point, and the
    sign in front when [x] was negative. *)
Definition toFixed (x : number) (f : nat) : string :=
  match x with
  | NaN => "NaN"
  | Infinity neg => if neg then "-Infinity" else "Infinity"
  | _ =>
      let q := exact x in
      if Qle_bool (pow10 21) (Qabs q) then number_to_string x else
      let n := round_scaled f q in
      let p := (10 ^ N.of_nat f)%N in
      let body :=
        digits (n / p) ++
        (if Nat.eqb f 0 then [] else "."%char :: fixed_digits f (n mod p)) in
      string_of_list_ascii (if Qsign_neg q then "-"%char :: body else body)
  end.

(** ** Values *)

Inductive prim :=
| Null
| Undefined
| Bool (b : bool)
| Num (n : number)
| Str (s : string).

(** The objects of the runtime that a program can get hold of through a
    plain object: [Object.prototype] itself and the functions that are
    its members. *)
Inductive builtin :=
| ObjectPrototype
| Method (name : string).

(** A value is a primitive, a reference to an array or object in the
    heap, or an object of the runtime.  Spreadsheet cells are
    primitives. *)
Inductive value :=
| Prim (p : prim)
| Ref (l : nat)
| Native (b : builtin).

Coercion Prim : prim >-> value.

Global Instance number_inhabited : Inhabited number := populate NaN.
Global Instance prim_inhabited : Inhabited prim := populate Undefined.
Global Instance value_inhabited : Inhabited value := populate (Prim Undefined).

Definition typeof (v : value) : string :=
  match v with
  | Prim Null => "object"
  | Prim Undefined => "undefined"
  | Prim (Bool _) => "boolean"
  | Prim (Num _) => "number"
  | Prim (Str _) => "string"
  | Ref _ => "object"
  | Native ObjectPrototype => "object"
  | Native (Method _) => "function"
  end.

(** ToBoolean. *)
Definition truthy (v : value) : bool :=
  match v with
  | Prim Null | Prim Undefined => false
  | Prim (Bool b) => b
  | Prim (Num n) => num_truthy n
  | Prim (Str s) => negb (String.eqb s "")
  | Ref _ | Native _ => true
  end.

(** The text of a function of the runtime, as V8 prints it. *)
Definition native_code (name : string) : string :=
  "function " ++ name ++ "() { [native code] }".

(** ToString, as used for property keys and for [+] with a text.  (An
    array would be joined; the values that this program turns into
    texts are cells and what a plain object inherits.) *)
Definition ToString (v : value) : string :=
  match v with
  | Prim Null => "null"
  | Prim Undefined => "undefined"
  | Prim (Bool b) => if b then "true" else "false"
  | Prim (Num n) => number_to_string n
  | Prim (Str s) => s
  | Ref _ => "[object Object]"
  | Native ObjectPrototype => "[object Object]"
  | Native (Method name) => native_code name
  end.

(** [parseFloat(v)]: the argument is first converted to a string.  A
    number prints in a form that reads as the same number again (with
    0 for the negative zero), and the words [null], [undefined],
    [true], [false], [[object Object]] and [function] do not start with
    a numeral. *)
Definition parseFloat (v : value) : number :=
  match v with
  | Prim (Num NegZero) => Fin 0
  | Prim (Num n) => n
  | Prim (Str s) => parse_float (list_ascii_of_string s)
  | _ => NaN
  end.

(** ToNumber.  (An array would first be joined to a string; the
    arithmetic of this program only meets numbers.) *)
Definition ToNumber (v : value) : number :=
  match v with
  | Prim Null => Fin 0
  | Prim Undefined => NaN
  | Prim (Bool b) => if b then Fin 1 else Fin 0
  | Prim (Num n) => n
  | Prim (Str s) => string_to_number (list_ascii_of_string s)
  | Ref _ | Native _ => NaN
  end.

Global Instance builtin_eq_dec : EqDecision builtin.
Proof. solve_decision. Defined.

(** Strict equality [===] of primitives ([NaN] differs from itself);
    two references are equal when they are the same reference. *)
Definition strict_eq (a b : value) : bool :=
  match a, b with
  | Prim Null, Prim Null => true
  | Prim Undefined, Prim Undefined => true
  | Prim (Bool x), Prim (Bool y) => Bool.eqb x y
  | Prim (Num x), Prim (Num y) => num_eqb x y
  | Prim (Str x), Prim (Str y) => String.eqb x y
  | Ref x, Ref y => Nat.eqb x y
  | Native x, Native y => bool_decide (x = y)
  | _, _ => false
  end.

(** ** Plain objects *)

(** The own properties of an object, in the order of their creation. *)
Definition props := list (string * prim).

(** A plain object: its own properties, and whether [Object.prototype]
    is its prototype (as it is for an object made by [{}], until
    [o.__proto__ = null] removes it). *)
Record plain := {
  own : props;
  inherits : bool
}.

(** [{}] *)
Definition empty_object : plain := {| own := []; inherits := true |}.

(** An object with the own properties [ps] and the prototype
    [Object.prototype]. *)
Definition ordinary (ps : props) : plain := {| own := ps; inherits := true |}.

Fixpoint prop_lookup (k : string) (ps : props) : option prim :=
  match ps with
  | [] => None
  | (k', v) :: ps' => if String.eqb k k' then Some v else prop_lookup k ps'
  end.

(** The members of [Object.prototype] that are functions, each with the
    name of the function: every one is a writable data property. *)
Definition prototype_functions : list (string * string) :=
  [("constructor", "Object");
   ("__defineGetter__", "__defineGetter__");
   ("__defineSetter__", "__defineSetter__");
   ("hasOwnProperty", "hasOwnProperty");
   ("__lookupGetter__", "__lookupGetter__");
   ("__lookupSetter__", "__lookupSetter__");
   ("isPrototypeOf", "isPrototypeOf");
   ("propertyIsEnumerable", "propertyIsEnumerable");
   ("toString", "toString");
   ("valueOf", "valueOf");
   ("toLocaleString", "toLocaleString")].

Fixpoint assoc (k : string) (l : list (string * string)) : option string :=
  match l with
  | [] => None
  | (k', v) :: l' => if String.eqb k k' then Some v else assoc k l'
  end.

(** What an object whose prototype is [Object.prototype] reads under a
    name that is not its own: a function of the prototype, the
    prototype itself under [__proto__] (an accessor), and [undefined]
    under any other name. *)
Definition inherited (k : string) : value :=
  if String.eqb k "__proto__" then Native ObjectPrototype
  else match assoc k prototype_functions with
       | Some name => Native (Method name)
       | None => Prim Undefined
       end.

(** [o[k]]: the own property; without one, what the prototype gives. *)
Definition prop_get (k : string) (o : plain) : value :=
  match prop_lookup k (own o) with
  | Some v => Prim v
  | None => if inherits o then inherited k else Prim Undefined
  end.

(** An own property is set: an existing one keeps its place, a new one
    goes to the end. *)
Fixpoint prop_set (k : string) (v : prim) (ps : props) : props :=
  match ps with
  | [] => [(k, v)]
  | (k', v') :: ps' =>
      if String.eqb k k' then (k, v) :: ps' else (k', v') :: prop_set k v ps'
  end.

(** An own property set for a pair [(k, v)]. *)
Definition set_pair (obj : props) (kv : string * prim) : props :=
  prop_set kv.1 kv.2 obj.

(** [o[k] = v] for a primitive [v].  An own property is set.  Without
    an own property [__proto__], an object that inherits the accessor
    of this name gets no property: the accessor removes the prototype
    when [v] is [null], and ignores any other primitive. *)
Definition assign (k : string) (v : prim) (o : plain) : plain :=
  match prop_lookup k (own o) with
  | Some _ => {| own := prop_set k v (own o); inherits := inherits o |}
  | None =>
      if inherits o && String.eqb k "__proto__"
      then match v with
           | Null => {| own := own o; inherits := false |}
           | _ => o
           end
      else {| own := prop_set k v (own o); inherits := inherits o |}
  end.

(** A key is an array index when it is the canonical decimal form of an
    integer below [2^32 - 1]. *)
Definition array_index (k : string) : option N :=
  let cs := list_ascii_of_string k in
  let n := digits_val cs in
  if forallb is_digit cs && String.eqb (digits_string n) k && (n <? 4294967295)%N
  then Some n else None.

Definition is_index (k : string) : bool :=
  match array_index k with Some _ => true | None => false end.

Definition index_le (a b : string) : Prop :=
  (default 0 (array_index a) <= default 0 (array_index b))%N.

Global Instance index_le_dec : RelDecision index_le.
Proof. intros a b. unfold index_le. apply _. Defined.

(** OrdinaryOwnPropertyKeys: the array indices in ascending numeric
    order, then the other keys in the order of their creation. *)
Definition own_keys (ps : props) : list string :=
  let ks := map fst ps in
  merge_sort index_le (filter (λ k, is_index k = true) ks)
  ++ filter (λ k, is_index k = false) ks.

Definition Object_keys (o : plain) : list string := own_keys (own o).

Definition Object_values (o : plain) : list prim :=
  map (λ k, default Undefined (prop_lookup k (own o))) (own_keys (own o)).

(** ** The heap *)

Inductive object :=
| Arr (elems : list value)
| Obj (o : plain).

(** References are positions in the heap; a new object takes the next
    free position. *)
Definition heap := list object.

Inductive js_error := JsError (name message : string).

Inductive result (A : Type) :=
| Ok (a : A)
| Throw (e : js_error).
Arguments Ok {A} a.
Arguments Throw {A} e.

(** A computation reads and updates the heap, and returns or throws. *)
Definition M (A : Type) : Type := heap → result A * heap.

Global Instance M_ret : MRet M := λ A a h, (Ok a, h).
Global Instance M_bind : MBind M := λ A B f m h,
  match m h with
  | (Ok a, h') => f a h'
  | (Throw e, h') => (Throw e, h')
  end.

Definition throw {A} (e : js_error) : M A := λ h, (Throw e, h).

Definition TypeError {A} (message : string) : M A :=
  throw (JsError "TypeError" message).

Definition alloc (o : object) : M nat := λ h, (Ok (length h), h ++ [o]).

Definition load (l : nat) : M object := λ h,
  match h !! l with
  | Some o => (Ok o, h)
  | None => (Throw (JsError "ReferenceError" "dangling reference"), h)
  end.

Definition store (l : nat) (o : object) : M unit := λ h, (Ok tt, <[l := o]> h).

(** The call of an array method, [name.method(...)] in the source, on
    the value [v]: which method it is. *)
Record call := {
  receiver : string;
  method : string
}.

(** The elements of the array that [v] refers to, for the call [c] of
    an array method on [v].  On anything else the call throws: no
    other value of this model has such a method, and [null] and
    [undefined] have no members at all. *)
Definition elements (c : call) (v : value) : M (list value) :=
  match v with
  | Ref l =>
      o ← load l;
      match o with
      | Arr vs => mret vs
      | Obj _ => TypeError (receiver c ++ "." ++ method c ++ " is not a function")
      end
  | Prim Null =>
      TypeError ("Cannot read properties of null (reading '" ++ method c ++ "')")
  | Prim Undefined =>
      TypeError ("Cannot read properties of undefined (reading '" ++ method c ++ "')")
  | _ => TypeError (receiver c ++ "." ++ method c ++ " is not a function")
  end.

(** The number of parameters of a function of [Object.prototype]. *)
Definition arity (name : string) : nat :=
  if String.eqb name "__defineGetter__" || String.eqb name "__defineSetter__" then 2
  else if String.eqb name "toString" || String.eqb name "valueOf"
          || String.eqb name "toLocaleString" then 0
  else 1.

(** [v[k]] for a string key [k].  (What arrays, texts, numbers and
    functions inherit from their own prototypes is not modelled: the
    rows of this program are plain objects.) *)
Definition get_prop (v : value) (k : string) : M value :=
  match v with
  | Ref l =>
      o ← load l;
      match o with
      | Obj o => mret (prop_get k o)
      | Arr vs =>
          match array_index k with
          | Some i => mret (default (Prim Undefined) (vs !! N.to_nat i))
          | None =>
              if String.eqb k "length" then mret (Prim (Num (of_nat (length vs))))
              else mret (Prim Undefined)
          end
      end
  | Prim (Str s) =>
      match array_index k with
      | Some i =>
          mret (Prim (match String.get (N.to_nat i) s with
                      | Some c => Str (String c EmptyString)
                      | None => Undefined
                      end))
      | None =>
          if String.eqb k "length" then mret (Prim (Num (of_nat (String.length s))))
          else mret (Prim Undefined)
      end
  | Prim Null =>
      TypeError ("Cannot read properties of null (reading '" ++ k ++ "')")
  | Prim Undefined =>
      TypeError ("Cannot read properties of undefined (reading '" ++ k ++ "')")
  | Prim _ => mret (Prim Undefined)
  | Native ObjectPrototype =>
      mret (if String.eqb k "__proto__" then Prim Null else inherited k)
  | Native (Method name) =>
      if String.eqb k "name" then mret (Prim (Str name))
      else if String.eqb k "length" then mret (Prim (Num (of_nat (arity name))))
      else mret (inherited k)
  end.

(** [v.length] *)
Definition get_length (v : value) : M value := get_prop v "length".

(** [a[i]] on an array reference. *)
Definition index (a : nat) (i : nat) : M value :=
  o ← load a;
  match o with
  | Arr vs => mret (default (Prim Undefined) (vs !! i))
  | Obj o => mret (prop_get (ToString (Prim (Num (of_nat i)))) o)
  end.

(** Running a loop body over the elements of a list, threading a local
    state. *)
Fixpoint foldM {A S} (f : S → A → M S) (s : S) (xs : list A) : M S :=
  match xs with
  | [] => mret s
  | x :: xs' => s' ← f s x; foldM f s' xs'
  end.

Fixpoint mapM {A B} (f : A → M B) (xs : list A) : M (list B) :=
  match xs with
  | [] => mret []
  | x :: xs' => y ← f x; ys ← mapM f xs'; mret (y :: ys)
  end.

(** A computation that only reads the heap. *)
Definition reads {A} (m : M A) : Prop := ∀ h, (m h).2 = h.

(** [Array.prototype.filter], [map] and [slice] build a new array;
    [name] is the name of the receiver in the source. *)
Definition Array_filter (name : string) (p : value → bool) (a : value) : M nat :=
  vs ← elements {| receiver := name; method := "filter" |} a;
  alloc (Arr (List.filter p vs)).

(** [a.map(f)] for a callback [f] that may itself use the heap: the
    new array, whose elements are the results [ws] of the callback as
    values ([into] makes a result a value), together with [ws]. *)
Definition Array_map {B} (name : string) (f : value → M B) (into : B → value)
    (a : value) : M (nat * list B) :=
  vs ← elements {| receiver := name; method := "map" |} a;
  ws ← mapM f vs;
  l ← alloc (Arr (map into ws));
  mret (l, ws).

Definition Array_slice (name : string) (a : value) (start stop : nat) : M nat :=
  vs ← elements {| receiver := name; method := "slice" |} a;
  alloc (Arr (take (stop - start) (drop start vs))).

(** [a.forEach(f)], for a callback that acts on the heap, and for one
    that updates local variables, whose values are the state [S]. *)
Definition Array_forEach (name : string) (f : value → M unit) (a : value) : M unit :=
  vs ← elements {| receiver := name; method := "forEach" |} a;
  foldM (λ _ v, f v) tt vs.

Definition Array_scan {S} (name : string) (f : S → value → S) (init : S)
    (a : value) : M S :=
  vs ← elements {| receiver := name; method := "forEach" |} a;
  mret (fold_left f vs init).

(** The elements of the array at [a], for an array that the program
    has made itself. *)
Definition contents (a : nat) : M (list value) :=
  o ← load a;
  match o with
  | Arr vs => mret vs
  | Obj _ => mret []
  end.

(** [Array.prototype.sort(compareFn)] sorts the array in place and
    returns the same reference: [a] goes before [b] unless
    [compareFn(a, b) > 0]. *)
Definition sorts_before (compareFn : value → value → number) (a b : value) : Prop :=
  num_pos (compareFn a b) = false.

Global Instance sorts_before_dec compareFn : RelDecision (sorts_before compareFn).
Proof. intros a b. unfold sorts_before. apply _. Defined.

Definition Array_sort (name : string) (compareFn : value → value → number)
    (a : nat) : M nat :=
  vs ← elements {| receiver := name; method := "sort" |} (Ref a);
  _ ← store a (Arr (merge_sort (sorts_before compareFn) vs));
  mret a.

Definition Array_reduce {S} (name : string) (f : S → value → S) (init : S)
    (a : value) : M S :=
  vs ← elements {| receiver := name; method := "reduce" |} a;
  mret (fold_left f vs init).

(** ** What the handlers and the middleware use besides *)

(** SameValueZero, the equality of [Array.prototype.includes]: strict
    equality, except that [NaN] is the same as itself. *)
Definition same_value_zero (a b : value) : bool :=
  match a, b with
  | Prim (Num NaN), Prim (Num NaN) => true
  | _, _ => strict_eq a b
  end.

(** [vs.includes(v)] on the elements of an array. *)
Definition includes (vs : list value) (v : value) : bool :=
  existsb (same_value_zero v) vs.

(** [s.replace(pattern, replacement)] with a string as pattern: the
    first occurrence of the pattern, from the left, is replaced, and a
    string without the pattern is returned as it is.  (The replacement
    is taken literally: the [$] patterns are not modelled.) *)
Fixpoint replace_first (pattern replacement cs : list ascii) : list ascii :=
  if starts_with pattern cs then replacement ++ drop (length pattern) cs
  else match cs with
       | [] => []
       | c :: cs' => c :: replace_first pattern replacement cs'
       end.

Definition String_replace (s pattern replacement : string) : string :=
  string_of_list_ascii
    (replace_first (list_ascii_of_string pattern) (list_ascii_of_string replacement)
                   (list_ascii_of_string s)).

(** [s.toLowerCase()] on the code units below 256: the capital letters
    of ASCII and those from [À] to [Þ], the sign [×] apart. *)
Definition lower (c : ascii) : ascii :=
  let n := N_of_ascii c in
  if ((65 <=? n) && (n <=? 90))%N
     || ((192 <=? n) && (n <=? 222) && negb (n =? 215))%N
  then ascii_of_N (n + 32) else c.

Definition toLowerCase (s : string) : string :=
  string_of_list_ascii (map lower (list_ascii_of_string s)).

(** [try { m } catch (error) { handler(error) }] *)
Definition catch {A} (m : M A) (handler : js_error → M A) : M A := λ h,
  match m h with
  | (Ok a, h') => (Ok a, h')
  | (Throw e, h') => handler e h'
  end.

(** The outcome of a call that does not touch the heap of the program
    (a query of the database, a library call). *)
Definition lift {A} (r : result A) : M A := λ h, (r, h).

(** [error.message] *)
Definition message_of (e : js_error) : string :=
  match e with JsError _ message => message end.

(** [error.name] *)
Definition name_of (e : js_error) : string :=
  match e with JsError name _ => name end.

(** A computation that leaves the objects of the heap as they are, and
    at most adds objects. *)
Definition extends {A} (m : M A) : Prop := ∀ h, h `prefix_of` (m h).2.

End Js.

(** * Node: [path.extname] *)

Module Path.
Import Js.

(** The local variables of the loop of [path.posix.extname]; [-1]
    stands for a position that is not known yet. *)
Record scan := {
  startDot : Z;
  startPart : Z;
  end_ : Z;
  matchedSlash : bool;
  preDotState : Z
}.

(** The loop, which runs from the last character to the first: [rpath]
    is the part of the path that is still to be seen, last character
    first, so that the character at its head has the index
    [length rest]. *)
Fixpoint extname_loop (rpath : list ascii) (st : scan) : scan :=
  match rpath with
  | [] => st
  | code :: rest =>
      let i := Z.of_nat (length rest) in
      if Ascii.eqb code "/" then
        if negb (matchedSlash st)
        then {| startDot := startDot st; startPart := i + 1; end_ := end_ st;
                matchedSlash := matchedSlash st; preDotState := preDotState st |}
        else extname_loop rest st
      else
        let st1 :=
          if (end_ st =? -1)%Z
          then {| startDot := startDot st; startPart := startPart st; end_ := i + 1;
                  matchedSlash := false; preDotState := preDotState st |}
          else st in
        let st2 :=
          if Ascii.eqb code "." then
            if (startDot st1 =? -1)%Z
            then {| startDot := i; startPart := startPart st1; end_ := end_ st1;
                    matchedSlash := matchedSlash st1; preDotState := preDotState st1 |}
            else if negb (preDotState st1 =? 1)%Z
            then {| startDot := startDot st1; startPart := startPart st1;
                    end_ := end_ st1; matchedSlash := matchedSlash st1;
                    preDotState := 1 |}
            else st1
          else if negb (startDot st1 =? -1)%Z
          then {| startDot := startDot st1; startPart := startPart st1;
                  end_ := end_ st1; matchedSlash := matchedSlash st1;
                  preDotState := -1 |}
          else st1 in
        extname_loop rest st2
  end.

Definition initial_scan : scan :=
  {| startDot := -1; startPart := 0; end_ := -1; matchedSlash := true;
     preDotState := 0 |}.

(** [path.extname(path)] where the separator is the slash: the part of
    the last portion of the path from its last dot on, and the empty
    string when that portion has no dot, starts with its only dot, or is
    [..]. *)
Definition extname (path : string) : string :=
  let cs := list_ascii_of_string path in
  let st := extname_loop (rev cs) initial_scan in
  if (startDot st =? -1)%Z || (end_ st =? -1)%Z || (preDotState st =? 0)%Z
     || ((preDotState st =? 1)%Z && (startDot st =? end_ st - 1)%Z
         && (startDot st =? startPart st + 1)%Z)
  then ""
  else string_of_list_ascii
         (take (Z.to_nat (end_ st - startDot st)) (drop (Z.to_nat (startDot st)) cs)).

End Path.

(** * server/routes/upload.js *)

Module Upload.
Import Js.

(** The pattern [/\d{4}-\d{2}-\d{2}|\d{2}\/\d{2}\/\d{4}/], tried at the
    head of [cs]: both alternatives are ten characters long. *)
Definition pattern_here (cs : list ascii) : bool :=
  match cs with
  | c0 :: c1 :: c2 :: c3 :: c4 :: c5 :: c6 :: c7 :: c8 :: c9 :: _ =>
      (forallb is_digit [c0; c1; c2; c3] && Ascii.eqb c4 "-"
       && forallb is_digit [c5; c6] && Ascii.eqb c7 "-"
       && forallb is_digit [c8; c9])
      ||
      (forallb is_digit [c0; c1] && Ascii.eqb c2 "/"
       && forallb is_digit [c3; c4] && Ascii.eqb c5 "/"
       && forallb is_digit [c6; c7; c8; c9])
  | _ => false
  end.

(** [value.match(pattern)] is not [null]: the pattern is not anchored,
    so it is tried at every position. *)
Fixpoint pattern_match (cs : list ascii) : bool :=
  pattern_here cs ||
  match cs with
  | _ :: cs' => pattern_match cs'
  | [] => false
  end.

Definition matches_date_pattern (s : string) : bool :=
  pattern_match (list_ascii_of_string s).

Inductive evidence := NumberEvidence | DateEvidence.

Global Instance evidence_eq_dec : EqDecision evidence.
Proof. solve_decision. Defined.

(** A column descriptor.  The sample values are what the rows give
    under the name of the column: cells, as a rule. *)
Record column := {
  name : prim;
  type : string;
  sampleValues : list value
}.

Record processed := {
  data : list plain;
  columns : list column;
  rowCount : nat
}.

Section upload.

(** The time value of [new Date(s)], [NaN] for an invalid date.  Which
    strings outside the ISO format parse is left to the engine. *)
Variable Date_parse : string → number.

(** What one examined value adds to the counts (the body of the loop
    of [analyzeColumnType]). *)
Definition classify (value : value) : option evidence :=
  match value with
  | Prim Null | Prim Undefined => None
  | Prim (Num n) => if negb (isNaN n) then Some NumberEvidence else None
  | Prim (Str s) =>
      if String.eqb s "" then None
      else if negb (isNaN (Date_parse s)) && matches_date_pattern s
      then Some DateEvidence
      else if negb (isNaN (parseFloat (Str s))) then Some NumberEvidence
      else None
  | Prim (Bool _) | Ref _ | Native _ => None
  end.

Definition count_step (counts : nat * nat) (value : value) : nat * nat :=
  let '(numberCount, dateCount) := counts in
  match classify value with
  | Some NumberEvidence => (S numberCount, dateCount)
  | Some DateEvidence => (numberCount, S dateCount)
  | None => (numberCount, dateCount)
  end.

Definition analyzeColumnType (values : list value) : string :=
  if Nat.eqb (length values) 0 then "string" else
  let '(numberCount, dateCount) := fold_left count_step (take 10 values) (0, 0) in
  if Nat.ltb dateCount numberCount && Nat.ltb 0 numberCount then "number"
  else if Nat.ltb 0 dateCount then "date"
  else "string".

(** [row[index] !== undefined ? row[index] : null] *)
Definition cell (row : list prim) (index : nat) : prim :=
  match row !! index with
  | Some Undefined | None => Null
  | Some v => v
  end.

(** The object built from one data row: [obj[header] = ...] for each
    header in turn, on an object that starts as [{}]. *)
Definition row_object (headers : list prim) (row : list prim) : plain :=
  fold_left (λ obj '(index, header),
               assign (ToString (Prim header)) (cell row index) obj)
            (imap (λ index header, (index, header)) headers) empty_object.

(** [val !== null && val !== undefined] *)
Definition not_nullish (val : value) : bool :=
  match val with Prim Null | Prim Undefined => false | _ => true end.

Definition describe_column (data : list plain) (header : prim) : column :=
  let columnValues :=
    List.filter not_nullish (map (λ row, prop_get (ToString (Prim header)) row) data) in
  let sampleValues := take 5 columnValues in
  let columnType := analyzeColumnType columnValues in
  {| name := header; type := columnType; sampleValues := sampleValues |}.

Definition Error {A} (message : string) : result A :=
  Throw (JsError "Error" message).

(** The [try] block after the workbook has been read, on the sheets of
    the workbook in the order of their names: each sheet is given as
    [sheet_to_json] returns it with [header: 1] and [defval: null], an
    array of arrays of cells. *)
Definition process_sheets (sheets : list (list (list prim))) : result processed :=
  match sheets with
  | [] => Error "No sheets found in the Excel file"
  | jsonData :: _ =>
      match jsonData with
      | [] => Error "No data found in the Excel file"
      | headers :: rows =>
          if Nat.eqb (length headers) 0
          then Error "No headers found in the Excel file"
          else
            let data := map (row_object headers) rows in
            let columns := map (describe_column data) headers in
            Ok {| data := data; columns := columns; rowCount := length rows |}
      end
  end.

(** [processExcelFile(filePath)], on what [XLSX.readFile(filePath)]
    does for the file: it returns the workbook, or throws (for a file
    that it cannot read).  Whatever is thrown inside the [try] block
    is thrown again as an [Error] with a longer message. *)
Definition processExcelFile (workbook : result (list (list (list prim))))
  : result processed :=
  let attempt :=
    match workbook with
    | Ok sheets => process_sheets sheets
    | Throw error => Throw error
    end in
  match attempt with
  | Ok r => Ok r
  | Throw error => Error ("Failed to process Excel file: " ++ message_of error)
  end.

End upload.

Definition allowedExtensions : list string := [".xls"; ".xlsx"].

(** The file filter of the upload middleware, on the name that the
    client gave the file: [cb(null, true)] accepts the file, and
    [cb(new Error(...), false)] refuses it with an error. *)
Definition fileFilter (originalname : string) : result bool :=
  let fileExtension := toLowerCase (Path.extname originalname) in
  if existsb (String.eqb fileExtension) allowedExtensions
  then Ok true
  else Error "Only Excel files (.xls, .xlsx) are allowed".

End Upload.

(** * server/middleware/auth.js *)

Module Middleware.
Import Js.

(** The payload that [jwt.verify] returns: an object with the claims of
    the token as its own properties, or a text. *)
Inductive payload :=
| Claims (ps : props)
| Text (s : string).

(** [decoded.userId] *)
Definition userId (decoded : payload) : value :=
  match decoded with
  | Claims ps => prop_get "userId" (ordinary ps)
  | Text _ => Prim Undefined
  end.

(** A user document, as far as the middleware reads it. *)
Record user := {
  _id : prim;
  role : prim
}.

(** What the middleware does with a request: it answers with a status
    and a message, or sets [req.user] and calls [next]. *)
Inductive outcome :=
| Respond (status : nat) (message : string)
| Next (id role : prim).

Section auth.

(** [jwt.verify(token, process.env.JWT_SECRET)], which throws on a token
    that it does not accept, and [User.findById(id)], which resolves to
    [null] when there is no such user. *)
Variable jwt_verify : string → result payload.
Variable User_findById : value → result (option user).

(** The [catch] block. *)
Definition auth_failed (error : js_error) : outcome :=
  if String.eqb (name_of error) "JsonWebTokenError"
  then Respond 401 "Invalid token, access denied"
  else if String.eqb (name_of error) "TokenExpiredError"
  then Respond 401 "Token expired, access denied"
  else Respond 500 "Server error in authentication".

(** [req.header('Authorization')?.replace('Bearer ', '')] *)
Definition token_of (authorization : option string) : option string :=
  match authorization with
  | Some header => Some (String_replace header "Bearer " "")
  | None => None
  end.

(** The middleware, on the [Authorization] header of the request
    ([None] when the request has none). *)
Definition auth (authorization : option string) : outcome :=
  match token_of authorization with
  | None => Respond 401 "No token provided, access denied"
  | Some token =>
      if String.eqb token ""
      then Respond 401 "No token provided, access denied"
      else
        match jwt_verify token with
        | Throw error => auth_failed error
        | Ok decoded =>
            match User_findById (userId decoded) with
            | Throw error => auth_failed error
            | Ok None => Respond 401 "User not found, access denied"
            | Ok (Some user) => Next (_id user) (role user)
            end
        end
  end.

End auth.
End Middleware.

(** * server/models/Analysis.js *)

Module Analysis.
Import Js.

Record statistics := {
  mean : number;
  median : number;
  mode : number;
  range : number;
  standardDeviation : number
}.

(** The axis selection of a request; [label] may be absent. *)
Record axis := {
  column : string;
  label : option string
}.

(** [axis.label || axis.column] *)
Definition label_or_column (a : axis) : string :=
  match label a with
  | Some l => if String.eqb l "" then column a else l
  | None => column a
  end.

(** An entry of a data set: a primitive (a number, as a rule), or a
    point of a scatter chart. *)
Inductive datum :=
| Value (v : prim)
| Point (x y : number).

(** A colour setting: a list of colours or a single one. *)
Inductive paint :=
| Colors (cs : list string)
| Color (c : string).

Record dataset := {
  dataset_label : string;
  data : list datum;
  backgroundColor : paint;
  borderColor : paint;
  borderWidth : nat;
  fill : option bool;
  tension : option Q
}.

(** The chart that the builder returns, as a record of its parts: the
    elements of its array of labels, and its data sets. *)
Record chartData := {
  labels : list value;
  datasets : list dataset
}.

Definition colors : list string :=
  ["#FF6384"; "#36A2EB"; "#FFCE56"; "#4BC0C0"; "#9966FF";
   "#FF9F40"; "#FF6384"; "#C9CBCF"; "#4BC0C0"; "#FF6384"].

Definition color (index : nat) : string := default "" (colors !! index).

(** [typeof val === 'number' && !isNaN(val)] *)
Definition is_number (val : value) : bool :=
  String.eqb (typeof val) "number" && negb (isNaN (ToNumber val)).

(** [(a, b) => a - b] *)
Definition compareFn (a b : value) : number := num_sub (ToNumber a) (ToNumber b).

(** [(acc, val) => acc + val] *)
Definition add_value (acc : number) (val : value) : number :=
  num_add acc (ToNumber val).

(** The body of the loop that finds the mode, on the local state
    [(frequency, maxFreq, mode)].  The keys of [frequency] are
    numerals, none of which is a name that an object inherits, so that
    the object is read and written as a finite map. *)
Definition mode_step (st : gmap string nat * nat * option value) (num : value)
  : gmap string nat * nat * option value :=
  let '(frequency, maxFreq, mode) := st in
  let count := default 0 (frequency !! ToString num) + 1 in
  let frequency := <[ToString num := count]> frequency in
  if Nat.ltb maxFreq count then (frequency, count, Some num)
  else (frequency, maxFreq, mode).

(** [parseFloat(x.toFixed(2))] *)
Definition round2 (x : number) : number := parseFloat (Str (toFixed x 2)).

(** [parseFloat(v) || 0] *)
Definition parseFloat_or_0 (v : value) : number :=
  if num_truthy (parseFloat v) then parseFloat v else Fin 0.

(** [a + y] for a number [y]: a text, an object or a function on the
    left is joined with the numeral of [y]; anything else is added as a
    number. *)
Definition plus (a : value) (y : number) : prim :=
  match a with
  | Prim (Str s) => Str (s ++ number_to_string y)
  | Prim p => Num (num_add (ToNumber (Prim p)) y)
  | Ref _ | Native _ => Str (ToString a ++ number_to_string y)
  end.

(** [if (o[k]) { o[k] += y } else { o[k] = y }] for the key of
    [xValue]. *)
Definition pie_step (xValue : value) (yValue : number) (groupedData : plain) : plain :=
  let key := ToString xValue in
  if truthy (prop_get key groupedData)
  then assign key (plus (prop_get key groupedData) yValue) groupedData
  else assign key (Num yValue) groupedData.

(** The plain object at [l], for an object that the program has made
    itself. *)
Definition load_props (l : nat) : M plain :=
  o ← load l;
  match o with
  | Obj o => mret o
  | Arr _ => mret empty_object
  end.

Section analysis.

(** [Math.pow] and [Math.sqrt], which the engine approximates. *)
Variable Math_pow : number → number → number.
Variable Math_sqrt : number → number.

(** [val => Math.pow(val - mean, 2)] *)
Definition squared_diff (mean : number) (val : value) : value :=
  Prim (Num (Math_pow (num_sub (ToNumber val) mean) (Fin 2))).

Definition calculateStatistics (data : value) : M (option statistics) :=
  if negb (truthy data) then mret None else
  len ← get_length data;
  if strict_eq len (Num (of_nat 0)) then mret None else
  numbers ← Array_filter "data" is_number data;
  ns ← contents numbers;
  let n := length ns in
  if Nat.eqb n 0 then mret None else
  sorted ← Array_sort "numbers" compareFn numbers;
  sum ← Array_reduce "numbers" add_value (of_nat 0) (Ref numbers);
  let mean := num_div sum (of_nat n) in
  median ←
    (if Nat.eqb (n mod 2) 0
     then a ← index sorted (n / 2 - 1);
          b ← index sorted (n / 2);
          mret (num_div (num_add (ToNumber a) (ToNumber b)) (of_nat 2))
     else a ← index sorted (n / 2);
          mret (ToNumber a));
  scanned ← Array_scan "numbers" mode_step (∅, 0, None) (Ref numbers);
  let '(_, _, mode) := scanned in
  sorted_elems ← contents sorted;
  hi ← index sorted (length sorted_elems - 1);
  lo ← index sorted 0;
  let range := num_sub (ToNumber hi) (ToNumber lo) in
  squaredDiffs ← Array_map "numbers" (λ val, mret (squared_diff mean val)) id
                           (Ref numbers);
  sqsum ← Array_reduce "squaredDiffs" add_value (of_nat 0) (Ref squaredDiffs.1);
  let avgSquaredDiff := num_div sqsum (of_nat n) in
  let standardDeviation := Math_sqrt avgSquaredDiff in
  match mode with
  | Some (Prim (Num mode)) =>
      mret (Some {| mean := round2 mean;
                    median := round2 median;
                    mode := round2 mode;
                    range := round2 range;
                    standardDeviation := round2 standardDeviation |})
  | _ => TypeError "Cannot read properties of null (reading 'toFixed')"
  end.

(** The statistics before they are rounded, read off the sorted array
    of numbers: the values of the local variables [mean], [median],
    [mode], [range] and [standardDeviation]. *)
Definition unrounded_statistics (sorted : list value) : statistics :=
  let n := length sorted in
  let elem i := ToNumber (default (Prim Undefined) (sorted !! i)) in
  let mean := num_div (fold_left add_value sorted (of_nat 0)) (of_nat n) in
  {| mean := mean;
     median :=
       if Nat.eqb (n mod 2) 0
       then num_div (num_add (elem (n / 2 - 1)) (elem (n / 2))) (of_nat 2)
       else elem (n / 2);
     mode :=
       match (fold_left mode_step sorted (∅, 0, None)).2 with
       | Some v => ToNumber v
       | None => NaN
       end;
     range := num_sub (elem (n - 1)) (elem 0);
     standardDeviation :=
       Math_sqrt
         (num_div (fold_left add_value (map (squared_diff mean) sorted) (of_nat 0))
                  (of_nat n)) |}.

End analysis.

(** Every field rounded: [parseFloat(x.toFixed(2))]. *)
Definition rounded (s : statistics) : statistics :=
  {| mean := round2 (mean s);
     median := round2 (median s);
     mode := round2 (mode s);
     range := round2 (range s);
     standardDeviation := round2 (standardDeviation s) |}.

(** The callback of the loop of the pie branch: one row added to the
    object [groupedData]. *)
Definition group_row (xAxis yAxis : axis) (groupedData : nat) (row : value) : M unit :=
  xValue ← get_prop row (column xAxis);
  yCell ← get_prop row (column yAxis);
  let yValue := parseFloat_or_0 yCell in
  g ← load_props groupedData;
  store groupedData (Obj (pie_step xValue yValue g)).

(** The same step on a row and on [groupedData] as objects. *)
Definition group_props (xAxis yAxis : axis) (groupedData row : plain) : plain :=
  pie_step (prop_get (column xAxis) row)
           (parseFloat_or_0 (prop_get (column yAxis) row))
           groupedData.

(** [row => ({ x: parseFloat(row[x]) || 0, y: parseFloat(row[y]) || 0 })]:
    the reference of the new object, and the point that it holds. *)
Definition scatter_point (xAxis yAxis : axis) (row : value) : M (nat * datum) :=
  xCell ← get_prop row (column xAxis);
  yCell ← get_prop row (column yAxis);
  let x := parseFloat_or_0 xCell in
  let y := parseFloat_or_0 yCell in
  l ← alloc (Obj (ordinary [("x", Num x); ("y", Num y)]));
  mret (l, Point x y).

(** [row => row[xAxis.column]] *)
Definition row_label (xAxis : axis) (row : value) : M value :=
  get_prop row (column xAxis).

(** [row => parseFloat(row[yAxis.column]) || 0] *)
Definition row_value (yAxis : axis) (row : value) : M number :=
  yCell ← get_prop row (column yAxis);
  mret (parseFloat_or_0 yCell).

Definition initial_dataset (yAxis : axis) : dataset :=
  {| dataset_label := label_or_column yAxis;
     data := [];
     backgroundColor := Colors [];
     borderColor := Colors [];
     borderWidth := 1;
     fill := None;
     tension := None |}.

(** [chartData] as the scatter branch leaves it. *)
Definition scatter_chart (yAxis : axis) (points : list datum) : chartData :=
  let dataset0 := initial_dataset yAxis in
  {| labels := [];
     datasets :=
       [{| dataset_label := dataset_label dataset0;
           data := points;
           backgroundColor := Color (color 0);
           borderColor := Color (color 0);
           borderWidth := borderWidth dataset0;
           fill := None;
           tension := None |}] |}.

(** [chartData] as the last branch leaves it: bar, line or area, and
    the labels and data alone for any other chart type. *)
Definition series_chart (yAxis : axis) (chartType : string)
    (labels : list value) (values : list datum) : chartData :=
  let dataset0 := initial_dataset yAxis in
  if String.eqb chartType "bar" then
    {| labels := labels;
       datasets :=
         [{| dataset_label := dataset_label dataset0;
             data := values;
             backgroundColor := Color (color 0 ++ "80");
             borderColor := Color (color 0);
             borderWidth := borderWidth dataset0;
             fill := None;
             tension := None |}] |}
  else if String.eqb chartType "line" || String.eqb chartType "area" then
    {| labels := labels;
       datasets :=
         [{| dataset_label := dataset_label dataset0;
             data := values;
             backgroundColor :=
               Color (if String.eqb chartType "area"
                      then color 0 ++ "30" else "transparent");
             borderColor := Color (color 0);
             borderWidth := borderWidth dataset0;
             fill := Some (String.eqb chartType "area");
             tension := Some (4 # 10) |}] |}
  else
    {| labels := labels;
       datasets :=
         [{| dataset_label := dataset_label dataset0;
             data := values;
             backgroundColor := backgroundColor dataset0;
             borderColor := borderColor dataset0;
             borderWidth := borderWidth dataset0;
             fill := None;
             tension := None |}] |}.

Definition no_data : js_error :=
  JsError "Error" "No data available for chart generation".

(** [chartData] as the pie branch leaves it, from the object
    [groupedData]. *)
Definition pie_chart (yAxis : axis) (groupedData : plain) : chartData :=
  let dataset0 := initial_dataset yAxis in
  let labels := Object_keys groupedData in
  {| labels := map (λ k, Prim (Str k)) labels;
     datasets :=
       [{| dataset_label := dataset_label dataset0;
           data := map Value (Object_values groupedData);
           backgroundColor :=
             Colors (imap (λ index _, color (index mod length colors)) labels);
           borderColor := borderColor dataset0;
           borderWidth := borderWidth dataset0;
           fill := None;
           tension := None |}] |}.

(** The builder.  The chart is returned as a record; the arrays and
    objects that a branch makes with [{}], [Object.keys],
    [Object.values], [slice] and [map] are allocated in the heap. *)
Definition processChartData (data : value) (xAxis yAxis : axis) (chartType : string)
  : M chartData :=
  if negb (truthy data) then throw no_data else
  len ← get_length data;
  if strict_eq len (Num (of_nat 0)) then throw no_data else
  if String.eqb chartType "pie" then
    groupedData ← alloc (Obj empty_object);
    _ ← Array_forEach "data" (group_row xAxis yAxis groupedData) data;
    g ← load_props groupedData;
    let chart := pie_chart yAxis g in
    _ ← alloc (Arr (labels chart));
    _ ← alloc (Arr (map Prim (Object_values g)));
    _ ← alloc (Arr (map (λ index, Prim (Str (color (index mod length colors))))
                        (seq 0 (length (labels chart)))));
    mret chart
  else if String.eqb chartType "scatter" then
    points ← Array_map "data" (scatter_point xAxis yAxis) (λ p, Ref p.1) data;
    mret (scatter_chart yAxis (map snd points.2))
  else
    processedData ← Array_slice "data" data 0 50;
    labels ← Array_map "processedData" (row_label xAxis) id (Ref processedData);
    values ← Array_map "processedData" (row_value yAxis) (λ n, Prim (Num n))
                       (Ref processedData);
    mret (series_chart yAxis chartType labels.2 (map (λ n, Value (Num n)) values.2)).

(** ** The chart configuration *)

Record title := {
  display : bool;
  text : string
}.

Record legend := {
  position : string
}.

Record plugins := {
  plugins_legend : legend;
  plugins_title : title
}.

(** An axis of the chart: [type] and [position] are set for the x-axis
    of a scatter chart only. *)
Record scale := {
  scale_type : option string;
  scale_position : option string;
  scale_title : title
}.

Record scales := {
  x : scale;
  y : scale
}.

Record options := {
  responsive : bool;
  maintainAspectRatio : bool;
  options_plugins : plugins;
  options_scales : option scales
}.

Record chartConfig := {
  config_type : string;
  config_data : chartData;
  config_options : options
}.

Definition axis_title (a : axis) : title :=
  {| display := true; text := label_or_column a |}.

Definition generateChartConfig (chartType : string) (chartData : chartData)
    (xAxis yAxis : axis) : chartConfig :=
  let baseTitle :=
    {| display := true;
       text := label_or_column yAxis ++ " vs " ++ label_or_column xAxis |} in
  if String.eqb chartType "pie" then
    {| config_type := chartType;
       config_data := chartData;
       config_options :=
         {| responsive := true;
            maintainAspectRatio := false;
            options_plugins :=
              {| plugins_legend := {| position := "right" |};
                 plugins_title := baseTitle |};
            options_scales := None |} |}
  else if String.eqb chartType "scatter" then
    {| config_type := chartType;
       config_data := chartData;
       config_options :=
         {| responsive := true;
            maintainAspectRatio := false;
            options_plugins :=
              {| plugins_legend := {| position := "top" |};
                 plugins_title := baseTitle |};
            options_scales :=
              Some {| x := {| scale_type := Some "linear";
                              scale_position := Some "bottom";
                              scale_title := axis_title xAxis |};
                      y := {| scale_type := None;
                              scale_position := None;
                              scale_title := axis_title yAxis |} |} |} |}
  else
    {| config_type := chartType;
       config_data := chartData;
       config_options :=
         {| responsive := true;
            maintainAspectRatio := false;
            options_plugins :=
              {| plugins_legend := {| position := "top" |};
                 plugins_title := baseTitle |};
            options_scales :=
              Some {| x := {| scale_type := None;
                              scale_position := None;
                              scale_title := axis_title xAxis |};
                      y := {| scale_type := None;
                              scale_position := None;
                              scale_title := axis_title yAxis |} |} |} |}.

(** ** The handler that creates an analysis *)

(** The body of a request.  An axis is an object with a text [column]
    when the request has one. *)
Record request := {
  uploadId : value;
  request_title : value;
  description : value;
  chartType : value;
  xAxis : option axis;
  yAxis : option axis
}.

(** An upload document, as far as the handler reads it: the names of
    its columns, and its rows (an array in the heap). *)
Record upload := {
  upload_columns : list value;
  upload_data : value
}.

(** What the handler answers: a status with a message, or the status
    201 with the analysis that it has made (whose other fields are
    those of the request and what the database adds). *)
Inductive response :=
| Message (status : nat) (message : string)
| Created (chartData : chartData) (chartConfig : chartConfig)
          (statistics : option statistics).

Definition validChartTypes : list string :=
  ["bar"; "line"; "pie"; "scatter"; "area"].

(** [row => parseFloat(row[yAxis.column])] *)
Definition row_number (yAxis : axis) (row : value) : M number :=
  yCell ← get_prop row (column yAxis);
  mret (parseFloat yCell).

(** [val => !isNaN(val)] *)
Definition not_NaN (val : value) : bool := negb (isNaN (ToNumber val)).

(** [data.map(row => parseFloat(row[yAxis.column])).filter(val => !isNaN(val))] *)
Definition y_axis_data (data : value) (yAxis : axis) : M nat :=
  mapped ← Array_map "upload.data" (row_number yAxis) (λ n, Prim (Num n)) data;
  Array_filter "upload.data.map(...)" not_NaN (Ref mapped.1).

Section route.

Variable Math_pow : number → number → number.
Variable Math_sqrt : number → number.

(** What [Upload.findOne] resolves to for an upload id and the user of
    the request ([null] when the user has no such upload), and what
    saving the new analysis and adding it to the user does. *)
Variable Upload_findOne : value → result (option upload).
Variable save : chartData → chartConfig → option statistics → result unit.

(** From the chart to the saved analysis. *)
Definition analyse (found : upload) (xAxis yAxis : axis) (chartType : string)
  : M response :=
  chartData ← processChartData (upload_data found) xAxis yAxis chartType;
  let chartConfig := generateChartConfig chartType chartData xAxis yAxis in
  yAxisData ← y_axis_data (upload_data found) yAxis;
  statistics ← calculateStatistics Math_pow Math_sqrt (Ref yAxisData);
  _ ← lift (save chartData chartConfig statistics);
  mret (Created chartData chartConfig statistics).

Definition missing_fields : response :=
  Message 400 "Missing required fields: uploadId, title, chartType, xAxis, yAxis".

(** The [try] block of the handler of [POST /api/analysis]. *)
Definition create (body : request) : M response :=
  match xAxis body, yAxis body with
  | Some xAxis, Some yAxis =>
      if negb (truthy (uploadId body)) || negb (truthy (request_title body))
         || negb (truthy (chartType body))
      then mret missing_fields
      else
        found ← lift (Upload_findOne (uploadId body));
        match found with
        | None => mret (Message 404 "Upload not found")
        | Some found =>
            if negb (includes (map (λ t, Prim (Str t)) validChartTypes) (chartType body))
            then mret (Message 400 "Invalid chart type")
            else
              let columns := upload_columns found in
              if negb (includes columns (Prim (Str (column xAxis))))
                 || negb (includes columns (Prim (Str (column yAxis))))
              then mret (Message 400 "Invalid axis columns")
              else analyse found xAxis yAxis (ToString (chartType body))
        end
  | _, _ => mret missing_fields
  end.

(** [error.message || 'Error creating analysis'] *)
Definition creation_failed (error : js_error) : M response :=
  mret (Message 500 (if String.eqb (message_of error) ""
                     then "Error creating analysis" else message_of error)).

Definition post_analysis (body : request) : M response :=
  catch (create body) creation_failed.

End route.

End Analysis.

(** * Notions of the specification *)

Module Spec.
Import Js.

(** A decimal digit. *)
Definition decimal_digit (c : ascii) : Prop :=
  c ∈ list_ascii_of_string "0123456789".

(** [YYYY-MM-DD]: a four-digit year first. *)
Definition year_first_shaped (cs : list ascii) : Prop :=
  ∃ y1 y2 y3 y4 m1 m2 d1 d2,
    Forall decimal_digit [y1; y2; y3; y4; m1; m2; d1; d2] ∧
    cs = [y1; y2; y3; y4; "-"; m1; m2; "-"; d1; d2]%char.

(** [DD/MM/YYYY]: a numeric triple separated by slashes. *)
Definition slash_triple_shaped (cs : list ascii) : Prop :=
  ∃ d1 d2 m1 m2 y1 y2 y3 y4,
    Forall decimal_digit [d1; d2; m1; m2; y1; y2; y3; y4] ∧
    cs = [d1; d2; "/"; m1; m2; "/"; y1; y2; y3; y4]%char.

(** The text matches the date pattern: some part of it has one of the
    two shapes. *)
Definition matches_strict_pattern (s : string) : Prop :=
  ∃ before part after,
    list_ascii_of_string s = before ++ part ++ after ∧
    (year_first_shaped part ∨ slash_triple_shaped part).

(** Date evidence: a text that matches the strict pattern and parses
    to a valid date. *)
Definition date_evidence (Date_parse : string → number) (v : value) : Prop :=
  ∃ s, v = Prim (Str s) ∧ matches_strict_pattern s ∧ isNaN (Date_parse s) = false.

(** Number evidence: a number (which [NaN] is not), or a text that is
    no date evidence and parses as a floating-point number. *)
Definition number_evidence (Date_parse : string → number) (v : value) : Prop :=
  (∃ n, v = Prim (Num n) ∧ isNaN n = false) ∨
  (∃ s, v = Prim (Str s) ∧ ¬ date_evidence Date_parse v ∧
        isNaN (parse_float (list_ascii_of_string s)) = false).

(** [n] of the values [l] have the property [P]. *)
Inductive count_is {A} (P : A → Prop) : list A → nat → Prop :=
| count_nil : count_is P [] 0
| count_in x l n : P x → count_is P l n → count_is P (x :: l) (S n)
| count_out x l n : ¬ P x → count_is P l n → count_is P (x :: l) n.

(** An empty string read as [null]. *)
Definition blank_to_null (v : value) : value :=
  match v with
  | Prim (Str s) => if String.eqb s "" then Prim Null else v
  | _ => v
  end.

(** The entries of [l] in the order in which they are first seen. *)
Fixpoint first_seen {A} `{EqDecision A} (l : list A) : list A :=
  match l with
  | [] => []
  | x :: l' => x :: filter (λ y, y ≠ x) (first_seen l')
  end.

(** A missing or undefined cell reads as [null]. *)
Definition null_if_undefined (v : prim) : prim :=
  match v with Undefined => Null | _ => v end.

(** The header names zipped with the cells of a data row, position by
    position: the cells beyond the headers are dropped, and [null]
    stands for the missing trailing ones. *)
Definition zip_row (headers row : list prim) : props :=
  zip (map (λ header, ToString (Prim header)) headers)
      (take (length headers)
            (map null_if_undefined row
             ++ replicate (length headers - length row) Null)).

(** Pairs read as a mapping: the last pair of a key counts. *)
Definition as_mapping (pairs : props) (key : string) : option prim :=
  prop_lookup key (rev pairs).

(** The heap holds the rows [rows] as the array at [d]: an array of
    references to row objects. *)
Definition holds_rows (h : heap) (d : nat) (rows : list plain) : Prop :=
  ∃ ls, h !! d = Some (Arr (map Ref ls)) ∧
        Forall2 (λ l row, h !! l = Some (Obj row)) ls rows.

(** The numeric values of an input: the numbers that are not [NaN]. *)
Definition numeric_values (vs : list value) : list number :=
  omap (λ v, match v with
             | Prim (Num n) => if isNaN n then None else Some n
             | _ => None
             end) vs.

Definition occurrences (x : number) (xs : list number) : nat :=
  length (List.filter (num_eqb x) xs).

Definition highest_count (xs : list number) : nat :=
  max_list (map (λ x, occurrences x xs) xs).

(** One scan from left to right: the first value whose count so far
    reaches [target]. *)
Fixpoint first_to_reach (target : nat) (seen rest : list number) : option number :=
  match rest with
  | [] => None
  | x :: rest' =>
      if Nat.eqb (occurrences x (x :: seen)) target then Some x
      else first_to_reach target (x :: seen) rest'
  end.

(** The mode of the specification: the first value, in input order, to
    reach the highest occurrence count. *)
Definition first_seen_mode (xs : list number) : option number :=
  first_to_reach (highest_count xs) [] xs.

(** The decimal [n / 100] is [q] rounded to two decimals, half away
    from zero. *)
Definition two_decimals (q : Q) (n : Z) : Prop :=
  (Qabs ((n # 100) - q) <= 1 # 200)%Q ∧
  ((Qabs ((n # 100) - q) == 1 # 200)%Q → (Qabs q < Qabs (n # 100))%Q).

(** The number [r] is [x] rounded to two decimals, half away from
    zero: the double nearest to the rounded decimal, which keeps the
    sign of [x] when it is zero.  (From [10^21] on a double is a whole
    number, and nothing is rounded: it is printed and read again.) *)
Definition rounds_half_away (x r : number) : Prop :=
  match x with
  | NaN => r = NaN
  | Infinity s => r = Infinity s
  | _ =>
      ((Qabs (exact x) < pow10 21)%Q →
       ∃ n : Z, two_decimals (exact x) n ∧
                r = if (n =? 0)%Z then zero (Qsign_neg (exact x))
                    else round64 (n # 100)) ∧
      ((pow10 21 <= Qabs (exact x))%Q →
       r = parse_float (list_ascii_of_string (number_to_string x)))
  end.

(** The sum of a list of numbers, added in order. *)
Definition sum_list (l : list number) : number := fold_left num_add l (Fin 0).

(** A number, or 0 for [NaN] (and for a zero). *)
Definition or_zero (n : number) : number := if num_truthy n then n else Fin 0.

(** The display form of the x-value of a row, by which the pie chart
    groups, and its y-value parsed as a floating-point number, with 0
    for what does not parse. *)
Definition x_key (xAxis : Analysis.axis) (row : plain) : string :=
  ToString (prop_get (Analysis.column xAxis) row).

Definition y_number (yAxis : Analysis.axis) (row : plain) : number :=
  or_zero (parseFloat (prop_get (Analysis.column yAxis) row)).

(** The sum of the y-values over the rows of the group [key]. *)
Definition group_sum (xAxis yAxis : Analysis.axis) (key : string) (rows : list plain)
  : number :=
  sum_list (map (y_number yAxis) (filter (λ row, x_key xAxis row = key) rows)).

(** A name under which an object reads a member of [Object.prototype]
    when it has no property of its own. *)
Definition inherited_name (key : string) : Prop :=
  key = "__proto__" ∨ key ∈ map fst prototype_functions.

Global Instance inherited_name_dec (key : string) : Decision (inherited_name key).
Proof. unfold inherited_name. apply _. Defined.

(** The keys of a JavaScript object as they are enumerated: the array
    indices in ascending order first, the other keys in the given
    order after them. *)
Definition indices_first (keys : list string) : list string :=
  merge_sort index_le (filter (λ k, is_index k = true) keys)
  ++ filter (λ k, is_index k = false) keys.

(** ** Notions for the further properties *)

(** The cells of the column at [index], one for each data row, without
    those that are [null], [undefined] or missing. *)
Definition column_cells (rows : list (list prim)) (index : nat) : list value :=
  List.filter Upload.not_nullish (map (λ row, Prim (Upload.cell row index)) rows).

(** The header at [index] is the last one of its name. *)
Definition last_of_its_name (headers : list prim) (index : nat) : Prop :=
  ∀ j h h', headers !! index = Some h → headers !! j = Some h' →
            (index < j)%nat → ToString (Prim h') ≠ ToString (Prim h).

(** [k] slashes. *)
Definition slashes (k : nat) : string := string_of_list_ascii (replicate k "/"%char).

(** The text [pattern] occurs in the text [s]. *)
Definition occurs_in (pattern s : string) : Prop :=
  ∃ before after, s = (before ++ pattern ++ after)%string.

(** The integer [z] as a value. *)
Definition int_value (z : Z) : value := Prim (Num (of_Z z)).

(** How often [z] occurs in [zs]. *)
Definition count_of (z : Z) (zs : list Z) : nat := length (filter (λ y, y = z) zs).

(** The request passes the checks of the handler: it has the required
    fields, the user has the upload [found], the chart type [type] is a
    valid one, and both axes name columns of the upload. *)
Definition accepted (Upload_findOne : value → result (option Analysis.upload))
    (body : Analysis.request) (found : Analysis.upload) (x y : Analysis.axis)
    (type : string) : Prop :=
  Analysis.xAxis body = Some x ∧ Analysis.yAxis body = Some y ∧
  Analysis.chartType body = Prim (Str type) ∧ type ∈ Analysis.validChartTypes ∧
  truthy (Analysis.uploadId body) = true ∧
  truthy (Analysis.request_title body) = true ∧
  Upload_findOne (Analysis.uploadId body) = Ok (Some found) ∧
  Prim (Str (Analysis.column x)) ∈ Analysis.upload_columns found ∧
  Prim (Str (Analysis.column y)) ∈ Analysis.upload_columns found.

End Spec.

(** * Objects *)

Section object_facts.
Import Js.

Lemma prop_lookup_set (k k' : string) (v : prim) (ps : props) :
  prop_lookup k (prop_set k' v ps) =
  if String.eqb k k' then Some v else prop_lookup k ps.
Proof.
  induction ps as [|[k0 v0] ps IH]; cbn.
  - destruct (String.eqb k k'); reflexivity.
  - destruct (String.eqb_spec k' k0) as [->|Hne]; cbn.
    + destruct (String.eqb k k0); reflexivity.
    + destruct (String.eqb_spec k k0) as [->|Hne'].
      * destruct (String.eqb_spec k0 k'); [congruence|reflexivity].
      * exact IH.
Qed.

Lemma prop_lookup_app (k : string) (ps qs : props) :
  prop_lookup k (ps ++ qs) =
  match prop_lookup k ps with Some v => Some v | None => prop_lookup k qs end.
Proof.
  induction ps as [|[k0 v0] ps IH]; cbn; [reflexivity|].
  destruct (String.eqb k k0); [reflexivity|exact IH].
Qed.

Lemma prop_lookup_None (k : string) (ps : props) :
  prop_lookup k ps = None ↔ k ∉ map fst ps.
Proof.
  induction ps as [|[k0 v0] ps IH]; cbn.
  - split; [intros _; apply not_elem_of_nil|done].
  - rewrite not_elem_of_cons, <- IH.
    destruct (String.eqb_spec k k0); intuition (try discriminate; try congruence).
Qed.

Lemma prop_set_fresh (k : string) (v : prim) (ps : props) :
  k ∉ map fst ps → prop_set k v ps = ps ++ [(k, v)].
Proof.
  induction ps as [|[k0 v0] ps IH]; cbn; [reflexivity|].
  rewrite not_elem_of_cons. intros [Hne Hk].
  destruct (String.eqb_spec k k0); [congruence|]. by rewrite IH.
Qed.

(** Under a name other than [__proto__] an assignment sets an own
    property. *)
Lemma assign_own (k : string) (v : prim) (o : plain) :
  k ≠ "__proto__" →
  assign k v o = {| own := prop_set k v (own o); inherits := inherits o |}.
Proof.
  intros Hk. unfold assign.
  destruct (prop_lookup k (own o)); [reflexivity|].
  destruct (String.eqb_spec k "__proto__"); [done|].
  by rewrite andb_false_r.
Qed.

(** An object that has the property already keeps it as its own. *)
Lemma assign_present (k : string) (v v' : prim) (o : plain) :
  prop_lookup k (own o) = Some v' →
  assign k v o = {| own := prop_set k v (own o); inherits := inherits o |}.
Proof. intros E. unfold assign. by rewrite E. Qed.

Lemma prop_get_own (k : string) (v : prim) (o : plain) :
  prop_lookup k (own o) = Some v → prop_get k o = Prim v.
Proof. intros E. unfold prop_get. by rewrite E. Qed.

Lemma prop_get_inherited (k : string) (o : plain) :
  prop_lookup k (own o) = None → inherits o = true → prop_get k o = inherited k.
Proof. intros E Hi. unfold prop_get. by rewrite E, Hi. Qed.

End object_facts.

(** * The date pattern *)

Section pattern_facts.
Import Js Upload Spec.

Lemma is_digit_decimal (c : ascii) :
  is_digit c = bool_decide (Spec.decimal_digit c).
Proof.
  destruct c as [[] [] [] [] [] [] [] []]; vm_compute; reflexivity.
Qed.

Lemma is_digit_spec (c : ascii) : is_digit c = true ↔ Spec.decimal_digit c.
Proof. rewrite is_digit_decimal. apply bool_decide_eq_true. Qed.

Lemma pattern_here_spec (cs : list ascii) :
  pattern_here cs = true ↔
  ∃ part after, cs = part ++ after ∧
    (year_first_shaped part ∨ slash_triple_shaped part).
Proof.
  split.
  - intros H.
    do 10 (destruct cs as [|? cs]; [by inversion H|]).
    unfold pattern_here in H. cbn [forallb] in H.
    rewrite orb_true_iff, !andb_true_iff, !Ascii.eqb_eq, !is_digit_spec in H.
    destruct H as [H|H]; destruct_and!; subst.
    + eexists _, cs. split; [|left; do 8 eexists; split; [|reflexivity]].
      * reflexivity.
      * repeat first [apply Forall_nil_2 | apply Forall_cons_2; [assumption|]].
    + eexists _, cs. split; [|right; do 8 eexists; split; [|reflexivity]].
      * reflexivity.
      * repeat first [apply Forall_nil_2 | apply Forall_cons_2; [assumption|]].
  - intros (part & after & -> & [H|H]);
      destruct H as (? & ? & ? & ? & ? & ? & ? & ? & Hd & ->);
      repeat match goal with
             | E : Forall _ (_ :: _) |- _ => apply Forall_cons in E as [? E]
             end;
      cbn [app]; unfold pattern_here; cbn [forallb];
      rewrite orb_true_iff, !andb_true_iff, !Ascii.eqb_eq, !is_digit_spec;
      [left|right]; done.
Qed.

Lemma pattern_match_spec (cs : list ascii) :
  pattern_match cs = true ↔
  ∃ before part after, cs = before ++ part ++ after ∧
    (year_first_shaped part ∨ slash_triple_shaped part).
Proof.
  induction cs as [|c cs IH].
  - split; [intros H; by inversion H|].
    intros (before & part & after & E & [H|H]);
      destruct H as (? & ? & ? & ? & ? & ? & ? & ? & _ & ->);
      destruct before; discriminate.
  - cbn [pattern_match]. rewrite orb_true_iff, pattern_here_spec, IH. split.
    + intros [(part & after & E & H)|(before & part & after & E & H)].
      * exists [], part, after. done.
      * exists (c :: before), part, after. rewrite E. done.
    + intros ([|b before] & part & after & E & H).
      * left. exists part, after. done.
      * right. exists before, part, after. by inversion E.
Qed.

Lemma matches_date_pattern_spec (s : string) :
  matches_date_pattern s = true ↔ matches_strict_pattern s.
Proof. apply pattern_match_spec. Qed.

End pattern_facts.

(** * Counting *)

Section count_facts.
Import Spec.

Context {A : Type} (P : A → Prop).

Lemma count_is_unique (l : list A) (n m : nat) :
  count_is P l n → count_is P l m → n = m.
Proof.
  intros Hn. revert m.
  induction Hn as [|x l n Hx _ IH|x l n Hx _ IH]; intros m Hm;
    inversion Hm; subst; try done; by f_equal; apply IH.
Qed.

(** A decision procedure counts. *)
Lemma count_is_filter (decide : A → bool) (l : list A) :
  (∀ x, decide x = true ↔ P x) →
  count_is P l (length (List.filter decide l)).
Proof.
  intros Hd. induction l as [|x l IH]; [constructor|].
  cbn [List.filter]. destruct (decide x) eqn:E.
  - cbn [length]. constructor; [by apply Hd|exact IH].
  - constructor; [|exact IH]. rewrite <- Hd, E. discriminate.
Qed.

Lemma count_is_bound (l : list A) (n : nat) : count_is P l n → (n ≤ length l)%nat.
Proof. induction 1; cbn [length]; lia. Qed.

End count_facts.

(** * Column type inference and ingestion *)

Section upload_facts.
Import Js Upload Spec.

Variable Date_parse : string → number.

Local Abbreviation classify := (Upload.classify Date_parse).
Local Abbreviation analyzeColumnType := (Upload.analyzeColumnType Date_parse).
Local Abbreviation date_evidence := (Spec.date_evidence Date_parse).
Local Abbreviation number_evidence := (Spec.number_evidence Date_parse).

Local Abbreviation finds e := (λ v : value, bool_decide (classify v = Some e)).

Lemma classify_date (v : value) :
  classify v = Some DateEvidence ↔ date_evidence v.
Proof.
  unfold Spec.date_evidence. split.
  - destruct v as [[| | |n|s]| |]; cbn; try discriminate.
    + destruct (isNaN n); discriminate.
    + destruct (String.eqb_spec s "") as [->|Hs]; [discriminate|].
      destruct (isNaN (Date_parse s)) eqn:Ed, (matches_date_pattern s) eqn:Em;
        cbn [negb andb]; try (destruct (negb _); discriminate).
      intros _. exists s. by rewrite <- matches_date_pattern_spec.
  - intros (s & -> & Hm & Hd). cbn.
    apply matches_date_pattern_spec in Hm.
    destruct (String.eqb_spec s "") as [->|Hs]; [by inversion Hm|].
    by rewrite Hd, Hm.
Qed.

Lemma classify_number (v : value) :
  classify v = Some NumberEvidence ↔ number_evidence v.
Proof.
  unfold Spec.number_evidence. setoid_rewrite <- classify_date. split.
  - destruct v as [[| | |n|s]| |]; cbn; try discriminate.
    + destruct (isNaN n) eqn:E; [discriminate|]. intros _. left. by exists n.
    + destruct (String.eqb_spec s "") as [->|Hs]; [discriminate|].
      destruct (negb (isNaN (Date_parse s)) && matches_date_pattern s);
        [discriminate|].
      destruct (isNaN (parse_float _)) eqn:E; [discriminate|].
      intros _. right. exists s. split; [reflexivity|]. split; [|exact E].
      cbn. destruct (String.eqb_spec s ""); [done|]. discriminate.
  - intros [(n & -> & Hn)|(s & -> & Hd & Hp)]; cbn.
    + by rewrite Hn.
    + cbn in Hd.
      destruct (String.eqb_spec s "") as [E|Hs]; [subst s; by vm_compute in Hp|].
      destruct (negb (isNaN (Date_parse s)) && matches_date_pattern s);
        [done|]. by rewrite Hp.
Qed.

Lemma count_step_counts (l : list value) (n d : nat) :
  fold_left (count_step Date_parse) l (n, d) =
  (n + length (List.filter (finds NumberEvidence) l),
   d + length (List.filter (finds DateEvidence) l)).
Proof.
  revert n d. induction l as [|v l IH]; intros n d.
  - cbn. f_equal; lia.
  - cbn [fold_left List.filter]. unfold count_step at 2.
    destruct (classify v) as [[]|] eqn:E; rewrite IH;
      repeat case_bool_decide; try congruence; cbn [length]; f_equal; lia.
Qed.

Lemma analyzeColumnType_counts (values : list value) :
  analyzeColumnType values =
  let n := length (List.filter (finds NumberEvidence) (take 10 values)) in
  let d := length (List.filter (finds DateEvidence) (take 10 values)) in
  if Nat.ltb d n && Nat.ltb 0 n then "number"
  else if Nat.ltb 0 d then "date"
  else "string".
Proof.
  unfold Upload.analyzeColumnType.
  destruct values as [|v values]; [reflexivity|].
  cbn [length Nat.eqb]. rewrite count_step_counts. reflexivity.
Qed.

Lemma finds_number (values : list value) :
  count_is number_evidence values (length (List.filter (finds NumberEvidence) values)).
Proof.
  apply count_is_filter. intros v.
  rewrite bool_decide_eq_true. apply classify_number.
Qed.

Lemma finds_date (values : list value) :
  count_is date_evidence values (length (List.filter (finds DateEvidence) values)).
Proof.
  apply count_is_filter. intros v.
  rewrite bool_decide_eq_true. apply classify_date.
Qed.

(** C3: with [n] values of number evidence and [d] values of date
    evidence among the first ten, the inferencer answers [number]
    exactly when [n] is strictly greater than [d] and greater than
    zero; otherwise [date] exactly when [d] is greater than zero;
    otherwise [string]; and [string] for no values.  There always are
    such counts. *)
Theorem analyzeColumnType_decision (values : list value) (n d : nat) :
  count_is number_evidence (take 10 values) n →
  count_is date_evidence (take 10 values) d →
  (analyzeColumnType values = "number" ↔ n > d ∧ n > 0) ∧
  (analyzeColumnType values = "date" ↔ ¬ (n > d ∧ n > 0) ∧ d > 0) ∧
  (analyzeColumnType values = "string" ↔ ¬ (n > d ∧ n > 0) ∧ ¬ d > 0) ∧
  analyzeColumnType [] = "string" ∧
  (∀ values', ∃ n' d', count_is number_evidence (take 10 values') n' ∧
                       count_is date_evidence (take 10 values') d').
Proof.
  intros Hn Hd.
  rewrite (count_is_unique _ _ _ _ Hn (finds_number _)).
  rewrite (count_is_unique _ _ _ _ Hd (finds_date _)).
  rewrite analyzeColumnType_counts. cbv zeta.
  generalize (length (List.filter (finds NumberEvidence) (take 10 values))) as n0.
  generalize (length (List.filter (finds DateEvidence) (take 10 values))) as d0.
  intros d0 n0.
  split; [|split; [|split; [|split]]].
  5: { intros values'. eexists _, _. split; [apply finds_number|apply finds_date]. }
  4: reflexivity.
  all: destruct (Nat.ltb_spec d0 n0), (Nat.ltb_spec 0 n0), (Nat.ltb_spec 0 d0);
    cbn [andb]; split; intros; try discriminate; try reflexivity;
    try lia; exfalso; intuition (try discriminate; lia).
Qed.

(** C4: a text value is date-evidence exactly when it matches the strict
    pattern (a four-digit-year-first or a slash-separated shape) and
    parses to a valid date; a text value that is not date-evidence is
    number-evidence exactly when it parses as a floating-point number. *)
Theorem text_evidence (s : string) :
  (classify (Str s) = Some DateEvidence ↔
     matches_strict_pattern s ∧ isNaN (Date_parse s) = false) ∧
  (classify (Str s) ≠ Some DateEvidence →
     (classify (Str s) = Some NumberEvidence ↔ isNaN (parseFloat (Str s)) = false)).
Proof.
  rewrite <- matches_date_pattern_spec. unfold Upload.classify.
  destruct (String.eqb_spec s "") as [->|Hs].
  - split; [split; [done|intros [H _]; by inversion H]|].
    intros _. split; [done|intros H; by inversion H].
  - destruct (isNaN (Date_parse s)), (matches_date_pattern s),
      (isNaN (parseFloat (Str s))); cbn [negb andb];
      intuition (try discriminate; try congruence).
Qed.

Lemma classify_blank_to_null (v : value) :
  classify (blank_to_null v) = classify v.
Proof.
  destruct v as [[| | |n|s]| |]; try reflexivity.
  unfold blank_to_null. destruct (String.eqb_spec s "") as [->|]; reflexivity.
Qed.

Lemma finds_blank_to_null (e : evidence) (values : list value) :
  length (List.filter (finds e) (take 10 (map blank_to_null values))) =
  length (List.filter (finds e) (take 10 values)).
Proof.
  change (map blank_to_null values) with (blank_to_null <$> values).
  rewrite <- fmap_take. generalize (take 10 values) as l.
  induction l as [|v l IH]; [reflexivity|].
  rewrite fmap_cons. cbn [List.filter].
  rewrite classify_blank_to_null.
  case_bool_decide; cbn [length]; rewrite IH; reflexivity.
Qed.

Lemma finds_blank (e : evidence) (values : list value) :
  Forall (λ v, v = Prim (Str "")) values →
  length (List.filter (finds e) values) = 0%nat.
Proof.
  induction values as [|v l IH]; [reflexivity|].
  intros [-> H]%Forall_cons. cbn [List.filter].
  case_bool_decide as E; [destruct e; discriminate E|]. auto.
Qed.

(** C10: an empty string is skipped as evidence, exactly as [null] and
    [undefined] are, but it still takes one of the ten examined places
    (and, unlike them, it is not removed from a column before the
    inference); so a column whose first ten values are all empty
    strings is a [string] column. *)
Theorem empty_strings_are_skipped (values : list value) :
  classify (Str "") = None ∧ classify Null = None ∧ classify Undefined = None ∧
  analyzeColumnType (map blank_to_null values) = analyzeColumnType values ∧
  analyzeColumnType (take 10 values) = analyzeColumnType values ∧
  (Forall (λ v, v = Prim (Str "")) (take 10 values) →
   analyzeColumnType values = "string") ∧
  analyzeColumnType (replicate 10 (Prim (Str "")) ++ values) = "string" ∧
  not_nullish (Str "") = true ∧ not_nullish Null = false ∧
  not_nullish Undefined = false.
Proof.
  repeat split.
  - rewrite !analyzeColumnType_counts. cbv zeta.
    by rewrite !finds_blank_to_null.
  - rewrite !analyzeColumnType_counts. cbv zeta.
    by rewrite take_take, Nat.min_id.
  - intros H. rewrite analyzeColumnType_counts. cbv zeta.
    by rewrite !finds_blank.
Qed.

End upload_facts.

(** * Rows *)

Section row_facts.
Import Js Upload Spec.

Lemma fold_set_lookup (key : string) (pairs obj : props) :
  prop_lookup key (fold_left set_pair pairs obj) =
  match as_mapping pairs key with
  | Some v => Some v
  | None => prop_lookup key obj
  end.
Proof.
  unfold as_mapping. revert obj.
  induction pairs as [|[k v] pairs IH]; intros obj; [reflexivity|].
  cbn [fold_left rev]. rewrite IH, prop_lookup_app.
  destruct (prop_lookup key (rev pairs)); [reflexivity|].
  unfold set_pair. cbn. rewrite prop_lookup_set.
  destruct (String.eqb key k); reflexivity.
Qed.

Lemma fold_set_fresh (pairs obj : props) :
  NoDup (map fst (obj ++ pairs)) → fold_left set_pair pairs obj = obj ++ pairs.
Proof.
  revert obj. induction pairs as [|[k v] pairs IH]; intros obj Hnd.
  - by rewrite app_nil_r.
  - cbn [fold_left]. unfold set_pair at 2. cbn [fst snd].
    rewrite prop_set_fresh.
    + rewrite IH; rewrite <- app_assoc; [reflexivity|exact Hnd].
    + rewrite map_app in Hnd. apply NoDup_app in Hnd as (_ & Hd & _).
      intros Hin. apply (Hd k Hin). cbn. left.
Qed.

(** The pairs of header name and cell that the loop over the headers
    assigns, in its order. *)
Lemma zip_row_imap (headers row : list prim) :
  zip_row headers row =
  imap (λ index header, (ToString (Prim header), cell row index)) headers.
Proof.
  unfold zip_row. apply list_eq. intros i.
  rewrite list_lookup_imap, lookup_zip_with, list_lookup_fmap.
  destruct (headers !! i) as [h|] eqn:Hh; cbn; [|reflexivity].
  apply lookup_lt_Some in Hh as Hi.
  rewrite lookup_take_lt by done. unfold cell.
  destruct (decide (i < length row)) as [Hlt|Hge].
  - rewrite lookup_app_l by (by rewrite length_map).
    rewrite list_lookup_fmap.
    destruct (lookup_lt_is_Some_2 row i Hlt) as [v ->]. cbn.
    by destruct v.
  - rewrite lookup_app_r by (rewrite length_map; lia).
    rewrite (lookup_ge_None_2 row i) by lia.
    rewrite lookup_replicate_2 by (rewrite length_map; lia). reflexivity.
Qed.

Lemma length_zip_row (headers row : list prim) :
  length (zip_row headers row) = length headers.
Proof. by rewrite zip_row_imap, length_imap. Qed.

Lemma zip_row_keys (headers row : list prim) :
  map fst (zip_row headers row) = map (λ header, ToString (Prim header)) headers.
Proof.
  rewrite zip_row_imap. apply list_eq. intros i.
  rewrite !list_lookup_fmap, list_lookup_imap.
  by destruct (headers !! i).
Qed.

(** The loop over the headers, as a loop over the pairs. *)
Lemma row_object_assign (headers row : list prim) :
  row_object headers row =
  fold_left (λ obj kv, assign kv.1 kv.2 obj) (zip_row headers row) empty_object.
Proof.
  rewrite zip_row_imap. unfold row_object.
  generalize empty_object as obj.
  assert (∀ (hs : list prim) (f : nat → nat) obj,
    fold_left (λ obj '(index, header),
                 assign (ToString (Prim header)) (cell row index) obj)
              (imap (λ index header, (f index, header)) hs) obj =
    fold_left (λ obj kv, assign kv.1 kv.2 obj)
      (imap (λ index header, (ToString (Prim header), cell row (f index))) hs) obj)
    as Hfold.
  { induction hs as [|h hs IH]; intros f obj; [reflexivity|].
    cbn [imap fold_left fst snd]. apply (IH (f ∘ S)). }
  intros obj. apply (Hfold headers id).
Qed.

(** Without the name [__proto__] every assignment sets an own
    property. *)
Lemma fold_assign_own (pairs : props) (obj : plain) :
  Forall (λ kv, kv.1 ≠ "__proto__") pairs →
  fold_left (λ obj kv, assign kv.1 kv.2 obj) pairs obj =
  {| own := fold_left set_pair pairs (own obj); inherits := inherits obj |}.
Proof.
  revert obj. induction pairs as [|[k v] pairs IH]; intros obj Hk.
  - by destruct obj.
  - apply Forall_cons in Hk as [Hk Hks]. cbn [fold_left fst snd].
    rewrite IH by done. rewrite assign_own by done. reflexivity.
Qed.

Lemma row_object_zip (headers row : list prim) :
  Forall (λ header, ToString (Prim header) ≠ "__proto__") headers →
  row_object headers row =
  ordinary (fold_left set_pair (zip_row headers row) []).
Proof.
  intros Hk. rewrite row_object_assign, fold_assign_own; [reflexivity|].
  rewrite zip_row_imap. apply Forall_forall. intros [k v] Hin.
  apply list_elem_of_lookup in Hin as [i Hi].
  rewrite list_lookup_imap in Hi.
  destruct (headers !! i) as [h|] eqn:Hh; [|discriminate].
  injection Hi as <- _. cbn.
  by apply (Forall_lookup_1 _ _ _ _ Hk Hh).
Qed.

End row_facts.

Section ingestion.
Import Js Upload Spec.

Variable Date_parse : string → number.

Local Abbreviation processExcelFile := (Upload.processExcelFile Date_parse).

(** X22: for a sheet with a non-empty header row in which no header is
    named [__proto__], every data row becomes an object that inherits
    from [Object.prototype] and whose own properties are the header
    names zipped with the cells by position (missing and undefined
    cells read as [null], cells beyond the headers dropped; of two
    headers of one name the later one counts), and [rowCount] is the
    number of data rows, the header row not counted. *)
Theorem rows_zip_headers (header : prim) (headers : list prim)
    (rows : list (list prim)) (sheets : list (list (list prim))) :
  let hs := header :: headers in
  Forall (λ h, ToString (Prim h) ≠ "__proto__") hs →
  ∃ r, processExcelFile (Ok ((hs :: rows) :: sheets)) = Ok r ∧
       rowCount r = length rows ∧
       Forall2 (λ row obj,
                  inherits obj = true ∧
                  (∀ key, prop_lookup key (own obj) = as_mapping (zip_row hs row) key) ∧
                  length (zip_row hs row) = length hs ∧
                  (NoDup (map (λ h, ToString (Prim h)) hs) →
                   own obj = zip_row hs row))
               rows (Upload.data r).
Proof.
  cbv zeta. intros Hk. eexists. split; [reflexivity|]. split; [reflexivity|].
  cbn [Upload.data]. apply Forall2_fmap_r, Forall_Forall2_diag, Forall_forall.
  intros row _. unfold compose. rewrite row_object_zip by done.
  cbn [own inherits ordinary]. split; [reflexivity|]. split; [|split].
  - intros key. rewrite fold_set_lookup. by destruct (as_mapping _ _).
  - apply length_zip_row.
  - intros Hnd. rewrite fold_set_fresh; [reflexivity|].
    cbn [app]. by rewrite zip_row_keys.
Qed.

End ingestion.

(** * Running computations on the heap *)

Section heap_facts.
Import Js.

Lemma bind_run {A B} (m : M A) (f : A → M B) (h h' : heap) (a : A) :
  m h = (Ok a, h') → (m ≫= f) h = f a h'.
Proof. intros E. unfold mbind, M_bind. by rewrite E. Qed.

Lemma bind_throw {A B} (m : M A) (f : A → M B) (h h' : heap) (e : js_error) :
  m h = (Throw e, h') → (m ≫= f) h = (Throw e, h').
Proof. intros E. unfold mbind, M_bind. by rewrite E. Qed.

Lemma load_run (h : heap) (l : nat) (o : object) :
  h !! l = Some o → load l h = (Ok o, h).
Proof. intros E. unfold load. by rewrite E. Qed.

Lemma elements_run (c : call) (h : heap) (l : nat) (vs : list value) :
  h !! l = Some (Arr vs) → elements c (Ref l) h = (Ok vs, h).
Proof. intros E. unfold elements. by rewrite (bind_run _ _ _ _ _ (load_run _ _ _ E)). Qed.

Lemma contents_run (h : heap) (l : nat) (vs : list value) :
  h !! l = Some (Arr vs) → contents l h = (Ok vs, h).
Proof. intros E. unfold contents. by rewrite (bind_run _ _ _ _ _ (load_run _ _ _ E)). Qed.

Lemma get_length_run (h : heap) (l : nat) (vs : list value) :
  h !! l = Some (Arr vs) →
  get_length (Ref l) h = (Ok (Prim (Num (of_nat (length vs)))), h).
Proof.
  intros E. unfold get_length, get_prop.
  by rewrite (bind_run _ _ _ _ _ (load_run _ _ _ E)).
Qed.

Lemma index_run (h : heap) (l i : nat) (vs : list value) :
  h !! l = Some (Arr vs) →
  index l i h = (Ok (default (Prim Undefined) (vs !! i)), h).
Proof. intros E. unfold index. by rewrite (bind_run _ _ _ _ _ (load_run _ _ _ E)). Qed.

Lemma Array_filter_run (name : string) (p : value → bool) (h : heap) (l : nat)
    (vs : list value) :
  h !! l = Some (Arr vs) →
  Array_filter name p (Ref l) h = (Ok (length h), h ++ [Arr (List.filter p vs)]).
Proof. intros E. unfold Array_filter. by rewrite (bind_run _ _ _ _ _ (elements_run _ _ _ _ E)). Qed.

Lemma Array_slice_run (name : string) (h : heap) (l start stop : nat)
    (vs : list value) :
  h !! l = Some (Arr vs) →
  Array_slice name (Ref l) start stop h =
  (Ok (length h), h ++ [Arr (take (stop - start) (drop start vs))]).
Proof. intros E. unfold Array_slice. by rewrite (bind_run _ _ _ _ _ (elements_run _ _ _ _ E)). Qed.

Lemma Array_reduce_run {S} (name : string) (f : S → value → S) (init : S) (h : heap)
    (l : nat) (vs : list value) :
  h !! l = Some (Arr vs) →
  Array_reduce name f init (Ref l) h = (Ok (fold_left f vs init), h).
Proof. intros E. unfold Array_reduce. by rewrite (bind_run _ _ _ _ _ (elements_run _ _ _ _ E)). Qed.

Lemma Array_scan_run {S} (name : string) (f : S → value → S) (init : S) (h : heap)
    (l : nat) (vs : list value) :
  h !! l = Some (Arr vs) →
  Array_scan name f init (Ref l) h = (Ok (fold_left f vs init), h).
Proof. intros E. unfold Array_scan. by rewrite (bind_run _ _ _ _ _ (elements_run _ _ _ _ E)). Qed.

Lemma Array_sort_run (name : string) (compareFn : value → value → number) (h : heap)
    (l : nat) (vs : list value) :
  h !! l = Some (Arr vs) →
  Array_sort name compareFn l h =
  (Ok l, <[l := Arr (merge_sort (sorts_before compareFn) vs)]> h).
Proof. intros E. unfold Array_sort. by rewrite (bind_run _ _ _ _ _ (elements_run _ _ _ _ E)). Qed.

(** A callback that does not use the heap. *)
Lemma mapM_pure {A B} (f : A → B) (xs : list A) (h : heap) :
  mapM (λ x, mret (f x)) xs h = (Ok (map f xs), h).
Proof.
  induction xs as [|x xs IH]; [reflexivity|].
  cbn [mapM map]. change ((mret (f x) : M B) h) with (Ok (f x), h).
  unfold mbind at 1, M_bind at 1. cbn.
  by rewrite (bind_run _ _ _ _ _ IH).
Qed.

Lemma Array_map_pure {B} (name : string) (f : value → B) (into : B → value)
    (h : heap) (l : nat) (vs : list value) :
  h !! l = Some (Arr vs) →
  Array_map name (λ v, mret (f v)) into (Ref l) h =
  (Ok (length h, map f vs), h ++ [Arr (map into (map f vs))]).
Proof.
  intros E. unfold Array_map.
  rewrite (bind_run _ _ _ _ _ (elements_run _ _ _ _ E)).
  by rewrite (bind_run _ _ _ _ _ (mapM_pure _ _ _)).
Qed.

Lemma get_prop_row (h : heap) (l : nat) (row : plain) (k : string) :
  h !! l = Some (Obj row) →
  get_prop (Ref l) k h = (Ok (prop_get k row), h).
Proof. intros E. unfold get_prop. by rewrite (bind_run _ _ _ _ _ (load_run _ _ _ E)). Qed.

Lemma lookup_last_alloc (h : heap) (o : object) : (h ++ [o]) !! length h = Some o.
Proof. by apply list_lookup_middle. Qed.

Lemma insert_last_alloc (h : heap) (o o' : object) :
  <[length h := o']> (h ++ [o]) = h ++ [o'].
Proof. rewrite insert_app_r_alt by lia. by rewrite Nat.sub_diag. Qed.

Lemma lookup_second_alloc (h : heap) (o o' : object) :
  (h ++ [o; o']) !! length (h ++ [o]) = Some o'.
Proof. change (h ++ [o; o']) with (h ++ [o] ++ [o']). by rewrite app_assoc, list_lookup_middle. Qed.

(** Reading never changes the heap. *)
Lemma load_heap (l : nat) (h : heap) : (load l h).2 = h.
Proof. unfold load. by destruct (h !! l). Qed.

Lemma elements_heap (c : call) (v : value) (h : heap) : (elements c v h).2 = h.
Proof.
  destruct v as [[]|l|b]; try reflexivity. unfold elements, mbind, M_bind, load.
  destruct (h !! l) as [[]|]; reflexivity.
Qed.

Lemma contents_heap (l : nat) (h : heap) : (contents l h).2 = h.
Proof.
  unfold contents, mbind, M_bind, load.
  destruct (h !! l) as [[]|]; reflexivity.
Qed.

Lemma get_prop_heap (v : value) (k : string) (h : heap) : (get_prop v k h).2 = h.
Proof.
  destruct v as [[]|l|[]]; try reflexivity.
  - unfold get_prop. destruct (array_index k); [reflexivity|].
    destruct (String.eqb k "length"); reflexivity.
  - unfold get_prop, mbind, M_bind, load.
    destruct (h !! l) as [[]|]; try reflexivity.
    destruct (array_index k); [reflexivity|].
    destruct (String.eqb k "length"); reflexivity.
  - unfold get_prop. destruct (String.eqb k "name"); [reflexivity|].
    destruct (String.eqb k "length"); reflexivity.
Qed.

Lemma get_length_heap (v : value) (h : heap) : (get_length v h).2 = h.
Proof. apply get_prop_heap. Qed.

Lemma index_heap (l i : nat) (h : heap) : (index l i h).2 = h.
Proof.
  unfold index, mbind, M_bind, load.
  destruct (h !! l) as [[]|]; reflexivity.
Qed.

Lemma reads_ret {A} (a : A) : reads (mret a).
Proof. by intros h. Qed.

Lemma reads_throw {A} (e : js_error) : reads (@throw A e).
Proof. by intros h. Qed.

Lemma reads_bind {A B} (m : M A) (f : A → M B) :
  reads m → (∀ a, reads (f a)) → reads (m ≫= f).
Proof.
  intros Hm Hf h. unfold mbind, M_bind. specialize (Hm h).
  destruct (m h) as [[a|e] h']; cbn [snd] in Hm; subst h'; [apply Hf|reflexivity].
Qed.

Lemma reads_get_prop (v : value) (k : string) : reads (get_prop v k).
Proof. intros h. apply get_prop_heap. Qed.

Lemma reads_elements (c : call) (v : value) : reads (elements c v).
Proof. intros h. apply elements_heap. Qed.

Lemma reads_contents (l : nat) : reads (contents l).
Proof. intros h. apply contents_heap. Qed.

Lemma reads_get_length (v : value) : reads (get_length v).
Proof. intros h. apply get_length_heap. Qed.

Lemma reads_index (l i : nat) : reads (index l i).
Proof. intros h. apply index_heap. Qed.

Lemma reads_mapM {A B} (f : A → M B) (xs : list A) :
  (∀ x, reads (f x)) → reads (mapM f xs).
Proof.
  intros Hf. induction xs as [|x xs IH]; [apply reads_ret|].
  cbn [mapM]. apply reads_bind; [apply Hf|]. intros y.
  apply reads_bind; [apply IH|]. intros ys. apply reads_ret.
Qed.

(** What a read returns leaves the heap where it was. *)
Lemma reads_run {A} (m : M A) (h h' : heap) (r : result A) :
  reads m → m h = (r, h') → h' = h.
Proof. intros Hm E. specialize (Hm h). by rewrite E in Hm. Qed.

(** A property of the final heap of [m ≫= f], from the two ways [m]
    can end. *)
Lemma bind_heap {A B} (P : heap → Prop) (m : M A) (f : A → M B) (h : heap) :
  (∀ a h', m h = (Ok a, h') → P (f a h').2) →
  (∀ e h', m h = (Throw e, h') → P h') →
  P ((m ≫= f) h).2.
Proof.
  intros Hok Hthrow. unfold mbind, M_bind.
  destruct (m h) as [[a|e] h'] eqn:E; [by apply Hok|by apply (Hthrow e)].
Qed.

Lemma mapM_rows {B} (f : value → M B) (g : plain → B) (h : heap)
    (ls : list nat) (rows : list plain) :
  Forall2 (λ l row, h !! l = Some (Obj row)) ls rows →
  (∀ l row, h !! l = Some (Obj row) → f (Ref l) h = (Ok (g row), h)) →
  mapM f (map Ref ls) h = (Ok (map g rows), h).
Proof.
  intros Hrows Hf. induction Hrows as [|l row ls rows Hl _ IH]; [reflexivity|].
  cbn [map mapM]. rewrite (bind_run _ _ _ _ _ (Hf l row Hl)).
  by rewrite (bind_run _ _ _ _ _ IH).
Qed.

(** ** Computations that only add to the heap *)

Lemma extends_ret {A} (a : A) : extends (mret a).
Proof. by intros h. Qed.

Lemma extends_throw {A} (e : js_error) : extends (@throw A e).
Proof. by intros h. Qed.

Lemma extends_lift {A} (r : result A) : extends (lift r).
Proof. by intros h. Qed.

Lemma extends_reads {A} (m : M A) : reads m → extends m.
Proof. intros Hm h. by rewrite Hm. Qed.

Lemma extends_alloc (o : object) : extends (alloc o).
Proof. intros h. by apply prefix_app_r. Qed.

Lemma extends_bind {A B} (m : M A) (f : A → M B) :
  extends m → (∀ a, extends (f a)) → extends (m ≫= f).
Proof.
  intros Hm Hf h. specialize (Hm h). unfold mbind, M_bind.
  destruct (m h) as [[a|e] h']; cbn [snd] in *; [|done].
  etrans; [exact Hm|apply Hf].
Qed.

Lemma extends_catch {A} (m : M A) (handler : js_error → M A) :
  extends m → (∀ e, extends (handler e)) → extends (catch m handler).
Proof.
  intros Hm Hh h. specialize (Hm h). unfold catch.
  destruct (m h) as [[a|e] h']; cbn [snd] in *; [done|].
  etrans; [exact Hm|apply Hh].
Qed.

Lemma extends_mapM {A B} (f : A → M B) (xs : list A) :
  (∀ x, extends (f x)) → extends (mapM f xs).
Proof.
  intros Hf. induction xs as [|x xs IH]; [apply extends_ret|].
  cbn [mapM]. apply extends_bind; [apply Hf|]. intros y.
  apply extends_bind; [apply IH|]. intros ys. apply extends_ret.
Qed.

Lemma extends_Array_filter (name : string) (p : value → bool) (a : value) :
  extends (Array_filter name p a).
Proof.
  apply extends_bind; [apply extends_reads, reads_elements|].
  intros vs. apply extends_alloc.
Qed.

Lemma extends_Array_slice (name : string) (a : value) (start stop : nat) :
  extends (Array_slice name a start stop).
Proof.
  apply extends_bind; [apply extends_reads, reads_elements|].
  intros vs. apply extends_alloc.
Qed.

Lemma extends_Array_map {B} (name : string) (f : value → M B) (into : B → value)
    (a : value) :
  (∀ v, extends (f v)) → extends (Array_map name f into a).
Proof.
  intros Hf. apply extends_bind; [apply extends_reads, reads_elements|].
  intros vs. apply extends_bind; [by apply extends_mapM|].
  intros ws. apply extends_bind; [apply extends_alloc|].
  intros l. apply extends_ret.
Qed.

Lemma extends_run {A} (m : M A) (h h' : heap) (r : result A) :
  extends m → m h = (r, h') → h `prefix_of` h'.
Proof. intros Hm E. specialize (Hm h). by rewrite E in Hm. Qed.

Lemma prefix_lookup_Some (h h' : heap) (l : nat) (o : object) :
  h `prefix_of` h' → h !! l = Some o → h' !! l = Some o.
Proof. intros [k ->] E. by apply lookup_app_l_Some. Qed.

End heap_facts.

(** * Doubles *)

Section double_facts.
Import Js.

Local Open Scope Q_scope.

Lemma pow2_Qpower (e : Z) : pow2 e == 2 ^ e.
Proof.
  destruct e as [|p|p]; unfold pow2.
  - reflexivity.
  - change 2 with (inject_Z 2). by rewrite <- Zpower_Qpower.
  - change (Z.neg p) with (- Z.pos p)%Z. rewrite Qpower_opp.
    change 2 with (inject_Z 2). rewrite <- Zpower_Qpower by done.
    rewrite <- Pos2Z.inj_pow. unfold Qinv, inject_Z, Qeq. cbn. lia.
Qed.

Lemma pow2_pos (e : Z) : 0 < pow2 e.
Proof. rewrite pow2_Qpower. by apply Qpower_0_lt. Qed.

Lemma pow2_plus (a b : Z) : pow2 (a + b) == pow2 a * pow2 b.
Proof. rewrite !pow2_Qpower. by apply Qpower_plus. Qed.

Lemma pow2_le (a b : Z) : (a <= b)%Z → pow2 a <= pow2 b.
Proof. intros H. rewrite !pow2_Qpower. by apply Qpower_le_compat_l. Qed.

Lemma pow2_lt (a b : Z) : (a < b)%Z → pow2 a < pow2 b.
Proof. intros H. rewrite !pow2_Qpower. by apply Qpower_lt_compat_l. Qed.

Lemma pow2_lt_inv (a b : Z) : pow2 a < pow2 b → (a < b)%Z.
Proof.
  rewrite !pow2_Qpower. intros H. by apply (Qpower_lt_compat_l_inv 2).
Qed.

Lemma pow2_nonneg (e : Z) : (0 <= e)%Z → pow2 e = inject_Z (2 ^ e).
Proof. by destruct e. Qed.

Lemma pow2_succ (e : Z) : pow2 (e + 1) == 2 * pow2 e.
Proof. rewrite pow2_plus. change (pow2 1) with 2. ring. Qed.

(** [ilog2 q] is the binary exponent of [q]. *)
Lemma ilog2_spec (q : Q) : 0 < q → pow2 (ilog2 q) <= q ∧ q < pow2 (ilog2 q + 1).
Proof.
  intros Hq. destruct q as [n d].
  assert (0 < n)%Z as Hn by (unfold Qlt in Hq; cbn in Hq; lia).
  unfold ilog2. cbn [Qnum Qden].
  set (a := Z.log2 n). set (b := Z.log2 (Z.pos d)).
  destruct (Z.log2_spec n Hn) as [Ha1 Ha2]. fold a in Ha1, Ha2.
  destruct (Z.log2_spec (Z.pos d) ltac:(lia)) as [Hb1 Hb2]. fold b in Hb1, Hb2.
  assert (0 <= a)%Z as Ha0 by apply Z.log2_nonneg.
  assert (0 <= b)%Z as Hb0 by apply Z.log2_nonneg.
  assert (n # d == inject_Z n / inject_Z (Z.pos d)) as Eq by apply Qmake_Qdiv.
  assert (0 < inject_Z (Z.pos d)) as Hd.
  { change 0 with (inject_Z 0). rewrite <- Zlt_Qlt. lia. }
  assert (pow2 a <= inject_Z n ∧ inject_Z n < pow2 (a + 1)) as [Hna Hna'].
  { rewrite !pow2_nonneg by lia. rewrite <- Zle_Qle, <- Zlt_Qlt.
    replace (a + 1)%Z with (Z.succ a) by lia. done. }
  assert (pow2 b <= inject_Z (Z.pos d) ∧ inject_Z (Z.pos d) < pow2 (b + 1))
    as [Hdb Hdb'].
  { rewrite !pow2_nonneg by lia. rewrite <- Zle_Qle, <- Zlt_Qlt.
    replace (b + 1)%Z with (Z.succ b) by lia. done. }
  pose proof (pow2_pos a) as Pa. pose proof (pow2_pos b) as Pb.
  pose proof (pow2_pos (a - b)) as Pab.
  assert (pow2 a == pow2 (a - b) * pow2 b) as Eab.
  { rewrite <- pow2_plus. by replace (a - b + b)%Z with a by lia. }
  rewrite pow2_succ in Hna', Hdb'.
  assert (n # d < 2 * pow2 (a - b)) as Hup.
  { rewrite Eq. apply Qlt_shift_div_r; [done|]. nra. }
  assert (pow2 (a - b) < 2 * (n # d)) as Hlow.
  { rewrite Eq.
    setoid_replace (2 * (inject_Z n / inject_Z (Z.pos d)))
      with (2 * inject_Z n / inject_Z (Z.pos d)) using relation Qeq by (field; lra).
    apply Qlt_shift_div_l; [done|]. nra. }
  destruct (Qle_bool (pow2 (a - b)) (n # d)) eqn:E.
  - apply Qle_bool_iff in E. split; [done|]. by rewrite pow2_succ.
  - assert (¬ pow2 (a - b) <= n # d) as E'.
    { intros H. apply Qle_bool_iff in H. congruence. }
    apply Qnot_le_lt in E'.
    replace (a - b - 1 + 1)%Z with (a - b)%Z by lia. split; [|done].
    assert (pow2 (a - b) == 2 * pow2 (a - b - 1)) as E2.
    { rewrite <- pow2_succ. by replace (a - b - 1 + 1)%Z with (a - b)%Z by lia. }
    lra.
Qed.

Lemma ilog2_unique (q : Q) (e : Z) :
  pow2 e <= q → q < pow2 (e + 1) → ilog2 q = e.
Proof.
  intros H1 H2.
  assert (0 < q) as Hq by (pose proof (pow2_pos e); lra).
  destruct (ilog2_spec q Hq) as [H3 H4].
  assert (ilog2 q < e + 1)%Z by (apply pow2_lt_inv; lra).
  assert (e < ilog2 q + 1)%Z by (apply pow2_lt_inv; lra).
  lia.
Qed.

Lemma ilog2_proper (q q' : Q) : 0 < q → q == q' → ilog2 q = ilog2 q'.
Proof.
  intros Hq E. destruct (ilog2_spec q Hq) as [H1 H2].
  symmetry. apply ilog2_unique; by rewrite <- E.
Qed.

(** ** Rounding to an integer *)

Lemma round_half_even_bounds (q : Q) :
  (Qfloor q <= round_half_even q <= Qfloor q + 1)%Z.
Proof.
  unfold round_half_even.
  destruct (q - inject_Z (Qfloor q) ?= 1 # 2); [destruct (Z.even _)| |]; lia.
Qed.

Lemma round_half_even_proper (q q' : Q) :
  q == q' → round_half_even q = round_half_even q'.
Proof.
  intros E. unfold round_half_even.
  assert (Qfloor q = Qfloor q') as -> by (by rewrite E).
  assert ((q - inject_Z (Qfloor q') ?= 1 # 2) = (q' - inject_Z (Qfloor q') ?= 1 # 2))
    as -> by (by rewrite E).
  reflexivity.
Qed.

Lemma round_half_even_Z (k : Z) : round_half_even (inject_Z k) = k.
Proof.
  unfold round_half_even. rewrite Qfloor_Z.
  assert ((inject_Z k - inject_Z k ?= 1 # 2) = Lt) as ->; [|reflexivity].
  apply (proj1 (Qlt_alt _ _)). lra.
Qed.

Lemma round_half_even_integer (q : Q) (k : Z) :
  q == inject_Z k → round_half_even q = k.
Proof. intros E. rewrite (round_half_even_proper _ _ E). apply round_half_even_Z. Qed.

Lemma round_half_even_ge (q : Q) (k : Z) :
  inject_Z k <= q → (k <= round_half_even q)%Z.
Proof.
  intros H. pose proof (round_half_even_bounds q).
  apply Qfloor_resp_le in H. rewrite Qfloor_Z in H. lia.
Qed.

Lemma round_half_even_le (q : Q) (k : Z) :
  q <= inject_Z k → (round_half_even q <= k)%Z.
Proof.
  intros H. pose proof (round_half_even_bounds q) as Hb.
  pose proof (Qfloor_le q) as Hf.
  destruct (Z.eq_dec (Qfloor q) k) as [E|E].
  - assert (q == inject_Z k) as Eq by (rewrite <- E in H |- *; lra).
    by rewrite (round_half_even_integer _ _ Eq).
  - assert (Qfloor q <= k)%Z.
    { apply Qfloor_resp_le in H. by rewrite Qfloor_Z in H. }
    lia.
Qed.

Lemma round_half_even_near (q : Q) :
  Qabs (inject_Z (round_half_even q) - q) <= 1 # 2.
Proof.
  unfold round_half_even.
  pose proof (Qfloor_le q) as Hf. pose proof (Qlt_floor q) as Hc.
  rewrite inject_Z_plus in Hc. change (inject_Z 1) with 1 in Hc.
  destruct (q - inject_Z (Qfloor q) ?= 1 # 2) eqn:E.
  - apply (proj2 (Qeq_alt _ _)) in E.
    destruct (Z.even _); [|rewrite inject_Z_plus; change (inject_Z 1) with 1];
      apply Qabs_Qle_condition; lra.
  - apply (proj2 (Qlt_alt _ _)) in E. apply Qabs_Qle_condition. lra.
  - apply (proj2 (Qgt_alt _ _)) in E. rewrite inject_Z_plus. change (inject_Z 1) with 1.
    apply Qabs_Qle_condition. lra.
Qed.

Lemma round_half_even_mono (q q' : Q) :
  q <= q' → (round_half_even q <= round_half_even q')%Z.
Proof.
  intros H.
  pose proof (round_half_even_bounds q) as Hb.
  pose proof (round_half_even_bounds q') as Hb'.
  pose proof (Qfloor_resp_le _ _ H) as Hf.
  destruct (Z.eq_dec (Qfloor q) (Qfloor q')) as [E|E]; [|lia].
  unfold round_half_even. rewrite <- E.
  destruct (q - inject_Z (Qfloor q) ?= 1 # 2) eqn:E1;
    destruct (q' - inject_Z (Qfloor q) ?= 1 # 2) eqn:E2;
    try (destruct (Z.even _)); try lia;
    try apply (proj2 (Qeq_alt _ _)) in E1; try apply (proj2 (Qlt_alt _ _)) in E1;
    try apply (proj2 (Qgt_alt _ _)) in E1;
    try apply (proj2 (Qeq_alt _ _)) in E2; try apply (proj2 (Qlt_alt _ _)) in E2;
    try apply (proj2 (Qgt_alt _ _)) in E2;
    lra.
Qed.

(** ** Rounding to a double *)

Lemma Qeq_bool_false (q : Q) : ¬ q == 0 → Qeq_bool q 0 = false.
Proof.
  intros H. destruct (Qeq_bool q 0) eqn:E; [|reflexivity].
  by apply Qeq_bool_iff in E.
Qed.

Lemma Qsign_neg_true (q : Q) : q < 0 → Qsign_neg q = true.
Proof. intros H. unfold Qsign_neg. destruct (Qlt_le_dec q 0); [done|lra]. Qed.

Lemma Qsign_neg_false (q : Q) : 0 <= q → Qsign_neg q = false.
Proof. intros H. unfold Qsign_neg. destruct (Qlt_le_dec q 0); [lra|done]. Qed.

Lemma Qsign_neg_proper (q q' : Q) : q == q' → Qsign_neg q = Qsign_neg q'.
Proof.
  intros E. unfold Qsign_neg.
  destruct (Qlt_le_dec q 0), (Qlt_le_dec q' 0); try reflexivity; lra.
Qed.

Lemma Qle_bool_proper (a a' b b' : Q) :
  a == a' → b == b' → Qle_bool a b = Qle_bool a' b'.
Proof.
  intros Ea Eb.
  destruct (Qle_bool a b) eqn:E1, (Qle_bool a' b') eqn:E2; try reflexivity.
  - apply Qle_bool_iff in E1. rewrite Ea, Eb in E1.
    apply Qle_bool_iff in E1. congruence.
  - apply Qle_bool_iff in E2. rewrite <- Ea, <- Eb in E2.
    apply Qle_bool_iff in E2. congruence.
Qed.

Lemma round64_proper (q q' : Q) : q == q' → round64 q = round64 q'.
Proof.
  intros E. unfold round64.
  assert (Qeq_bool q 0 = Qeq_bool q' 0) as ->.
  { destruct (Qeq_bool q 0) eqn:E1, (Qeq_bool q' 0) eqn:E2; try reflexivity.
    - apply Qeq_bool_iff in E1. rewrite E in E1. apply Qeq_bool_iff in E1. congruence.
    - apply Qeq_bool_iff in E2. rewrite <- E in E2. apply Qeq_bool_iff in E2. congruence. }
  destruct (Qeq_bool q' 0) eqn:E0; [reflexivity|].
  assert (0 < Qabs q) as Ha.
  { apply Qabs_case; intros; [|]; destruct (Qeq_dec q 0) as [Z|Z];
      try (rewrite E in Z; apply Qeq_bool_iff in Z; congruence); lra. }
  assert (Qabs q == Qabs q') as Eabs by (by rewrite E).
  rewrite (ilog2_proper _ _ Ha Eabs).
  set (p := Z.max (ilog2 (Qabs q') - 52) (-1074)).
  assert (round_half_even (Qabs q / pow2 p) = round_half_even (Qabs q' / pow2 p)) as ->.
  { apply round_half_even_proper. by rewrite Eabs. }
  rewrite (Qsign_neg_proper _ _ E). reflexivity.
Qed.

(** A number that is a multiple of the unit of its binade, and below
    [2^1024], is a double: rounding leaves it as it is. *)
Lemma round64_exact (q : Q) (k : Z) :
  ¬ q == 0 → Qabs q < pow2 1024 →
  Qabs q / pow2 (Z.max (ilog2 (Qabs q) - 52) (-1074)) == inject_Z k →
  round64 q = Fin (Qred q).
Proof.
  intros Hq Hmax Hk. unfold round64. rewrite Qeq_bool_false by done.
  set (p := Z.max (ilog2 (Qabs q) - 52) (-1074)) in *.
  rewrite (round_half_even_integer _ _ Hk).
  pose proof (pow2_pos p) as Pp.
  assert (inject_Z k * pow2 p == Qabs q) as Ek.
  { rewrite <- Hk. field. lra. }
  assert (0 < Qabs q) as Ha.
  { apply Qabs_case; intros; destruct (Qeq_dec q 0); try done; lra. }
  destruct (Z.eqb_spec k 0%Z) as [->|Hk0].
  { change (inject_Z 0) with 0 in Ek. lra. }
  assert (Qle_bool (pow2 1024) (inject_Z k * pow2 p) = false) as ->.
  { destruct (Qle_bool _ _) eqn:E; [|reflexivity].
    apply Qle_bool_iff in E. lra. }
  f_equal. apply Qred_complete.
  unfold Qsign_neg. destruct (Qlt_le_dec q 0).
  - rewrite Ek, Qabs_neg by lra. ring.
  - rewrite Ek, Qabs_pos by lra. reflexivity.
Qed.

Lemma Qred_inject_Z (z : Z) : Qred (inject_Z z) = inject_Z z.
Proof.
  apply Stdlib.QArith.Qcanon.Qred_identity. cbn. apply Z.gcd_1_r.
Qed.

(** The integers up to [2^53] are doubles. *)
Lemma round64_integer (z : Z) :
  (Z.abs z <= 2 ^ 53)%Z → round64 (inject_Z z) = Fin (inject_Z z).
Proof.
  intros Hz. destruct (Z.eq_dec z 0%Z) as [->|Hz0]; [reflexivity|].
  assert (Qabs (inject_Z z) == inject_Z (Z.abs z)) as Eabs.
  { unfold Qabs, inject_Z. reflexivity. }
  assert (1 <= Qabs (inject_Z z)) as H1.
  { rewrite Eabs. change 1 with (inject_Z 1). rewrite <- Zle_Qle. lia. }
  assert (Qabs (inject_Z z) <= pow2 53) as H53.
  { rewrite Eabs. change (pow2 53) with (inject_Z (2 ^ 53)). by rewrite <- Zle_Qle. }
  destruct (ilog2_spec (Qabs (inject_Z z)) ltac:(lra)) as [He1 He2].
  set (e := ilog2 (Qabs (inject_Z z))) in *.
  assert (0 <= e)%Z as He0.
  { assert (0 < e + 1)%Z; [|lia]. apply pow2_lt_inv. change (pow2 0) with 1. lra. }
  assert (e <= 53)%Z as He53.
  { assert (e < 53 + 1)%Z; [|lia]. apply pow2_lt_inv.
    pose proof (pow2_lt 53 (53 + 1) ltac:(lia)). lra. }
  assert (∃ k, Qabs (inject_Z z) / pow2 (Z.max (e - 52) (-1074)) == inject_Z k)
    as [k Hk].
  { replace (Z.max (e - 52) (-1074)) with (e - 52)%Z by lia.
    destruct (Z.eq_dec e 53%Z) as [E53|E53].
    - exists (2 ^ 52)%Z. rewrite E53 in *.
      assert (Qabs (inject_Z z) == pow2 53) as -> by lra. reflexivity.
    - exists (Z.abs z * 2 ^ (52 - e))%Z.
      rewrite Eabs, inject_Z_mult.
      assert (inject_Z (2 ^ (52 - e)) == pow2 (52 - e)) as ->
        by (by rewrite pow2_nonneg by lia).
      pose proof (pow2_pos (e - 52)). pose proof (pow2_pos (52 - e)).
      assert (pow2 (52 - e) * pow2 (e - 52) == 1) as E1.
      { rewrite <- pow2_plus. by replace (52 - e + (e - 52))%Z with 0%Z by lia. }
      apply Qmult_inj_r with (pow2 (e - 52)); [lra|].
      setoid_replace (Qabs (inject_Z z) / pow2 (e - 52) * pow2 (e - 52))
        with (Qabs (inject_Z z)) using relation Qeq by (field; lra).
      rewrite Eabs, <- Qmult_assoc, E1. ring. }
  rewrite (round64_exact _ k); [by rewrite Qred_inject_Z| | |exact Hk].
  - intros E0. rewrite E0 in H1. by vm_compute in H1.
  - pose proof (pow2_lt 53 1024 ltac:(lia)). lra.
Qed.

(** The sign of a rounded number. *)
Lemma round64_pos (q : Q) : pow2 (-1074) <= q → num_pos (round64 q) = true.
Proof.
  intros Hq. pose proof (pow2_pos (-1074)) as P0.
  unfold round64. rewrite Qeq_bool_false by lra.
  rewrite Qsign_neg_false by lra.
  assert (Qabs q == q) as Ea by (apply Qabs_pos; lra).
  set (a := Qabs q) in *.
  destruct (ilog2_spec a ltac:(lra)) as [He1 He2].
  set (e := ilog2 a) in *.
  assert (-1074 <= e)%Z as He.
  { assert (-1074 < e + 1)%Z; [|lia]. apply pow2_lt_inv. lra. }
  set (p := Z.max (e - 52) (-1074)).
  pose proof (pow2_pos p) as Pp.
  assert (1 <= round_half_even (a / pow2 p))%Z as Hm.
  { apply round_half_even_ge. change (inject_Z 1) with 1.
    apply Qle_shift_div_l; [done|]. rewrite Qmult_1_l.
    pose proof (pow2_le p e ltac:(lia)). lra. }
  destruct (Z.eqb_spec (round_half_even (a / pow2 p)) 0%Z); [lia|].
  destruct (Qle_bool _ _); [reflexivity|].
  cbn [num_pos]. destruct (Qlt_le_dec 0 _) as [|Hle]; [reflexivity|].
  rewrite Qred_correct in Hle.
  assert (1 <= inject_Z (round_half_even (a / pow2 p))).
  { change 1 with (inject_Z 1). by rewrite <- Zle_Qle. }
  nra.
Qed.

Lemma round64_nonpos (q : Q) : q <= 0 → num_pos (round64 q) = false.
Proof.
  intros Hq. unfold round64.
  destruct (Qeq_bool q 0) eqn:E0.
  { cbn. by destruct (Qlt_le_dec 0 0). }
  assert (q < 0) as Hneg.
  { destruct (Qeq_dec q 0) as [Z|Z]; [apply Qeq_bool_iff in Z; congruence|lra]. }
  rewrite Qsign_neg_true by done.
  set (p := Z.max (ilog2 (Qabs q) - 52) (-1074)).
  pose proof (pow2_pos p) as Pp.
  assert (0 <= round_half_even (Qabs q / pow2 p))%Z as Hm.
  { apply round_half_even_ge. change (inject_Z 0) with 0.
    apply Qle_shift_div_l; [done|]. rewrite Qabs_neg by lra. lra. }
  destruct (Z.eqb_spec (round_half_even (Qabs q / pow2 p)) 0%Z); [reflexivity|].
  destruct (Qle_bool _ _); [reflexivity|].
  cbn [num_pos]. destruct (Qlt_le_dec 0 _) as [Hlt|]; [|reflexivity].
  rewrite Qred_correct in Hlt.
  assert (0 <= inject_Z (round_half_even (Qabs q / pow2 p))).
  { change 0 with (inject_Z 0). by rewrite <- Zle_Qle. }
  nra.
Qed.

Lemma round64_not_NaN (q : Q) : isNaN (round64 q) = false.
Proof.
  unfold round64. destruct (Qeq_bool q 0); [reflexivity|].
  destruct (_ =? _)%Z; [by destruct (Qsign_neg q)|].
  by destruct (Qle_bool _ _).
Qed.

End double_facts.

(** * Printing and parsing decimal numerals *)

Section numerals.
Import Js.

Local Open Scope N_scope.

Lemma digit_val_char (d : N) : d < 10 → digit_val (digit_char d) = d.
Proof.
  intros Hd. unfold digit_val, digit_char.
  rewrite N_ascii_embedding by lia. lia.
Qed.

Lemma is_digit_char (d : N) : d < 10 → is_digit (digit_char d) = true.
Proof.
  intros Hd. unfold is_digit, digit_char.
  rewrite N_ascii_embedding by lia.
  apply andb_true_iff. split; apply N.leb_le; lia.
Qed.

Lemma digits_val_acc (l : list ascii) (acc : N) :
  fold_left (λ acc c, 10 * acc + digit_val c) l acc =
  acc * 10 ^ N.of_nat (length l) + digits_val l.
Proof.
  unfold digits_val. revert acc. induction l as [|c l IH]; intros acc.
  - cbn. lia.
  - cbn [fold_left length]. rewrite (IH (10 * acc + digit_val c)), (IH (10 * 0 + digit_val c)).
    rewrite Nat2N.inj_succ, N.pow_succ_r'. lia.
Qed.

Lemma digits_val_app (a b : list ascii) :
  digits_val (a ++ b) = digits_val a * 10 ^ N.of_nat (length b) + digits_val b.
Proof.
  unfold digits_val at 1. rewrite fold_left_app.
  change (fold_left _ a 0) with (digits_val a). apply digits_val_acc.
Qed.

Lemma digits_val_cons (c : ascii) (l : list ascii) :
  digits_val (c :: l) = digit_val c * 10 ^ N.of_nat (length l) + digits_val l.
Proof.
  change (c :: l) with ([c] ++ l). rewrite digits_val_app.
  unfold digits_val at 1. cbn [fold_left]. lia.
Qed.

Lemma digits_go_val (fuel : nat) (n : N) (acc : list ascii) :
  n < 2 ^ N.of_nat fuel →
  digits_val (digits_go fuel n acc) = n * 10 ^ N.of_nat (length acc) + digits_val acc.
Proof.
  revert n acc. induction fuel as [|fuel IH]; intros n acc Hn.
  - cbn in Hn. assert (n = 0) as -> by lia. cbn [digits_go]. lia.
  - cbn [digits_go]. rewrite Nat2N.inj_succ, N.pow_succ_r' in Hn.
    pose proof (N.mod_lt n 10 ltac:(lia)) as Hmod.
    pose proof (N.div_mod n 10 ltac:(lia)) as Hdiv.
    destruct (N.eqb_spec (n / 10) 0) as [E|E].
    + rewrite digits_val_cons, digit_val_char by done. nia.
    + rewrite IH by (apply N.Div0.div_lt_upper_bound; lia). cbn [length].
      rewrite digits_val_cons, digit_val_char by done.
      rewrite Nat2N.inj_succ, N.pow_succ_r'. nia.
Qed.

Lemma digits_go_digits (fuel : nat) (n : N) (acc : list ascii) :
  Forall (λ c, is_digit c = true) acc →
  Forall (λ c, is_digit c = true) (digits_go fuel n acc).
Proof.
  revert n acc. induction fuel as [|fuel IH]; intros n acc Hacc; [done|].
  cbn [digits_go].
  assert (Forall (λ c, is_digit c = true) (digit_char (n mod 10) :: acc)).
  { constructor; [|done]. apply is_digit_char, N.mod_lt. lia. }
  destruct (n / 10 =? 0); auto.
Qed.

Lemma digits_go_cons (fuel : nat) (n : N) (acc : list ascii) :
  ∃ c l, digits_go (S fuel) n acc = c :: l.
Proof.
  revert n acc. induction fuel as [|fuel IH]; intros n acc.
  - cbn. destruct (n / 10 =? 0); eauto.
  - change (digits_go (S (S fuel)) n acc) with
      (if n / 10 =? 0 then digit_char (n mod 10) :: acc
       else digits_go (S fuel) (n / 10) (digit_char (n mod 10) :: acc)).
    destruct (n / 10 =? 0); eauto.
Qed.

Lemma digits_val_digits (n : N) : digits_val (digits n) = n.
Proof.
  unfold digits. rewrite digits_go_val.
  - cbn. lia.
  - rewrite Nat2N.inj_succ, N2Nat.id, N.pow_succ_r'.
    pose proof (N.size_gt n). lia.
Qed.

Lemma digits_are_digits (n : N) : Forall (λ c, is_digit c = true) (digits n).
Proof. apply digits_go_digits. constructor. Qed.

Lemma fixed_digits_length (w : nat) (n : N) : length (fixed_digits w n) = w.
Proof.
  revert n. induction w as [|w IH]; intros n; [done|].
  cbn [fixed_digits]. rewrite length_app, IH. cbn. lia.
Qed.

Lemma fixed_digits_digits (w : nat) (n : N) :
  Forall (λ c, is_digit c = true) (fixed_digits w n).
Proof.
  revert n. induction w as [|w IH]; intros n; [constructor|].
  cbn [fixed_digits]. apply Forall_app. split; [apply IH|].
  constructor; [|constructor]. apply is_digit_char, N.mod_lt. lia.
Qed.

Lemma fixed_digits_val (w : nat) (n : N) :
  digits_val (fixed_digits w n) = n mod 10 ^ N.of_nat w.
Proof.
  revert n. induction w as [|w IH]; intros n.
  - cbn. by rewrite N.mod_1_r.
  - cbn [fixed_digits]. rewrite digits_val_app, IH. cbn [length].
    rewrite digits_val_cons, digit_val_char by (apply N.mod_lt; lia).
    cbn [length]. change (digits_val []) with 0.
    rewrite (Nat2N.inj_succ w), N.pow_succ_r', N.Div0.mod_mul_r.
    change (10 ^ N.of_nat 1) with 10. change (10 ^ N.of_nat 0) with 1. lia.
Qed.

Lemma span_digits_app (ds r : list ascii) :
  Forall (λ c, is_digit c = true) ds →
  match r with c :: _ => is_digit c = false | [] => True end →
  span_digits (ds ++ r) = (ds, r).
Proof.
  intros Hds Hr. induction Hds as [|c ds Hc _ IH].
  - destruct r as [|c r]; [done|]. cbn [app span_digits]. by rewrite Hr.
  - cbn [app span_digits]. by rewrite Hc, IH.
Qed.

Lemma digit_head (c : ascii) :
  is_digit c = true →
  is_space c = false ∧ (∀ r, read_sign (c :: r) = (false, c :: r)) ∧
  Ascii.eqb "I" c = false.
Proof.
  destruct c as [[] [] [] [] [] [] [] []]; vm_compute; intros H;
    first [discriminate H | done].
Qed.

Lemma read_unsigned_fixed (neg : bool) (a b : N) (w : nat) :
  read_unsigned neg (digits a ++ "."%char :: fixed_digits (S w) b) =
  Some (decimal neg (a * 10 ^ N.of_nat (S w) + b mod 10 ^ N.of_nat (S w))
                (- Z.of_nat (S w)), []).
Proof.
  pose proof (digits_are_digits a) as Hda.
  pose proof (digits_val_digits a) as Hva.
  destruct (digits_go_cons (N.to_nat (N.size a)) a []) as (c & l & E).
  fold (digits a) in E. rewrite E in Hda, Hva |- *.
  apply Forall_cons in Hda as Hc. destruct Hc as [Hc _].
  destruct (digit_head c Hc) as (_ & _ & HI).
  unfold read_unsigned. cbn [app].
  cbn [list_ascii_of_string starts_with]. rewrite HI. cbn [andb].
  change (c :: l ++ "."%char :: fixed_digits (S w) b)
    with ((c :: l) ++ "."%char :: fixed_digits (S w) b).
  rewrite span_digits_app by done.
  rewrite <- (app_nil_r (fixed_digits (S w) b)) at 1.
  rewrite span_digits_app by (done || apply fixed_digits_digits).
  cbn [no_digits andb length].
  destruct (fixed_digits (S w) b) as [|c' l'] eqn:Ef.
  { pose proof (fixed_digits_length (S w) b) as Hl. by rewrite Ef in Hl. }
  cbn [no_digits andb read_exponent]. rewrite <- Ef.
  rewrite digits_val_app, Hva, fixed_digits_val, fixed_digits_length.
  reflexivity.
Qed.

(** What [parseFloat(x.toFixed(2))] is for a number below [10^21]: the
    number that the printed decimal denotes. *)
Lemma round2_value (x : number) :
  isNaN x = false → (∀ s, x ≠ Infinity s) →
  Qle_bool (pow10 21) (Qabs (exact x)) = false →
  Analysis.round2 x =
  decimal (Qsign_neg (exact x)) (round_scaled 2 (exact x)) (-2).
Proof.
  intros Hnan Hinf Hsmall.
  assert (toFixed x 2 =
    let q := exact x in
    let n := round_scaled 2 q in
    let p := (10 ^ N.of_nat 2)%N in
    let body := digits (n / p) ++ "."%char :: fixed_digits 2 (n mod p) in
    string_of_list_ascii (if Qsign_neg q then "-"%char :: body else body)) as E.
  { destruct x as [|s| |q]; try done; try (by destruct (Hinf s));
      unfold toFixed; rewrite Hsmall; reflexivity. }
  unfold Analysis.round2, parseFloat. rewrite E. cbv zeta.
  rewrite list_ascii_of_string_of_list_ascii.
  set (q := exact x). set (n := round_scaled 2 q).
  assert (n / 10 ^ N.of_nat 2 * 10 ^ N.of_nat 2
          + (n mod 10 ^ N.of_nat 2) mod 10 ^ N.of_nat 2 = n)%N as Hn.
  { rewrite N.Div0.mod_mod. pose proof (N.div_mod n (10 ^ N.of_nat 2)).
    change (10 ^ N.of_nat 2)%N with 100%N in *. lia. }
  unfold parse_float.
  destruct (Qsign_neg q).
  - change (trim_start ("-"%char :: ?x)) with ("-"%char :: x).
    unfold read_number.
    change (read_sign ("-"%char :: ?x)) with (true, x). cbv iota beta.
    rewrite read_unsigned_fixed. rewrite Hn. reflexivity.
  - destruct (digits_go_cons (N.to_nat (N.size (n / 10 ^ N.of_nat 2)))
                (n / 10 ^ N.of_nat 2) []) as (c & l & Ec).
    fold (digits (n / 10 ^ N.of_nat 2)) in Ec.
    pose proof (digits_are_digits (n / 10 ^ N.of_nat 2)) as Hda.
    pose proof (read_unsigned_fixed false (n / 10 ^ N.of_nat 2) (n mod 10 ^ N.of_nat 2) 1) as Hr.
    rewrite Ec in Hda, Hr |- *. apply Forall_cons in Hda as [Hc _].
    destruct (digit_head c Hc) as (Hsp & Hsign & _).
    cbn [app trim_start]. rewrite Hsp. unfold read_number. rewrite Hsign.
    cbn [app] in Hr. rewrite Hr. rewrite Hn. reflexivity.
Qed.

Lemma round_scaled_bounds (q : Q) :
  let F := inject_Z (Z.of_N (round_scaled 2 q)) in
  (F <= Qabs q * 100 + (1 # 2) ∧ Qabs q * 100 + (1 # 2) < F + 1 ∧ 0 <= F)%Q.
Proof.
  cbv zeta. unfold round_scaled.
  change (inject_Z (10 ^ Z.of_nat 2)) with 100%Q.
  set (y := (Qabs q * 100 + (1 # 2))%Q).
  assert (0 <= y)%Q as Hy.
  { unfold y. pose proof (Qabs_nonneg q). lra. }
  assert (0 <= Qfloor y)%Z as Hf.
  { change 0%Z with (Qfloor 0). by apply Qfloor_resp_le. }
  rewrite Z2N.id by done.
  pose proof (Qfloor_le y) as Hle. pose proof (Qlt_floor y) as Hlt.
  rewrite inject_Z_plus in Hlt. change (inject_Z 1) with 1%Q in Hlt.
  repeat split; try done.
  change 0%Q with (inject_Z 0). by rewrite <- Zle_Qle.
Qed.

(** The integer that [toFixed(2)] prints, with the sign of the number,
    is the number rounded to two decimals, half away from zero. *)
Lemma round_scaled_two_decimals (q : Q) :
  Spec.two_decimals q
    (if Qsign_neg q then - Z.of_N (round_scaled 2 q) else Z.of_N (round_scaled 2 q)).
Proof.
  unfold Spec.two_decimals.
  destruct (round_scaled_bounds q) as (Hle & Hlt & H0). cbv zeta in *.
  set (n := Z.of_N (round_scaled 2 q)) in *.
  assert (∀ z : Z, (z # 100 == inject_Z z * (1 # 100))%Q) as Hmake.
  { intros z. rewrite Qmake_Qdiv. reflexivity. }
  unfold Qsign_neg. destruct (Qlt_le_dec q 0) as [Hq|Hq].
  - rewrite Hmake, inject_Z_opp.
    rewrite (Qabs_neg q) in * by lra.
    setoid_replace (- inject_Z n * (1 # 100) - q)%Q
      with (- (inject_Z n * (1 # 100) - - q))%Q using relation Qeq by ring.
    rewrite Qabs_opp.
    setoid_replace (- inject_Z n * (1 # 100))%Q with (- (inject_Z n * (1 # 100)))%Q
      using relation Qeq by ring.
    rewrite Qabs_opp, (Qabs_pos (inject_Z n * (1 # 100))) by lra.
    split.
    + apply Qabs_Qle_condition. lra.
    + apply Qabs_case; intros; lra.
  - rewrite Hmake.
    rewrite (Qabs_pos q) in * by lra.
    rewrite (Qabs_pos (inject_Z n * (1 # 100))) by lra.
    split.
    + apply Qabs_Qle_condition. lra.
    + apply Qabs_case; intros; lra.
Qed.

(** [parseFloat(x.toFixed(2))] rounds to two decimals, half away from
    zero. *)
Lemma round2_rounds (x : number) : Spec.rounds_half_away x (Analysis.round2 x).
Proof.
  assert (∀ x, isNaN x = false → (∀ s, x ≠ Infinity s) →
               Spec.rounds_half_away x (Analysis.round2 x)) as Hfin.
  { clear x. intros x Hnan Hinf.
    assert (match x with NaN | Infinity _ => False | _ => True end) as Hx
      by (destruct x as [|s| |]; try done; by destruct (Hinf s)).
    assert (((Qabs (exact x) < pow10 21)%Q →
       ∃ n : Z, Spec.two_decimals (exact x) n ∧
                Analysis.round2 x = if (n =? 0)%Z then zero (Qsign_neg (exact x))
                                    else round64 (n # 100)) ∧
      ((pow10 21 <= Qabs (exact x))%Q →
       Analysis.round2 x = parse_float (list_ascii_of_string (number_to_string x))))
      as H; [|by destruct x].
    split.
    - intros Hsmall.
      assert (Qle_bool (pow10 21) (Qabs (exact x)) = false) as Hb.
      { destruct (Qle_bool _ _) eqn:E; [|reflexivity].
        apply Qle_bool_iff in E. lra. }
      rewrite (round2_value x Hnan Hinf Hb).
      eexists. split; [apply round_scaled_two_decimals|].
      unfold decimal. set (n := round_scaled 2 (exact x)).
      destruct (N.eqb_spec n 0) as [->|Hn].
      + by destruct (Qsign_neg _).
      + destruct (Qsign_neg (exact x)).
        * destruct (Z.eqb_spec (- Z.of_N n) 0); [lia|]. reflexivity.
        * destruct (Z.eqb_spec (Z.of_N n) 0); [lia|]. reflexivity.
    - intros Hbig. apply Qle_bool_iff in Hbig.
      unfold Analysis.round2, parseFloat.
      assert (toFixed x 2 = number_to_string x) as ->; [|reflexivity].
      destruct x as [|s| |q]; try done; unfold toFixed; by rewrite Hbig. }
  destruct x as [|s| |q].
  - reflexivity.
  - by destruct s.
  - by apply Hfin.
  - by apply Hfin.
Qed.

End numerals.

(** * The statistics calculator *)

Section statistics_facts.
Import Js Analysis Spec.

Variable Math_pow : number → number → number.
Variable Math_sqrt : number → number.

Local Abbreviation calculateStatistics :=
  (Analysis.calculateStatistics Math_pow Math_sqrt).
Local Abbreviation unrounded_statistics :=
  (Analysis.unrounded_statistics Math_pow Math_sqrt).

Lemma strict_eq_length (n : nat) :
  strict_eq (Prim (Num (of_nat n))) (Prim (Num (of_nat 0))) = Nat.eqb n 0.
Proof. destruct n; reflexivity. Qed.

Lemma mode_step_scan (vs : list value) (st : gmap string nat * nat * option value) :
  (st.1.2 ≤ (fold_left mode_step vs st).1.2)%nat ∧
  ((fold_left mode_step vs st).2 = st.2 ∨
   ∃ v, v ∈ vs ∧ (fold_left mode_step vs st).2 = Some v).
Proof.
  revert st. induction vs as [|v vs IH]; intros st; [by split; [|left]|].
  cbn [fold_left]. destruct (IH (mode_step st v)) as [Hle Hmode].
  destruct st as [[frequency maxFreq] mode]. unfold mode_step in Hle, Hmode |- *.
  cbn [fst snd] in *.
  destruct (Nat.ltb_spec maxFreq (default 0 (frequency !! ToString v) + 1));
    cbn [fst snd] in *.
  - split; [lia|]. right. destruct Hmode as [->|(w & Hw & ->)].
    + exists v. split; [left|reflexivity].
    + exists w. split; [by right|reflexivity].
  - split; [lia|]. destruct Hmode as [->|(w & Hw & ->)]; [by left|].
    right. exists w. split; [by right|reflexivity].
Qed.

(** The scan of a non-empty array ends with one of its elements as the
    mode. *)
Lemma mode_scan_member (vs : list value) :
  vs ≠ [] →
  ∃ v, v ∈ vs ∧ (fold_left mode_step vs (∅, 0, None)).2 = Some v.
Proof.
  destruct vs as [|v vs]; [done|]. intros _. cbn [fold_left].
  unfold mode_step at 2. rewrite lookup_empty. cbn [default Nat.add Nat.ltb Nat.leb].
  destruct (mode_step_scan vs (<[ToString v := 1]> ∅, 1, Some v)) as [_ [->|(w & Hw & ->)]].
  - exists v. split; [left|reflexivity].
  - exists w. split; [by right|reflexivity].
Qed.

Lemma is_number_Num (v : value) : is_number v = true → ∃ n, v = Prim (Num n).
Proof. destruct v as [[]| |[]]; try discriminate. eauto. Qed.

Lemma calculateStatistics_empty (h : heap) (d : nat) (vs : list value) :
  h !! d = Some (Arr vs) → List.filter is_number vs = [] →
  ∃ ext, calculateStatistics (Ref d) h = (Ok None, h ++ ext).
Proof.
  intros Hd Hns. unfold Analysis.calculateStatistics. cbn [truthy negb].
  rewrite (bind_run _ _ _ _ _ (get_length_run _ _ _ Hd)), strict_eq_length.
  destruct vs as [|v vs]; [exists []; by rewrite app_nil_r|].
  cbn [length Nat.eqb].
  rewrite (bind_run _ _ _ _ _ (Array_filter_run _ _ _ _ _ Hd)), Hns.
  rewrite (bind_run _ _ _ _ _ (contents_run _ _ _ (lookup_last_alloc _ _))).
  by exists [Arr []].
Qed.

Lemma calculateStatistics_numbers (h : heap) (d : nat) (vs : list value) :
  h !! d = Some (Arr vs) → List.filter is_number vs ≠ [] →
  let sorted := merge_sort (sorts_before compareFn) (List.filter is_number vs) in
  calculateStatistics (Ref d) h =
  (Ok (Some (rounded (unrounded_statistics sorted))),
   h ++ [Arr sorted;
         Arr (map (squared_diff Math_pow (mean (unrounded_statistics sorted))) sorted)]).
Proof.
  intros Hd Hns sorted. unfold Analysis.calculateStatistics. cbn [truthy negb].
  rewrite (bind_run _ _ _ _ _ (get_length_run _ _ _ Hd)), strict_eq_length.
  destruct (Nat.eqb_spec (length vs) 0) as [E|_].
  { apply length_zero_iff_nil in E. subst vs. done. }
  rewrite (bind_run _ _ _ _ _ (Array_filter_run _ _ _ _ _ Hd)).
  set (ns := List.filter is_number vs) in *.
  rewrite (bind_run _ _ _ _ _ (contents_run _ _ _ (lookup_last_alloc _ _))).
  destruct (Nat.eqb_spec (length ns) 0) as [E|_].
  { apply length_zero_iff_nil in E. done. }
  rewrite (bind_run _ _ _ _ _ (Array_sort_run _ _ _ _ _ (lookup_last_alloc _ _))).
  rewrite insert_last_alloc. fold sorted.
  assert (length ns = length sorted) as Hlen
    by (unfold sorted; by rewrite merge_sort_Permutation).
  rewrite Hlen.
  pose proof (lookup_last_alloc h (Arr sorted)) as Hs.
  rewrite (bind_run _ _ _ _ _ (Array_reduce_run _ _ _ _ _ _ Hs)).
  erewrite (bind_run _ _ (h ++ [Arr sorted]) (h ++ [Arr sorted])
              (median (unrounded_statistics sorted))); cycle 1.
  { cbn [Analysis.unrounded_statistics median].
    destruct (Nat.eqb (length sorted mod 2) 0).
    - rewrite (bind_run _ _ _ _ _ (index_run _ _ _ _ Hs)).
      by rewrite (bind_run _ _ _ _ _ (index_run _ _ _ _ Hs)).
    - by rewrite (bind_run _ _ _ _ _ (index_run _ _ _ _ Hs)). }
  rewrite (bind_run _ _ _ _ _ (Array_scan_run _ _ _ _ _ _ Hs)).
  destruct (mode_scan_member sorted) as (v & Hv & Hscan).
  { intros E. apply Hns. apply Permutation_nil_r. rewrite <- E.
    symmetry. apply merge_sort_Permutation. }
  assert (∃ raw_mode, v = Prim (Num raw_mode)) as [raw_mode ->].
  { apply is_number_Num.
    assert (v ∈ ns) as Hin
      by (by rewrite <- (merge_sort_Permutation (sorts_before compareFn) ns)).
    apply list_elem_of_In, filter_In in Hin. tauto. }
  unfold rounded, Analysis.unrounded_statistics.
  cbn [mean median mode range standardDeviation].
  destruct (fold_left mode_step sorted (∅, 0, None)) as [[frequency maxFreq] mode].
  cbn [snd] in Hscan |- *. subst mode.
  rewrite (bind_run _ _ _ _ _ (contents_run _ _ _ Hs)).
  rewrite (bind_run _ _ _ _ _ (index_run _ _ _ _ Hs)).
  rewrite (bind_run _ _ _ _ _ (index_run _ _ _ _ Hs)).
  rewrite (bind_run _ _ _ _ _ (Array_map_pure _ _ _ _ _ _ Hs)).
  rewrite <- app_assoc. cbn [app fst]. rewrite map_id.
  rewrite (bind_run _ _ _ _ _ (Array_reduce_run _ _ _ _ _ _ (lookup_second_alloc _ _ _))).
  reflexivity.
Qed.

(** A call of an array method on anything but an array throws and
    leaves the heap as it is. *)
Lemma elements_fails (c : call) (v : value) (h : heap) :
  (∀ l vs, v = Ref l → h !! l ≠ Some (Arr vs)) →
  ∃ e, elements c v h = (Throw e, h).
Proof.
  intros Hv. destruct v as [[]|l|[]]; try by eexists.
  unfold elements, mbind, M_bind, load.
  destruct (h !! l) as [[vs|o]|] eqn:E; try by eexists.
  by destruct (Hv l vs).
Qed.

(** Whatever the argument, the calculator leaves every object of the
    heap as it was: it only adds objects of its own. *)
Lemma calculateStatistics_frame (data : value) (h : heap) :
  h `prefix_of` (calculateStatistics data h).2.
Proof.
  assert ((∃ l vs, data = Ref l ∧ h !! l = Some (Arr vs)) ∨
          ¬ (∃ l vs, data = Ref l ∧ h !! l = Some (Arr vs)))
    as [(l & vs & -> & Hl)|Hno].
  { destruct data as [p|l|b]; try (right; by intros (? & ? & ? & ?)).
    destruct (h !! l) as [[vs|o]|] eqn:E; [left; eauto| |];
      right; intros (? & ? & [= <-] & ?); congruence. }
  - destruct (decide (List.filter is_number vs = [])) as [E|E].
    + destruct (calculateStatistics_empty h l vs Hl E) as [ext ->]. by exists ext.
    + rewrite (calculateStatistics_numbers h l vs Hl E). by eexists.
  - exists []. rewrite app_nil_r. unfold Analysis.calculateStatistics.
    destruct (truthy data); [|reflexivity]. cbn [negb].
    unfold mbind at 1, M_bind at 1.
    pose proof (get_length_heap data h) as Hlen.
    destruct (get_length data h) as [[len|e] h']; cbn [snd] in Hlen; subst h';
      [|reflexivity].
    destruct (strict_eq len _); [reflexivity|].
    destruct (elements_fails {| receiver := "data"; method := "filter" |} data h)
      as [e He].
    { intros l vs -> Hl. apply Hno. eauto. }
    unfold Array_filter.
    by rewrite (bind_throw _ _ _ _ _ (bind_throw _ _ _ _ _ He)).
Qed.

(** C8: each of the five outputs is its unrounded statistic rounded to
    two decimals, half away from zero, all five by the same rule: the
    output is the double nearest to the rounded decimal.  (A
    statistic from [10^21] on is a whole number, which is printed and
    read again.) *)
Theorem statistics_rounded (h : heap) (d : nat) (vs : list value) :
  h !! d = Some (Arr vs) → List.filter is_number vs ≠ [] →
  let raw :=
    unrounded_statistics
      (merge_sort (sorts_before compareFn) (List.filter is_number vs)) in
  ∃ s, (calculateStatistics (Ref d) h).1 = Ok (Some s) ∧
       rounds_half_away (mean raw) (mean s) ∧
       rounds_half_away (median raw) (median s) ∧
       rounds_half_away (mode raw) (mode s) ∧
       rounds_half_away (range raw) (range s) ∧
       rounds_half_away (standardDeviation raw) (standardDeviation s).
Proof.
  intros Hd Hns raw. rewrite (calculateStatistics_numbers h d vs Hd Hns).
  eexists. split; [reflexivity|]. cbn [rounded mean median mode range standardDeviation].
  repeat split; apply round2_rounds.
Qed.

(** C1: on the values 2, 2, 1, 1 the calculator answers the mode 1, the
    smaller of the two most frequent values: the scan runs over the
    array that [sort] has just put in ascending order.  The first value
    to reach the highest count in input order is 2. *)
Theorem mode_scans_the_sorted_array :
  let data := map (λ z, Prim (Num (of_Z z))) [2; 2; 1; 1]%Z in
  (∃ s h', calculateStatistics (Ref 0) [Arr data] = (Ok (Some s), h') ∧
           num_eqb (mode s) (of_Z 1) = true ∧
           h' !! 1 = Some (Arr (map (λ z, Prim (Num (of_Z z))) [1; 1; 2; 2]%Z))) ∧
  first_seen_mode (numeric_values data) = Some (of_Z 2).
Proof.
  intros data. split; [|vm_compute; reflexivity].
  rewrite (calculateStatistics_numbers [Arr data] 0 data eq_refl)
    by (vm_compute; discriminate).
  do 2 eexists. split; [reflexivity|]. cbn [rounded mode]. split.
  - vm_compute. reflexivity.
  - vm_compute. reflexivity.
Qed.

End statistics_facts.

(** * Lists in first-seen order *)

Section first_seen_facts.
Import Spec.

Lemma elem_of_first_seen {A} `{EqDecision A} (l : list A) (x : A) :
  x ∈ first_seen l ↔ x ∈ l.
Proof.
  induction l as [|a l IH]; [done|]. cbn [first_seen].
  rewrite !elem_of_cons, list_elem_of_filter, IH.
  destruct (decide (x = a)); tauto.
Qed.

Lemma NoDup_first_seen {A} `{EqDecision A} (l : list A) : NoDup (first_seen l).
Proof.
  induction l as [|a l IH]; [constructor|]. cbn [first_seen]. constructor.
  - rewrite list_elem_of_filter. tauto.
  - by apply NoDup_filter.
Qed.

Lemma first_seen_snoc {A} `{EqDecision A} (l : list A) (x : A) :
  first_seen (l ++ [x]) =
  if decide (x ∈ l) then first_seen l else first_seen l ++ [x].
Proof.
  induction l as [|a l IH]; [done|].
  cbn [app first_seen]. rewrite IH.
  destruct (decide (x ∈ l)) as [Hin|Hin].
  - rewrite decide_True by (by right). reflexivity.
  - rewrite filter_app, filter_cons, filter_nil.
    destruct (decide (x ≠ a)) as [Hne|He], (decide (x ∈ a :: l)) as [Hin'|Hin'].
    + apply elem_of_cons in Hin' as [?|?]; done.
    + reflexivity.
    + by rewrite app_nil_r.
    + exfalso. apply Hin'. destruct (decide (x = a)) as [->|?]; [left|done].
Qed.

Lemma elem_of_indices_first (keys : list string) (key : string) :
  key ∈ indices_first keys ↔ key ∈ keys.
Proof.
  unfold indices_first.
  rewrite elem_of_app, merge_sort_Permutation, !list_elem_of_filter.
  destruct (Js.is_index key); intuition congruence.
Qed.

Lemma NoDup_indices_first (keys : list string) :
  NoDup keys → NoDup (indices_first keys).
Proof.
  intros Hnd. unfold indices_first. apply NoDup_app. repeat split.
  - rewrite merge_sort_Permutation. by apply NoDup_filter.
  - intros key. rewrite merge_sort_Permutation, !list_elem_of_filter.
    intros [E _] [E' _]. congruence.
  - by apply NoDup_filter.
Qed.

Lemma index_le_total : Total Js.index_le.
Proof. intros a b. unfold Js.index_le. apply N.le_ge_cases. Qed.

(** The array indices come first, in ascending order, and the other
    keys keep the order they had. *)
Lemma indices_first_order (keys : list string) :
  ∃ indices others,
    indices_first keys = indices ++ others ∧
    Sorted Js.index_le indices ∧
    Forall (λ key, Js.is_index key = true) indices ∧
    others = filter (λ key, Js.is_index key = false) keys.
Proof.
  eexists _, _. split; [reflexivity|].
  split; [apply Sorted_merge_sort, index_le_total|].
  split; [|reflexivity].
  apply Forall_forall. intros key.
  rewrite merge_sort_Permutation, list_elem_of_filter. tauto.
Qed.

Lemma indices_first_no_index (keys : list string) :
  Forall (λ key, Js.is_index key = false) keys → indices_first keys = keys.
Proof.
  intros Hk. unfold indices_first.
  assert (filter (λ k, Js.is_index k = true) keys = [] ∧
          filter (λ k, Js.is_index k = false) keys = keys) as [-> ->]; [|done].
  induction Hk as [|key keys Hkey _ [IH1 IH2]]; [done|].
  rewrite !filter_cons, IH1, IH2, Hkey. by rewrite decide_False, decide_True.
Qed.

End first_seen_facts.

(** * The chart series builder *)

Section chart_facts.
Import Js Analysis Spec.

Variables xAxis yAxis : axis.

Lemma alloc_run (o : object) (h : heap) : alloc o h = (Ok (length h), h ++ [o]).
Proof. reflexivity. Qed.

Lemma reads_load_props (l : nat) : reads (load_props l).
Proof.
  intros h. unfold load_props, mbind, M_bind, load.
  destruct (h !! l) as [[]|]; reflexivity.
Qed.

Lemma load_props_run (h : heap) (l : nat) (o : plain) :
  h !! l = Some (Obj o) → load_props l h = (Ok o, h).
Proof.
  intros E. unfold load_props. by rewrite (bind_run _ _ _ _ _ (load_run _ _ _ E)).
Qed.

(** The callback of the pie branch changes the object [groupedData],
    the last one of the heap, and nothing else. *)
Lemma group_row_heap (h : heap) (o : object) (row : value) :
  ∃ o', (group_row xAxis yAxis (length h) row (h ++ [o])).2 = h ++ [o'].
Proof.
  unfold group_row.
  apply (bind_heap (λ hc, ∃ o', hc = h ++ [o'])); [|intros e h' E].
  2:{ apply reads_run in E as ->; [by eexists|apply reads_get_prop]. }
  intros xValue h' E. apply reads_run in E as ->; [|apply reads_get_prop].
  apply (bind_heap (λ hc, ∃ o', hc = h ++ [o'])); [|intros e h' E].
  2:{ apply reads_run in E as ->; [by eexists|apply reads_get_prop]. }
  intros yCell h' E. apply reads_run in E as ->; [|apply reads_get_prop].
  apply (bind_heap (λ hc, ∃ o', hc = h ++ [o'])); [|intros e h' E].
  2:{ apply reads_run in E as ->; [by eexists|apply reads_load_props]. }
  intros g h' E. apply reads_run in E as ->; [|apply reads_load_props].
  unfold store. cbn [snd]. rewrite insert_last_alloc. by eexists.
Qed.

Lemma foldM_group_heap (rows : list value) (h : heap) (o : object) (u : unit) :
  ∃ o', (foldM (λ _ row, group_row xAxis yAxis (length h) row) u rows (h ++ [o])).2
        = h ++ [o'].
Proof.
  revert o u. induction rows as [|row rows IH]; intros o u; [by exists o|].
  cbn [foldM]. destruct (group_row_heap h o row) as [o1 Ho1].
  unfold mbind, M_bind.
  destruct (group_row xAxis yAxis (length h) row (h ++ [o])) as [[u'|e] h'];
    cbn [snd] in Ho1; subst h'; [apply IH|by exists o1].
Qed.

Lemma forEach_group_heap (data : value) (h : heap) (o : object) :
  ∃ o', (Array_forEach "data" (group_row xAxis yAxis (length h)) data (h ++ [o])).2
        = h ++ [o'].
Proof.
  unfold Array_forEach.
  apply (bind_heap (λ hc, ∃ o', hc = h ++ [o'])); intros ? h' E;
    (apply reads_run in E as ->; [|apply reads_elements]); [|by eexists].
  apply foldM_group_heap.
Qed.

Lemma extends_scatter_point (row : value) : extends (scatter_point xAxis yAxis row).
Proof.
  apply extends_bind; [apply extends_reads, reads_get_prop|]. intros xCell.
  apply extends_bind; [apply extends_reads, reads_get_prop|]. intros yCell.
  apply extends_bind; [apply extends_alloc|]. intros l. apply extends_ret.
Qed.

Lemma reads_row_value (row : value) : reads (row_value yAxis row).
Proof. apply reads_bind; [apply reads_get_prop|]. intros yCell. apply reads_ret. Qed.

Lemma reads_row_label (row : value) : reads (row_label xAxis row).
Proof. apply reads_get_prop. Qed.

Lemma prefix_snoc (h hc : heap) (o : object) :
  (h ++ [o]) `prefix_of` hc → h `prefix_of` hc.
Proof. intros [k ->]. exists ([o] ++ k). by rewrite app_assoc. Qed.

(** Whatever its arguments, the builder leaves every object of the heap
    as it was: it only adds objects of its own. *)
Lemma processChartData_frame (data : value) (chartType : string) :
  extends (processChartData data xAxis yAxis chartType).
Proof.
  intros h. unfold processChartData.
  destruct (truthy data); cbn [negb]; [|done].
  apply (bind_heap (λ hc, h `prefix_of` hc)); intros len h' E;
    (apply reads_run in E as ->; [|apply reads_get_length]); [|done].
  destruct (strict_eq _ _); [done|].
  destruct (String.eqb chartType "pie"); [|destruct (String.eqb chartType "scatter")].
  - rewrite (bind_run _ _ _ _ _ (alloc_run _ _)).
    destruct (forEach_group_heap data h (Obj empty_object)) as [o' Ho'].
    apply (bind_heap (λ hc, h `prefix_of` hc)); intros ? h1 E;
      rewrite E in Ho'; cbn [snd] in Ho'; subst h1; [|by eexists].
    apply (prefix_snoc _ _ o').
    apply (extends_bind (load_props (length h))); [apply extends_reads, reads_load_props|].
    intros g. repeat (apply extends_bind; [apply extends_alloc|]; intros ?).
    apply extends_ret.
  - apply (extends_bind (Array_map _ _ _ _)).
    + apply extends_Array_map, extends_scatter_point.
    + intros points. apply extends_ret.
  - apply (extends_bind (Array_slice _ _ _ _)); [apply extends_Array_slice|].
    intros pd. apply extends_bind.
    { apply extends_Array_map. intros row. apply extends_reads, reads_row_label. }
    intros ls. apply extends_bind.
    { apply extends_Array_map. intros row. apply extends_reads, reads_row_value. }
    intros vs. apply extends_ret.
Qed.

(** ** The builder on an array of rows *)

Lemma Array_map_run {B} (name : string) (f : value → M B) (into : B → value)
    (h h' : heap) (l : nat) (vs : list value) (ws : list B) :
  h !! l = Some (Arr vs) → mapM f vs h = (Ok ws, h') →
  Array_map name f into (Ref l) h = (Ok (length h', ws), h' ++ [Arr (map into ws)]).
Proof.
  intros E Hm. unfold Array_map.
  rewrite (bind_run _ _ _ _ _ (elements_run _ _ _ _ E)).
  by rewrite (bind_run _ _ _ _ _ Hm).
Qed.

Lemma holds_rows_length (h : heap) (d : nat) (rows : list plain) :
  holds_rows h d rows →
  get_length (Ref d) h = (Ok (Prim (Num (of_nat (length rows)))), h).
Proof.
  intros (ls & Hd & Hrows). rewrite (get_length_run _ _ _ Hd).
  by rewrite length_map, (Forall2_length _ _ _ Hrows).
Qed.

(** Rows that the heap holds are still there after it has grown. *)
Lemma holds_rows_prefix (h h' : heap) (d : nat) (rows : list plain) :
  h `prefix_of` h' → holds_rows h d rows → holds_rows h' d rows.
Proof.
  intros Hp (ls & Hd & Hrows). exists ls. split; [by eapply prefix_lookup_Some|].
  eapply Forall2_impl; [exact Hrows|]. intros l row Hl. by eapply prefix_lookup_Some.
Qed.

Lemma group_row_run (h : heap) (l : nat) (row g : plain) :
  h !! l = Some (Obj row) →
  group_row xAxis yAxis (length h) (Ref l) (h ++ [Obj g]) =
  (Ok tt, h ++ [Obj (group_props xAxis yAxis g row)]).
Proof.
  intros Hl. unfold group_row.
  pose proof (lookup_app_l_Some _ [Obj g] _ _ Hl) as Hl'.
  rewrite (bind_run _ _ _ _ _ (get_prop_row _ _ _ _ Hl')).
  rewrite (bind_run _ _ _ _ _ (get_prop_row _ _ _ _ Hl')).
  cbv zeta.
  rewrite (bind_run _ _ _ _ _ (load_props_run _ _ _ (lookup_last_alloc _ _))).
  unfold store. by rewrite insert_last_alloc.
Qed.

Lemma foldM_group_run (h : heap) (ls : list nat) (rows : list plain) (g : plain) :
  Forall2 (λ l row, h !! l = Some (Obj row)) ls rows →
  foldM (λ _ row, group_row xAxis yAxis (length h) row) tt (map Ref ls) (h ++ [Obj g]) =
  (Ok tt, h ++ [Obj (fold_left (group_props xAxis yAxis) rows g)]).
Proof.
  intros Hrows. revert g.
  induction Hrows as [|l row ls rows Hl _ IH]; intros g; [reflexivity|].
  cbn [map foldM fold_left].
  rewrite (bind_run _ _ _ _ _ (group_row_run _ _ _ _ Hl)). apply IH.
Qed.

Lemma nonempty_length {A} (rows : list A) :
  rows ≠ [] → strict_eq (Prim (Num (of_nat (length rows)))) (Prim (Num (of_nat 0))) = false.
Proof. destruct rows; [done|reflexivity]. Qed.

Lemma pie_run (h : heap) (d : nat) (rows : list plain) :
  holds_rows h d rows → rows ≠ [] →
  ∃ h', processChartData (Ref d) xAxis yAxis "pie" h =
        (Ok (pie_chart yAxis (fold_left (group_props xAxis yAxis) rows empty_object)), h').
Proof.
  intros Hh Hne. unfold processChartData. cbn [truthy negb].
  rewrite (bind_run _ _ _ _ _ (holds_rows_length _ _ _ Hh)), nonempty_length by done.
  destruct Hh as (ls & Hd & Hrows). cbn [String.eqb Ascii.eqb Bool.eqb].
  rewrite (bind_run _ _ _ _ _ (alloc_run _ _)).
  erewrite bind_run; cycle 1.
  { unfold Array_forEach.
    rewrite (bind_run _ _ _ _ _
               (elements_run _ _ _ _ (lookup_app_l_Some _ [Obj empty_object] _ _ Hd))).
    apply (foldM_group_run _ _ _ _ Hrows). }
  rewrite (bind_run _ _ _ _ _ (load_props_run _ _ _ (lookup_last_alloc _ _))).
  by eexists.
Qed.

Lemma scatter_point_run (h : heap) (l : nat) (row : plain) :
  h !! l = Some (Obj row) →
  scatter_point xAxis yAxis (Ref l) h =
  (Ok (length h, Point (y_number xAxis row) (y_number yAxis row)),
   h ++ [Obj (ordinary [("x", Num (y_number xAxis row));
                        ("y", Num (y_number yAxis row))])]).
Proof.
  intros Hl. unfold scatter_point.
  rewrite (bind_run _ _ _ _ _ (get_prop_row _ _ _ _ Hl)).
  by rewrite (bind_run _ _ _ _ _ (get_prop_row _ _ _ _ Hl)).
Qed.

(** The points of the scatter branch: one new object for each row,
    after the objects [ext] that have been added to [h] so far. *)
Lemma mapM_scatter (h ext : heap) (ls : list nat) (rows : list plain) :
  Forall2 (λ l row, h !! l = Some (Obj row)) ls rows →
  mapM (scatter_point xAxis yAxis) (map Ref ls) (h ++ ext) =
  (Ok (zip (seq (length (h ++ ext)) (length rows))
           (map (λ row, Point (y_number xAxis row) (y_number yAxis row)) rows)),
   (h ++ ext) ++
   map (λ row, Obj (ordinary [("x", Num (y_number xAxis row));
                              ("y", Num (y_number yAxis row))])) rows).
Proof.
  intros Hrows. revert ext.
  induction Hrows as [|l row ls rows Hl _ IH]; intros ext.
  { cbn. by rewrite app_nil_r. }
  cbn [map mapM].
  pose proof (lookup_app_l_Some _ ext _ _ Hl) as Hl'.
  rewrite (bind_run _ _ _ _ _ (scatter_point_run _ _ _ Hl')).
  rewrite <- app_assoc.
  rewrite (bind_run _ _ _ _ _ (IH _)).
  cbn [length seq zip zip_with map]. rewrite !length_app. cbn [length].
  rewrite <- !app_assoc. cbn [app].
  by rewrite Nat.add_1_r, <- plus_n_Sm.
Qed.

Lemma scatter_run (h : heap) (d : nat) (rows : list plain) :
  holds_rows h d rows → rows ≠ [] →
  processChartData (Ref d) xAxis yAxis "scatter" h =
  (Ok (scatter_chart yAxis
         (map (λ row, Point (y_number xAxis row) (y_number yAxis row)) rows)),
   h ++ map (λ row, Obj (ordinary [("x", Num (y_number xAxis row));
                                   ("y", Num (y_number yAxis row))])) rows
     ++ [Arr (map Ref (seq (length h) (length rows)))]).
Proof.
  intros Hh Hne. unfold processChartData. cbn [truthy negb].
  rewrite (bind_run _ _ _ _ _ (holds_rows_length _ _ _ Hh)), nonempty_length by done.
  destruct Hh as (ls & Hd & Hrows). cbn [String.eqb Ascii.eqb Bool.eqb].
  pose proof (mapM_scatter h [] ls rows Hrows) as Hm. rewrite !app_nil_r in Hm.
  rewrite (bind_run _ _ _ _ _ (Array_map_run _ _ _ _ _ _ _ _ Hd Hm)).
  cbn [fst snd].
  rewrite snd_zip by (by rewrite length_seq, length_map).
  rewrite <- app_assoc. repeat f_equal.
  rewrite <- (map_map fst Ref), fst_zip by (by rewrite length_seq, length_map). done.
Qed.

Lemma series_run (h : heap) (d : nat) (rows : list plain) (chartType : string) :
  holds_rows h d rows → rows ≠ [] →
  String.eqb chartType "pie" = false → String.eqb chartType "scatter" = false →
  ∃ h',
    processChartData (Ref d) xAxis yAxis chartType h =
    (Ok (series_chart yAxis chartType
           (map (λ row, prop_get (column xAxis) row) (take 50 rows))
           (map (λ row, Value (Num (y_number yAxis row))) (take 50 rows))), h').
Proof.
  intros Hh Hne Hpie Hscatter. unfold processChartData. cbn [truthy negb].
  rewrite (bind_run _ _ _ _ _ (holds_rows_length _ _ _ Hh)), nonempty_length by done.
  destruct Hh as (ls & Hd & Hrows). rewrite Hpie, Hscatter.
  rewrite (bind_run _ _ _ _ _ (Array_slice_run _ _ _ _ _ _ Hd)).
  cbn [Nat.sub]. rewrite drop_0.
  change (map Ref ls) with (Ref <$> ls). rewrite <- fmap_take.
  set (h1 := h ++ [Arr (Ref <$> take 50 ls)]).
  assert (Forall2 (λ l row, h1 !! l = Some (Obj row)) (take 50 ls) (take 50 rows))
    as Hrows'.
  { apply Forall2_take. eapply Forall2_impl; [exact Hrows|].
    intros l row Hl. by apply lookup_app_l_Some. }
  assert (h1 !! length h = Some (Arr (map Ref (take 50 ls)))) as Hpd
    by apply lookup_last_alloc.
  erewrite (bind_run _ _ h1); cycle 1.
  { eapply Array_map_run; [exact Hpd|].
    apply (mapM_rows _ (λ row, prop_get (column xAxis) row) _ _ _ Hrows').
    intros l row Hl. unfold row_label. by rewrite (get_prop_row _ _ _ _ Hl). }
  set (h2 := h1 ++ _).
  assert (Forall2 (λ l row, h2 !! l = Some (Obj row)) (take 50 ls) (take 50 rows))
    as Hrows''.
  { eapply Forall2_impl; [exact Hrows'|]. intros l row Hl. by apply lookup_app_l_Some. }
  assert (h2 !! length h = Some (Arr (map Ref (take 50 ls)))) as Hpd'
    by (by apply lookup_app_l_Some).
  erewrite (bind_run _ _ h2); cycle 1.
  { eapply Array_map_run; [exact Hpd'|].
    apply (mapM_rows _ (λ row, y_number yAxis row) _ _ _ Hrows'').
    intros l row Hl. unfold row_value.
    by rewrite (bind_run _ _ _ _ _ (get_prop_row _ _ _ _ Hl)). }
  cbn [snd]. rewrite map_map. by eexists.
Qed.

Lemma fold_left_pointwise {A B} (f g : A → B → A) (l : list B) (a : A) :
  (∀ a b, f a b = g a b) → fold_left f l a = fold_left g l a.
Proof.
  intros E. revert a. induction l as [|b l IH]; intros a; [done|].
  cbn [fold_left]. by rewrite E, IH.
Qed.

(** What the last branch leaves, whatever the chart type. *)
Lemma series_chart_parts (chartType : string) (ls : list value) (vs : list datum) :
  ∃ ds, datasets (series_chart yAxis chartType ls vs) = [ds] ∧
        labels (series_chart yAxis chartType ls vs) = ls ∧
        data ds = vs.
Proof.
  unfold series_chart. destruct (String.eqb chartType "bar"); [by eexists|].
  destruct (_ || _); by eexists.
Qed.

(** C6: for a bar, line or area chart the builder keeps the first 50
    rows, in their order, and gives one label (the raw x-value) and one
    value for each of them: the y-value parsed as a float, and 0 where
    that is [NaN] (or a zero).  These are 50 of each for more than 50
    rows, and one for every row otherwise. *)
Theorem series_keeps_first_50 (h : heap) (d : nat) (rows : list plain)
    (chartType : string) :
  holds_rows h d rows → rows ≠ [] →
  chartType ∈ ["bar"; "line"; "area"] →
  ∃ cd ds h',
    processChartData (Ref d) xAxis yAxis chartType h = (Ok cd, h') ∧
    datasets cd = [ds] ∧
    labels cd = map (λ row, prop_get (column xAxis) row) (take 50 rows) ∧
    data ds =
      map (λ row, let y := parseFloat (prop_get (column yAxis) row) in
                  Value (Num (if num_truthy y then y else Fin 0)))
          (take 50 rows) ∧
    ((length rows > 50)%nat → length (labels cd) = 50 ∧ length (data ds) = 50) ∧
    ((length rows ≤ 50)%nat → take 50 rows = rows).
Proof.
  intros Hh Hne Hct.
  assert (String.eqb chartType "pie" = false ∧ String.eqb chartType "scatter" = false)
    as [Hpie Hscatter].
  { repeat (apply elem_of_cons in Hct as [->|Hct]; [done|]). by apply elem_of_nil in Hct. }
  destruct (series_run h d rows chartType Hh Hne Hpie Hscatter) as [h' ->].
  destruct (series_chart_parts chartType
              (map (λ row, prop_get (column xAxis) row) (take 50 rows))
              (map (λ row, Value (Num (y_number yAxis row))) (take 50 rows)))
    as (ds & Hds & Hlabels & Hdata).
  eexists _, ds, _. split; [reflexivity|]. split; [exact Hds|].
  split; [exact Hlabels|]. split; [exact Hdata|]. split.
  - intros Hlen. rewrite Hlabels, Hdata, !length_map, length_take. lia.
  - intros Hlen. by apply take_ge.
Qed.

(** C7: the builder fails, with the error that says that there is no
    data, exactly when the rows are empty.  With rows it returns a
    chart for every chart type, and in its data a y-value that does not
    parse as a number counts as 0: the values of a series and the
    coordinates of the points are the parsed cells with 0 for [NaN],
    and the pie chart adds such a number to the group of each row. *)
Theorem empty_dataset_only (h : heap) (d : nat) (rows : list plain)
    (chartType : string) :
  holds_rows h d rows →
  let or_0 := λ n : number, if isNaN n then Fin 0 else if num_truthy n then n else Fin 0 in
  let y_of := λ (a : axis) (row : plain), or_0 (parseFloat (prop_get (column a) row)) in
  (rows = [] → processChartData (Ref d) xAxis yAxis chartType h = (Throw no_data, h)) ∧
  ((∃ e h', processChartData (Ref d) xAxis yAxis chartType h = (Throw e, h')) ↔ rows = []) ∧
  (rows ≠ [] →
   ∃ cd ds h',
     processChartData (Ref d) xAxis yAxis chartType h = (Ok cd, h') ∧
     datasets cd = [ds] ∧
     (chartType = "pie" →
      data ds =
        map Value
            (Object_values
               (fold_left (λ g row, pie_step (prop_get (column xAxis) row)
                                             (y_of yAxis row) g)
                          rows empty_object))) ∧
     (chartType = "scatter" →
      data ds = map (λ row, Point (y_of xAxis row) (y_of yAxis row)) rows) ∧
     (chartType ≠ "pie" → chartType ≠ "scatter" →
      data ds = map (λ row, Value (Num (y_of yAxis row))) (take 50 rows))).
Proof.
  intros Hh or_0 y_of.
  assert (∀ a row, y_of a row = y_number a row) as Hy.
  { intros a row. unfold y_of, or_0, y_number, or_zero.
    by destruct (parseFloat _). }
  assert (rows = [] → processChartData (Ref d) xAxis yAxis chartType h = (Throw no_data, h))
    as Hempty.
  { intros ->. unfold processChartData. cbn [truthy negb].
    by rewrite (bind_run _ _ _ _ _ (holds_rows_length _ _ _ Hh)). }
  assert (rows ≠ [] →
    ∃ cd ds h',
      processChartData (Ref d) xAxis yAxis chartType h = (Ok cd, h') ∧
      datasets cd = [ds] ∧
      (chartType = "pie" →
       data ds =
         map Value
             (Object_values
                (fold_left (λ g row, pie_step (prop_get (column xAxis) row)
                                              (y_of yAxis row) g)
                           rows empty_object))) ∧
      (chartType = "scatter" →
       data ds = map (λ row, Point (y_of xAxis row) (y_of yAxis row)) rows) ∧
      (chartType ≠ "pie" → chartType ≠ "scatter" →
       data ds = map (λ row, Value (Num (y_of yAxis row))) (take 50 rows)))
    as Hrows.
  { intros Hne. destruct (String.eqb_spec chartType "pie") as [->|Hpie].
    { destruct (pie_run h d rows Hh Hne) as [h' ->].
      eexists _, _, _. split; [reflexivity|]. split; [reflexivity|].
      split; [|by split]. intros _. cbn [pie_chart data]. do 2 f_equal.
      apply fold_left_pointwise. intros g row. unfold group_props. by rewrite Hy. }
    destruct (String.eqb_spec chartType "scatter") as [->|Hscatter].
    { rewrite (scatter_run h d rows) by done.
      eexists _, _, _. split; [reflexivity|]. split; [reflexivity|].
      split; [done|]. split; [|done]. intros _. cbn [scatter_chart data].
      apply map_ext. intros row. by rewrite !Hy. }
    pose proof Hpie as Hpie'. pose proof Hscatter as Hscatter'.
    apply String.eqb_neq in Hpie', Hscatter'.
    destruct (series_run h d rows chartType Hh Hne Hpie' Hscatter') as [h' ->].
    destruct (series_chart_parts chartType
                (map (λ row, prop_get (column xAxis) row) (take 50 rows))
                (map (λ row, Value (Num (y_number yAxis row))) (take 50 rows)))
      as (ds & Hds & Hlabels & Hdata).
    eexists _, ds, _. split; [reflexivity|]. split; [exact Hds|].
    split; [done|]. split; [done|]. intros _ _. rewrite Hdata.
    apply map_ext. intros row. by rewrite Hy. }
  split; [exact Hempty|]. split; [|exact Hrows]. split.
  - intros (e & h' & E). destruct rows as [|row rows]; [done|].
    destruct Hrows as (cd & ds & h'' & E' & _); [done|]. rewrite E' in E. discriminate E.
  - intros ->. rewrite Hempty by done. by do 2 eexists.
Qed.

End chart_facts.

(** * The groups of the pie chart *)

Section pie_facts.
Import Js Analysis Spec.

Variables xAxis yAxis : axis.

Lemma assoc_Some (k v : string) (l : list (string * string)) :
  assoc k l = Some v → k ∈ map fst l.
Proof.
  induction l as [|[k0 v0] l IH]; [done|]. cbn.
  destruct (String.eqb_spec k k0) as [->|_]; [intros _; left|intros E; right; auto].
Qed.

(** Under a name that is not one of [Object.prototype], an object
    without such a property reads [undefined]. *)
Lemma inherited_undefined (k : string) :
  ¬ inherited_name k → inherited k = Prim Undefined.
Proof.
  intros Hk. unfold inherited.
  destruct (String.eqb_spec k "__proto__") as [E|_]; [destruct Hk; by left|].
  destruct (assoc k prototype_functions) as [name|] eqn:E; [|done].
  destruct Hk. right. by eapply assoc_Some.
Qed.

Lemma or_zero_cases (n : number) : or_zero n ≠ NaN ∧ or_zero n ≠ NegZero.
Proof.
  unfold or_zero. destruct n as [| | |q]; cbn; try done.
  destruct (Qeq_bool q 0); done.
Qed.

(** A falsy sum that is not [NaN] is a zero: the next y-value takes
    its place, as if it were added. *)
Lemma num_add_falsy (s y : number) :
  num_truthy s = false → s ≠ NaN → y ≠ NegZero → num_add s y = y.
Proof.
  destruct s as [| | |a], y as [| | |b]; cbn; try done.
  intros E _ _. apply negb_false_iff in E. by rewrite E.
Qed.

Lemma num_add_zero_l (y : number) : y ≠ NegZero → num_add (Fin 0) y = y.
Proof. intros Hy. by apply num_add_falsy. Qed.

Lemma num_add_Fin_not_NaN (s : number) (q : Q) : s ≠ NaN → num_add s (Fin q) ≠ NaN.
Proof.
  destruct s as [| | |a]; cbn; try done. intros _.
  destruct (Qeq_bool a 0); [done|]. destruct (Qeq_bool q 0); [done|].
  intros E. pose proof (round64_not_NaN (a + q)) as H. by rewrite E in H.
Qed.

Lemma sum_list_snoc (l : list number) (y : number) :
  sum_list (l ++ [y]) = num_add (sum_list l) y.
Proof. unfold sum_list. by rewrite fold_left_app. Qed.

Lemma group_sum_snoc (key : string) (rows : list plain) (row : plain) :
  group_sum xAxis yAxis key (rows ++ [row]) =
  if decide (x_key xAxis row = key)
  then num_add (group_sum xAxis yAxis key rows) (y_number yAxis row)
  else group_sum xAxis yAxis key rows.
Proof.
  unfold group_sum. rewrite filter_app, filter_cons, filter_nil.
  destruct (decide (x_key xAxis row = key)).
  - rewrite map_app. apply sum_list_snoc.
  - by rewrite app_nil_r.
Qed.

Lemma group_sum_unseen (key : string) (rows : list plain) :
  key ∉ map (x_key xAxis) rows → group_sum xAxis yAxis key rows = Fin 0.
Proof.
  intros Hk. unfold group_sum.
  replace (filter (λ row, x_key xAxis row = key) rows) with (@nil plain); [done|].
  induction rows as [|row rows IH]; [done|].
  cbn [map] in Hk. apply not_elem_of_cons in Hk as [Hne Hk].
  rewrite filter_cons. rewrite decide_False by done. by apply IH.
Qed.

(** Finite y-values never add up to [NaN]. *)
Lemma finite_sums (rows : list plain) (key : string) :
  Forall (λ row, ∃ q, y_number yAxis row = Fin q) rows →
  group_sum xAxis yAxis key rows ≠ NaN.
Proof.
  induction rows as [|row rows IH] using rev_ind; intros Hfin; [done|].
  apply Forall_app in Hfin as [Hfin Hrow]. apply Forall_singleton in Hrow as [q Hq].
  rewrite group_sum_snoc. destruct (decide _); [|by apply IH].
  rewrite Hq. apply num_add_Fin_not_NaN. by apply IH.
Qed.

Lemma finite_running_sums (rows : list plain) :
  Forall (λ row, ∃ q, y_number yAxis row = Fin q) rows →
  ∀ n key, group_sum xAxis yAxis key (take n rows) ≠ NaN.
Proof. intros Hfin n key. apply finite_sums. by apply Forall_take. Qed.

Lemma map_fst_prop_set (k : string) (v : prim) (ps : props) :
  k ∈ map fst ps → map fst (prop_set k v ps) = map fst ps.
Proof.
  induction ps as [|[k0 v0] ps IH]; [by intros ?%elem_of_nil|].
  cbn. destruct (String.eqb_spec k k0) as [->|Hne]; [done|].
  rewrite elem_of_cons. intros [?|Hin]; [done|]. cbn. by rewrite IH.
Qed.

(** After the rows [rows], the object [groupedData] has the keys of the
    rows in the order in which they were first seen, and under each key
    the sum of its group. *)
Lemma group_props_invariant (rows : list plain) :
  Forall (λ row, ¬ inherited_name (x_key xAxis row)) rows →
  (∀ n key, group_sum xAxis yAxis key (take n rows) ≠ NaN) →
  let g := fold_left (group_props xAxis yAxis) rows empty_object in
  inherits g = true ∧
  map fst (own g) = first_seen (map (x_key xAxis) rows) ∧
  ∀ key, key ∈ map (x_key xAxis) rows →
         prop_lookup key (own g) = Some (Num (group_sum xAxis yAxis key rows)).
Proof.
  induction rows as [|row rows IH] using rev_ind; intros Hnames Hsum.
  { split; [done|]. split; [done|]. by intros key ?%elem_of_nil. }
  apply Forall_app in Hnames as [Hnames Hrow]. rewrite Forall_singleton in Hrow.
  assert (∀ n key, group_sum xAxis yAxis key (take n rows) ≠ NaN) as Hsum'.
  { intros n key. destruct (le_lt_dec n (length rows)).
    - rewrite <- (take_app_le rows [row] n) by done. apply Hsum.
    - rewrite take_ge by lia. rewrite <- (take_app_length rows [row]). apply Hsum. }
  destruct (IH Hnames Hsum') as (Hinh & Hkeys & Hsums). clear IH. cbv zeta.
  rewrite fold_left_app. cbn [fold_left].
  set (g := fold_left (group_props xAxis yAxis) rows empty_object) in *.
  rewrite map_app. cbn [map]. rewrite first_seen_snoc.
  unfold group_props, pie_step.
  change (ToString (prop_get (column xAxis) row)) with (x_key xAxis row).
  change (parseFloat_or_0 (prop_get (column yAxis) row)) with (y_number yAxis row).
  set (k0 := x_key xAxis row) in *. set (y := y_number yAxis row).
  assert (y ≠ NegZero) as Hy by apply or_zero_cases.
  assert (k0 ≠ "__proto__") as Hproto by (intros E; apply Hrow; by left).
  destruct (decide (k0 ∈ map (x_key xAxis) rows)) as [Hin|Hin].
  - pose proof (Hsums k0 Hin) as Hq.
    set (s := group_sum xAxis yAxis k0 rows) in *.
    assert (s ≠ NaN) as Hs.
    { unfold s. rewrite <- (take_app_length rows [row]). apply Hsum. }
    assert (k0 ∈ map fst (own g)) as Hk0.
    { rewrite Hkeys. by apply elem_of_first_seen. }
    rewrite (prop_get_own _ _ _ Hq). cbn [truthy plus ToNumber]. 
    assert ((if num_truthy s
             then assign k0 (Num (num_add s y)) g
             else assign k0 (Num y) g) = assign k0 (Num (num_add s y)) g) as ->.
    { destruct (num_truthy s) eqn:E; [done|]. by rewrite num_add_falsy. }
    rewrite assign_own by done. cbn [own inherits].
    split; [done|]. split; [by rewrite map_fst_prop_set|].
    intros key Hkey. rewrite prop_lookup_set, group_sum_snoc. fold k0.
    destruct (String.eqb_spec key k0) as [->|Hne].
    + by rewrite decide_True.
    + rewrite decide_False by done. apply Hsums.
      apply elem_of_app in Hkey as [?|Hkey]; [done|].
      apply list_elem_of_singleton in Hkey. done.
  - assert (prop_lookup k0 (own g) = None) as Hnone.
    { by rewrite prop_lookup_None, Hkeys, elem_of_first_seen. }
    rewrite (prop_get_inherited _ _ Hnone Hinh), (inherited_undefined _ Hrow).
    cbn [truthy].
    rewrite assign_own by done. cbn [own inherits].
    rewrite prop_set_fresh by (by rewrite <- prop_lookup_None).
    split; [done|]. split; [by rewrite map_app, Hkeys|].
    intros key Hkey. rewrite prop_lookup_app, group_sum_snoc. fold k0.
    apply elem_of_app in Hkey as [Hkey|Hkey].
    + rewrite (Hsums key Hkey). rewrite decide_False; [done|]. by intros <-.
    + apply list_elem_of_singleton in Hkey as ->.
      rewrite Hnone. cbn. rewrite String.eqb_refl.
      rewrite decide_True by done.
      by rewrite group_sum_unseen, num_add_zero_l.
Qed.

(** C2, amended: as long as no display form of an x-value is the name
    of a member of [Object.prototype] and no group has a running sum
    that is [NaN], the pie branch gives exactly one label and one value
    for each distinct display form of an x-value.  The value is the sum
    of the y-values of the group, each parsed as a float with 0 for
    what does not parse, added in the order of the rows.  The labels
    that are array indices come first, in ascending numeric order, and
    the other labels follow in the order in which they are first seen
    (so that the labels are in first-seen order when none of them is an
    array index). *)
Theorem pie_groups (h : heap) (d : nat) (rows : list plain) :
  holds_rows h d rows → rows ≠ [] →
  Forall (λ row, ¬ inherited_name (x_key xAxis row)) rows →
  (∀ n key, group_sum xAxis yAxis key (take n rows) ≠ NaN) →
  let keys := first_seen (map (x_key xAxis) rows) in
  ∃ cd ds h',
    processChartData (Ref d) xAxis yAxis "pie" h = (Ok cd, h') ∧
    datasets cd = [ds] ∧
    labels cd = map (λ key, Prim (Str key)) (indices_first keys) ∧
    data ds = map (λ key, Value (Num (group_sum xAxis yAxis key rows)))
                  (indices_first keys) ∧
    NoDup (indices_first keys) ∧
    (∀ key, key ∈ indices_first keys ↔ key ∈ map (x_key xAxis) rows) ∧
    (∃ indices others,
       indices_first keys = indices ++ others ∧
       Sorted index_le indices ∧
       Forall (λ key, is_index key = true) indices ∧
       others = filter (λ key, is_index key = false) keys) ∧
    (Forall (λ key, is_index key = false) keys → indices_first keys = keys).
Proof.
  intros Hh Hne Hnames Hsum keys. destruct (pie_run xAxis yAxis h d rows Hh Hne) as [h' ->].
  destruct (group_props_invariant rows Hnames Hsum) as (Hinh & Hkeys & Hsums).
  set (g := fold_left (group_props xAxis yAxis) rows empty_object) in *.
  assert (Object_keys g = indices_first keys) as Hown.
  { unfold Object_keys, own_keys, indices_first. by rewrite Hkeys. }
  eexists _, _, _. split; [reflexivity|]. split; [reflexivity|].
  unfold pie_chart. cbv zeta. cbn [labels data]. rewrite Hown.
  assert (∀ key, key ∈ indices_first keys ↔ key ∈ map (x_key xAxis) rows) as Hmem.
  { intros key. unfold keys. by rewrite elem_of_indices_first, elem_of_first_seen. }
  split; [done|]. split.
  { unfold Object_values. fold (Object_keys g). rewrite Hown, map_map.
    apply map_ext_in. intros key Hkey%list_elem_of_In%Hmem.
    by rewrite (Hsums key Hkey). }
  split; [apply NoDup_indices_first, NoDup_first_seen|].
  split; [exact Hmem|].
  split; [apply indices_first_order|apply indices_first_no_index].
Qed.

End pie_facts.

(** * The inputs are left as they were *)

Section frame_facts.
Import Js Analysis Spec.

(** C9: neither the builder nor the calculator changes an object that
    was in the heap before the call, so the list they are given and
    its elements are the same afterwards; the calculator sorts an
    array of its own, which it adds to the heap. *)
Theorem inputs_not_mutated (Math_pow : number → number → number)
    (Math_sqrt : number → number) (data : value)
    (xAxis yAxis : axis) (chartType : string) (h : heap) :
  let h1 := (processChartData data xAxis yAxis chartType h).2 in
  let h2 := (calculateStatistics Math_pow Math_sqrt data h).2 in
  (h `prefix_of` h1 ∧ ∀ l o, h !! l = Some o → h1 !! l = Some o) ∧
  (h `prefix_of` h2 ∧ ∀ l o, h !! l = Some o → h2 !! l = Some o) ∧
  (∀ d vs, data = Ref d → h !! d = Some (Arr vs) → List.filter is_number vs ≠ [] →
           h2 !! d = Some (Arr vs) ∧
           h2 !! length h =
             Some (Arr (merge_sort (sorts_before compareFn) (List.filter is_number vs)))).
Proof.
  cbv zeta.
  pose proof (processChartData_frame xAxis yAxis data chartType h) as H1.
  pose proof (calculateStatistics_frame Math_pow Math_sqrt data h) as H2.
  repeat split; try done.
  - intros l o Hl. destruct H1 as [k ->]. by apply lookup_app_l_Some.
  - intros l o Hl. destruct H2 as [k ->]. by apply lookup_app_l_Some.
  - destruct H2 as [k ->]. by apply lookup_app_l_Some.
  - subst data. rewrite (calculateStatistics_numbers Math_pow Math_sqrt h d vs) by done.
    cbn [snd]. by apply (list_lookup_middle h _ _ (length h)).
Qed.

End frame_facts.

(** * Further properties of the ingestion *)

Section ingestion_facts.
Import Js Upload Spec.

Variable Date_parse : string → number.

Local Abbreviation classify := (Upload.classify Date_parse).
Local Abbreviation analyzeColumnType := (Upload.analyzeColumnType Date_parse).
Local Abbreviation processExcelFile := (Upload.processExcelFile Date_parse).
Local Abbreviation finds e := (λ v : value, bool_decide (classify v = Some e)).

(** X1: ingestion fails exactly when the workbook cannot be read, has
    no sheets, has a first sheet without rows, or has a first sheet
    whose header row is empty; each failure is an [Error] whose message
    is the cause after the words "Failed to process Excel file: " (for
    a workbook that cannot be read, the message of what the reader
    threw); and only the first sheet is read. *)
Theorem processExcelFile_failures (workbook : result (list (list (list prim)))) :
  (∀ e, processExcelFile (Throw e) =
          Error ("Failed to process Excel file: " ++ message_of e)) ∧
  processExcelFile (Ok []) =
    Error "Failed to process Excel file: No sheets found in the Excel file" ∧
  (∀ rest, processExcelFile (Ok ([] :: rest)) =
             Error "Failed to process Excel file: No data found in the Excel file") ∧
  (∀ rows rest, processExcelFile (Ok (([] :: rows) :: rest)) =
             Error "Failed to process Excel file: No headers found in the Excel file") ∧
  ((∃ e, processExcelFile workbook = Throw e) ↔
   (∃ e, workbook = Throw e) ∨ workbook = Ok [] ∨
   (∃ rest, workbook = Ok ([] :: rest)) ∨
   (∃ rows rest, workbook = Ok (([] :: rows) :: rest))) ∧
  (∀ e, processExcelFile workbook = Throw e →
        ∃ reason, e = JsError "Error" ("Failed to process Excel file: " ++ reason)) ∧
  (∀ sheet sheets, processExcelFile (Ok (sheet :: sheets)) = processExcelFile (Ok [sheet])).
Proof.
  split; [reflexivity|]. split; [reflexivity|]. split; [reflexivity|].
  split; [reflexivity|]. split; [|split].
  - split.
    + intros [e E]. destruct workbook as [[|[|[|header headers] rows] rest]|e'];
        [right; by left|right; right; left; by eexists
        |right; right; right; by do 2 eexists|discriminate E|left; by eexists].
    + intros [[e ->]|[->|[[rest ->]|(rows & rest & ->)]]]; by eexists.
  - intros e E. destruct workbook as [[|[|[|header headers] rows] rest]|e'];
      try discriminate E; inversion E; by eexists.
  - intros [|[|header headers] rows]; reflexivity.
Qed.

Lemma length_filter_Forall_all {A} (P : A → Prop) `{∀ x, Decision (P x)} (l : list A) :
  Forall P l → length (filter P l) = length l.
Proof.
  induction 1 as [|x l Hx _ IH]; [reflexivity|].
  rewrite filter_cons_True by done. cbn. by rewrite IH.
Qed.

Lemma zip_row_lookup (headers row : list prim) (index : nat) :
  zip_row headers row !! index =
  (λ header, (ToString (Prim header), cell row index)) <$> headers !! index.
Proof. rewrite zip_row_imap. apply list_lookup_imap. Qed.

Lemma fold_set_keys (pairs : props) :
  map fst (fold_left set_pair pairs []) = first_seen (map fst pairs).
Proof.
  induction pairs as [|[k v] pairs IH] using rev_ind; [reflexivity|].
  rewrite fold_left_app, map_app. cbn [fold_left map]. rewrite first_seen_snoc.
  unfold set_pair at 1. cbn [fst snd].
  destruct (decide (k ∈ map fst pairs)) as [Hin|Hin].
  - rewrite map_fst_prop_set; [exact IH|]. rewrite IH. by apply elem_of_first_seen.
  - rewrite prop_set_fresh.
    + by rewrite map_app, IH.
    + rewrite IH. by rewrite elem_of_first_seen.
Qed.

Lemma as_mapping_last (pairs : props) (i : nat) (k : string) (v : prim) :
  pairs !! i = Some (k, v) →
  (∀ j k' v', pairs !! j = Some (k', v') → i < j → k' ≠ k) →
  as_mapping pairs k = Some v.
Proof.
  intros Hi Hlast. unfold as_mapping.
  rewrite <- (take_drop_middle pairs i (k, v) Hi).
  rewrite rev_app_distr. cbn [rev]. rewrite <- app_assoc, prop_lookup_app.
  assert (prop_lookup k (rev (drop (S i) pairs)) = None) as ->.
  { apply prop_lookup_None. intros Hin.
    apply list_elem_of_fmap in Hin as ([k' v'] & Hk & Hin). cbn in Hk. subst k'.
    rewrite list_elem_of_In, <- in_rev, <- list_elem_of_In in Hin.
    apply list_elem_of_lookup in Hin as [j Hj]. rewrite lookup_drop in Hj.
    eapply (Hlast _ _ _ Hj); [lia|reflexivity]. }
  cbn. by rewrite String.eqb_refl.
Qed.

(** Without a header named [__proto__], the own properties of a row
    object are the header names, each once, in the order in which they
    are first seen. *)
Lemma row_object_own_keys (headers row : list prim) :
  Forall (λ header, ToString (Prim header) ≠ "__proto__") headers →
  map fst (own (row_object headers row)) =
  first_seen (map (λ header, ToString (Prim header)) headers).
Proof.
  intros Hk. rewrite row_object_zip by done. cbn [own ordinary].
  by rewrite fold_set_keys, zip_row_keys.
Qed.

(** Under a header name such a row object holds the cell below the last
    header of that name. *)
Lemma row_object_lookup_last (headers row : list prim) (index : nat) (header : prim) :
  Forall (λ header, ToString (Prim header) ≠ "__proto__") headers →
  headers !! index = Some header → last_of_its_name headers index →
  prop_lookup (ToString (Prim header)) (own (row_object headers row)) =
  Some (cell row index).
Proof.
  intros Hk Hh Hlast. rewrite row_object_zip by done. cbn [own ordinary].
  rewrite fold_set_lookup.
  rewrite (as_mapping_last (zip_row headers row) index _ (cell row index)); [done| |].
  - rewrite zip_row_lookup, Hh. reflexivity.
  - intros j k' v' Hj Hlt. rewrite zip_row_lookup in Hj.
    destruct (headers !! j) as [h'|] eqn:Hh'; [|discriminate Hj].
    inversion Hj; subst. by apply (Hlast j header h').
Qed.

Lemma length_indices_first (keys : list string) :
  length (indices_first keys) = length keys.
Proof.
  unfold indices_first. rewrite length_app, merge_sort_Permutation.
  induction keys as [|k keys IH]; [reflexivity|].
  rewrite !filter_cons. destruct (is_index k) eqn:E.
  - rewrite decide_True, decide_False by done. cbn [length]. lia.
  - rewrite decide_False, decide_True by done. cbn [length]. lia.
Qed.

Lemma length_first_seen {A} `{EqDecision A} (l : list A) :
  (length (first_seen l) ≤ length l)%nat ∧
  (NoDup l ↔ length (first_seen l) = length l).
Proof.
  induction l as [|a l [IHle IH]]; [split; [done|split; [done|constructor]]|].
  cbn [first_seen length].
  pose proof (length_filter (λ y, y ≠ a) (first_seen l)) as Hf.
  split; [lia|]. rewrite NoDup_cons, IH. split.
  - intros [Ha Hl]. f_equal. rewrite <- Hl.
    rewrite length_filter_Forall_all; [done|].
    apply Forall_forall. intros y Hy ->. apply Ha. by apply elem_of_first_seen.
  - intros E. assert (length (first_seen l) = length l) as Hl by lia.
    split; [|exact Hl]. intros Ha.
    assert (a ∈ first_seen l) as Ha' by (by apply elem_of_first_seen).
    pose proof (length_filter_lt (λ y, y ≠ a) (first_seen l) a Ha') as Hlt.
    assert (¬ a ≠ a) as Haa by (intros ?; done). specialize (Hlt Haa). lia.
Qed.

(** X2: without a header named [__proto__], a row object has one
    property for each distinct header name; its keys are enumerated
    with the names that are array indices first, in ascending order,
    and the other names after them in the order in which they are
    first seen.  Under a name the row reads the cell below the last
    header of that name, so with a name that occurs twice the earlier
    column is lost; and the row has as many properties as headers
    exactly when the names are distinct. *)
Theorem duplicate_headers_overwrite (headers row : list prim) :
  Forall (λ header, ToString (Prim header) ≠ "__proto__") headers →
  let names := map (λ header, ToString (Prim header)) headers in
  Object_keys (row_object headers row) = indices_first (first_seen names) ∧
  (∀ index header,
     headers !! index = Some header → last_of_its_name headers index →
     prop_get (ToString (Prim header)) (row_object headers row) =
       Prim (cell row index)) ∧
  (length (Object_keys (row_object headers row)) ≤ length headers)%nat ∧
  (NoDup names ↔ length (Object_keys (row_object headers row)) = length headers).
Proof.
  intros Hk names.
  assert (Object_keys (row_object headers row) = indices_first (first_seen names)) as Hkeys.
  { unfold Object_keys, own_keys. by rewrite row_object_own_keys. }
  split; [exact Hkeys|]. split.
  { intros index header Hh Hlast. apply prop_get_own.
    by apply row_object_lookup_last. }
  rewrite Hkeys, length_indices_first.
  rewrite <- (length_map (λ header, ToString (Prim header)) headers).
  apply length_first_seen.
Qed.

Lemma NoDup_last_of_its_name (headers : list prim) (index : nat) :
  NoDup (map (λ header, ToString (Prim header)) headers) →
  last_of_its_name headers index.
Proof.
  intros Hnd j h h' Hi Hj Hlt E.
  assert (index = j); [|lia].
  eapply NoDup_lookup; [exact Hnd| |].
  - rewrite list_lookup_fmap, Hi. reflexivity.
  - rewrite list_lookup_fmap, Hj. cbn. f_equal. exact E.
Qed.

Lemma not_nullish_spec (v : value) :
  not_nullish v = true ↔ v ≠ Prim Null ∧ v ≠ Prim Undefined.
Proof. destruct v as [[]| |]; cbn; intuition (try discriminate; try congruence). Qed.

(** X3: for distinct header names, none of them [__proto__], the
    column descriptors come in the order of the headers, one for each;
    the sample values of a column are its first five cells that are
    not [null], and its type is inferred from its cells that are not
    [null] (so [null] cells take none of the ten examined places); no
    sample is [null] or [undefined]. *)
Theorem columns_describe_cells (header : prim) (headers : list prim)
    (rows : list (list prim)) (sheets : list (list (list prim))) :
  Forall (λ h, ToString (Prim h) ≠ "__proto__") (header :: headers) →
  NoDup (map (λ h, ToString (Prim h)) (header :: headers)) →
  ∃ r, processExcelFile (Ok (((header :: headers) :: rows) :: sheets)) = Ok r ∧
       columns r =
         imap (λ index h,
                 {| name := h;
                    type := analyzeColumnType (column_cells rows index);
                    sampleValues := take 5 (column_cells rows index) |})
              (header :: headers) ∧
       Forall (λ c, (length (sampleValues c) ≤ 5)%nat ∧
                    Forall (λ v, v ≠ Prim Null ∧ v ≠ Prim Undefined) (sampleValues c))
              (columns r).
Proof.
  intros Hk Hnd. eexists. split; [reflexivity|]. cbn [columns].
  set (hs := header :: headers) in *.
  assert (∀ index h, hs !! index = Some h →
            List.filter not_nullish
              (map (λ row, prop_get (ToString (Prim h)) row) (map (row_object hs) rows))
            = column_cells rows index) as Hcells.
  { intros index h Hh. unfold column_cells. f_equal.
    rewrite map_map. apply map_ext. intros row. apply prop_get_own.
    apply (row_object_lookup_last hs row index h Hk Hh).
    by apply NoDup_last_of_its_name. }
  split.
  - apply list_eq. intros i. rewrite list_lookup_imap.
    change (map (describe_column Date_parse (map (row_object hs) rows)) hs)
      with (describe_column Date_parse (map (row_object hs) rows) <$> hs).
    rewrite list_lookup_fmap.
    destruct (hs !! i) as [h|] eqn:Hh; [|reflexivity]. cbn.
    unfold describe_column. by rewrite (Hcells i h Hh).
  - apply Forall_forall. intros c Hc.
    apply list_elem_of_fmap in Hc as (h & -> & _).
    unfold describe_column. cbn [sampleValues]. split.
    + rewrite length_take. lia.
    + apply Forall_take, Forall_forall. intros v Hv.
      apply list_elem_of_In, filter_In in Hv as [_ Hv]. by apply not_nullish_spec.
Qed.

Lemma decimal_not_NaN (neg : bool) (m : N) (e : Z) : isNaN (decimal neg m e) = false.
Proof.
  unfold decimal. destruct (m =? 0)%N; [by destruct neg|apply round64_not_NaN].
Qed.

Lemma read_unsigned_leading_digit (neg : bool) (c : ascii) (cs : list ascii) :
  is_digit c = true → ∃ x r, read_unsigned neg (c :: cs) = Some (x, r) ∧ isNaN x = false.
Proof.
  intros Hc. destruct (digit_head c Hc) as (_ & _ & HI).
  unfold read_unsigned. cbn [list_ascii_of_string starts_with]. rewrite HI. cbn [andb].
  cbn [span_digits]. rewrite Hc. destruct (span_digits cs) as [ds r1].
  destruct r1 as [|c1 r1].
  - cbn [no_digits andb]. destruct (read_exponent []) as [e r3].
    eexists _, _. split; [reflexivity|apply decimal_not_NaN].
  - destruct (Ascii.eqb_spec c1 "."%char) as [->|Hne].
    + destruct (span_digits r1) as [fp r2]. cbn [no_digits andb].
      destruct (read_exponent r2) as [e r3].
      eexists _, _. split; [reflexivity|apply decimal_not_NaN].
    + assert (∃ x r,
        (let '(fp, r2) := (@nil ascii, c1 :: r1) in
         if no_digits (c :: ds) && no_digits fp then None
         else let '(e, r3) := read_exponent r2 in
              Some (decimal neg (digits_val ((c :: ds) ++ fp)) (e - Z.of_nat (length fp)), r3))
        = Some (x, r) ∧ isNaN x = false) as H.
      { cbn [no_digits andb]. destruct (read_exponent (c1 :: r1)) as [e r3].
        eexists _, _. split; [reflexivity|apply decimal_not_NaN]. }
      destruct c1 as [[] [] [] [] [] [] [] []]; try exact H. by destruct Hne.
Qed.

Lemma parseFloat_leading_digit (c : ascii) (rest : string) :
  is_digit c = true → isNaN (parseFloat (Str (String c rest))) = false.
Proof.
  intros Hc. destruct (digit_head c Hc) as (Hsp & Hsign & _).
  unfold parseFloat, parse_float. cbn [list_ascii_of_string trim_start].
  rewrite Hsp. unfold read_number. rewrite Hsign.
  destruct (read_unsigned_leading_digit false c (list_ascii_of_string rest) Hc)
    as (x & r & -> & Hx). exact Hx.
Qed.

(** X4: a text that starts with a digit always counts as evidence:
    date evidence when it has the date shape and is a valid date,
    number evidence otherwise, whatever follows the digits (so
    "12 Main St" counts as a number); a column whose first ten values
    are such texts, none of them a valid date of the date shape, is a
    [number] column. *)
Theorem leading_digit_is_evidence (values : list value) :
  (∀ c rest, is_digit c = true →
     classify (Str (String c rest)) =
       Some (if negb (isNaN (Date_parse (String c rest)))
                && matches_date_pattern (String c rest)
             then DateEvidence else NumberEvidence)) ∧
  (values ≠ [] →
   Forall (λ v, ∃ c rest, v = Prim (Str (String c rest)) ∧ is_digit c = true ∧
                          (isNaN (Date_parse (String c rest)) = true ∨
                           matches_date_pattern (String c rest) = false))
          (take 10 values) →
   analyzeColumnType values = "number").
Proof.
  assert (∀ c rest, is_digit c = true →
     classify (Str (String c rest)) =
       Some (if negb (isNaN (Date_parse (String c rest)))
                && matches_date_pattern (String c rest)
             then DateEvidence else NumberEvidence)) as Hclassify.
  { intros c rest Hc. unfold Upload.classify. cbn [String.eqb].
    destruct (negb _ && _); [reflexivity|].
    by rewrite parseFloat_leading_digit. }
  split; [exact Hclassify|]. intros Hne Hvalues.
  rewrite analyzeColumnType_counts. cbv zeta.
  assert (take 10 values ≠ []) as Hne' by (by destruct values).
  revert Hne' Hvalues. generalize (take 10 values) as l. intros l Hne' Hl.
  assert (List.filter (finds DateEvidence) l = [] ∧
          List.filter (finds NumberEvidence) l = l) as [-> ->].
  { clear Hne'. induction Hl as [|v l (c & rest & -> & Hc & Hdate) _ [IH1 IH2]]; [done|].
    cbn [List.filter]. rewrite IH1, IH2, (Hclassify c rest Hc).
    assert (negb (isNaN (Date_parse (String c rest)))
            && matches_date_pattern (String c rest) = false) as ->.
    { destruct Hdate as [-> | ->]; [reflexivity|apply andb_false_r]. }
    rewrite bool_decide_eq_false_2 by discriminate. by rewrite bool_decide_eq_true_2. }
  destruct l; [done|]. reflexivity.
Qed.

End ingestion_facts.

(** * The authentication middleware *)

Section replace_facts.
Import Js Spec.

Lemma string_app_list (a b : string) :
  list_ascii_of_string (a ++ b)%string = list_ascii_of_string a ++ list_ascii_of_string b.
Proof.
  induction a as [|c a IH]; [reflexivity|].
  change (String c a ++ b)%string with (String c (a ++ b)%string).
  cbn [list_ascii_of_string app]. by rewrite IH.
Qed.

Lemma string_of_list_app (a b : list ascii) :
  string_of_list_ascii (a ++ b) = (string_of_list_ascii a ++ string_of_list_ascii b)%string.
Proof.
  induction a as [|c a IH]; [reflexivity|]. cbn [app string_of_list_ascii].
  rewrite IH. reflexivity.
Qed.

Lemma starts_with_spec (p cs : list ascii) :
  starts_with p cs = true ↔ ∃ rest, cs = p ++ rest.
Proof.
  revert cs. induction p as [|a p IH]; intros cs.
  - split; [intros _; by exists cs|done].
  - destruct cs as [|c cs]; cbn.
    + split; [done|]. intros [rest E]. discriminate E.
    + rewrite andb_true_iff, Ascii.eqb_eq, IH. split.
      * intros [-> [rest ->]]. by exists rest.
      * intros [rest E]. inversion E. split; [done|]. by exists rest.
Qed.

Lemma replace_first_head (p r rest : list ascii) :
  replace_first p r (p ++ rest) = r ++ rest.
Proof.
  destruct (p ++ rest) as [|c cs] eqn:E; cbn [replace_first].
  - assert (starts_with p [] = true) as -> by (apply starts_with_spec; by exists rest).
    apply app_eq_nil in E as [-> ->]. reflexivity.
  - assert (starts_with p (c :: cs) = true) as -> by (apply starts_with_spec; by exists rest).
    by rewrite <- E, drop_app_length.
Qed.

Lemma replace_first_absent (p r cs : list ascii) :
  (∀ before after, cs ≠ before ++ p ++ after) → replace_first p r cs = cs.
Proof.
  induction cs as [|c cs IH]; intros Habsent.
  - cbn. destruct (starts_with p []) eqn:E; [|reflexivity].
    apply starts_with_spec in E as [rest E]. by destruct (Habsent [] rest).
  - cbn [replace_first]. destruct (starts_with p (c :: cs)) eqn:E.
    + apply starts_with_spec in E as [rest E]. by destruct (Habsent [] rest).
    + rewrite IH; [reflexivity|]. intros before after ->.
      by apply (Habsent (c :: before) after).
Qed.

Lemma replace_first_empty (p cs : list ascii) :
  replace_first p [] cs = [] ↔ cs = [] ∨ cs = p.
Proof.
  split.
  - destruct cs as [|c cs]; [by left|]. cbn [replace_first].
    destruct (starts_with p (c :: cs)) eqn:E; [|discriminate].
    apply starts_with_spec in E as [rest E]. rewrite E, drop_app_length. cbn.
    intros ->. right. by rewrite app_nil_r.
  - intros [->| ->].
    + by destruct p.
    + rewrite <- (app_nil_r p) at 2. by rewrite replace_first_head.
Qed.

Lemma replace_first_once (p r cs : list ascii) :
  replace_first p r cs = cs ∨
  ∃ before after, cs = before ++ p ++ after ∧ replace_first p r cs = before ++ r ++ after.
Proof.
  induction cs as [|c cs IH].
  - cbn [replace_first]. destruct (starts_with p []) eqn:E; [|by left].
    apply starts_with_spec in E as [rest E]. symmetry in E.
    apply app_eq_nil in E as [-> ->]. right. by exists [], [].
  - cbn [replace_first]. destruct (starts_with p (c :: cs)) eqn:E.
    + apply starts_with_spec in E as [rest E]. right. exists [], rest.
      split; [exact E|]. by rewrite E, drop_app_length.
    + destruct IH as [->|(before & after & -> & ->)]; [by left|].
      right. by exists (c :: before), after.
Qed.

Lemma occurs_in_list (p s : string) :
  occurs_in p s ↔
  ∃ before after, list_ascii_of_string s = before ++ list_ascii_of_string p ++ after.
Proof.
  split.
  - intros (before & after & ->). exists (list_ascii_of_string before), (list_ascii_of_string after).
    by rewrite !string_app_list.
  - intros (before & after & E). exists (string_of_list_ascii before), (string_of_list_ascii after).
    rewrite <- (string_of_list_ascii_of_string s), E, !string_of_list_app.
    by rewrite string_of_list_ascii_of_string.
Qed.

Lemma String_replace_head (p r rest : string) :
  String_replace (p ++ rest)%string p r = (r ++ rest)%string.
Proof.
  unfold String_replace. rewrite string_app_list, replace_first_head, string_of_list_app.
  by rewrite !string_of_list_ascii_of_string.
Qed.

Lemma String_replace_absent (s p r : string) :
  ¬ occurs_in p s → String_replace s p r = s.
Proof.
  intros Habsent. unfold String_replace. rewrite replace_first_absent.
  - apply string_of_list_ascii_of_string.
  - intros before after E. apply Habsent, occurs_in_list. by exists before, after.
Qed.

Lemma String_replace_empty (s p : string) :
  String_replace s p "" = "" ↔ s = "" ∨ s = p.
Proof.
  unfold String_replace. cbn [list_ascii_of_string].
  assert (∀ l, string_of_list_ascii l = "" ↔ l = []) as Hnil.
  { intros [|c l]; split; intros; done. }
  rewrite Hnil, replace_first_empty. split; intros [E|E].
  - left. by rewrite <- (string_of_list_ascii_of_string s), E.
  - right. by rewrite <- (string_of_list_ascii_of_string s), E, string_of_list_ascii_of_string.
  - left. by subst.
  - right. by subst.
Qed.

End replace_facts.

Section auth_facts.
Import Js Middleware Spec.

Variable jwt_verify : string → result payload.
Variable User_findById : value → result (option user).

Local Abbreviation auth := (Middleware.auth jwt_verify User_findById).

(** X20: from the header "Bearer " followed by a token the middleware
    takes the token; a header in which "Bearer " does not occur is
    taken as the token itself, and is treated as the same header with
    "Bearer " in front; in general one occurrence of "Bearer " is
    removed, wherever it is. *)
Theorem bearer_scheme_is_optional (token : string) :
  token_of (Some ("Bearer " ++ token)%string) = Some token ∧
  (¬ occurs_in "Bearer " token →
   token_of (Some token) = Some token ∧
   auth (Some token) = auth (Some ("Bearer " ++ token)%string)) ∧
  (∀ header,
     token_of (Some header) = Some header ∨
     ∃ before after, header = (before ++ "Bearer " ++ after)%string ∧
                     token_of (Some header) = Some (before ++ after)%string).
Proof.
  assert (token_of (Some ("Bearer " ++ token)%string) = Some token) as Hhead.
  { unfold token_of. by rewrite String_replace_head. }
  split; [exact Hhead|]. split.
  - intros Habsent.
    assert (token_of (Some token) = Some token) as Hplain.
    { unfold token_of. by rewrite String_replace_absent. }
    split; [exact Hplain|]. unfold Middleware.auth. by rewrite Hhead, Hplain.
  - intros header. unfold token_of, String_replace.
    destruct (replace_first_once (list_ascii_of_string "Bearer ")
                (list_ascii_of_string "") (list_ascii_of_string header))
      as [->|(before & after & E & ->)].
    + left. by rewrite string_of_list_ascii_of_string.
    + right. exists (string_of_list_ascii before), (string_of_list_ascii after). split.
      * rewrite <- (string_of_list_ascii_of_string header), E, !string_of_list_app.
        by rewrite string_of_list_ascii_of_string.
      * cbn [list_ascii_of_string app]. by rewrite string_of_list_app.
Qed.

(** X21: the middleware calls [next] exactly when the header gives a
    non-empty token that [jwt.verify] accepts and whose user exists,
    and then [req.user] holds the id and the role of that user; it
    answers "No token provided, access denied" exactly for a request
    without the header, with an empty header or with the header
    "Bearer "; and it answers with no status but 401 and 500. *)
Theorem next_only_for_verified_users (authorization : option string) :
  (∀ id role,
     auth authorization = Next id role ↔
     ∃ header decoded user,
       authorization = Some header ∧
       String_replace header "Bearer " "" ≠ "" ∧
       jwt_verify (String_replace header "Bearer " "") = Ok decoded ∧
       User_findById (userId decoded) = Ok (Some user) ∧
       id = _id user ∧ role = Middleware.role user) ∧
  (auth authorization = Respond 401 "No token provided, access denied" ↔
   authorization = None ∨ authorization = Some "" ∨ authorization = Some "Bearer ") ∧
  (∀ status message,
     auth authorization = Respond status message → status = 401%nat ∨ status = 500%nat).
Proof.
  assert (∀ e status message,
            auth_failed e = Respond status message →
            (status = 401%nat ∨ status = 500%nat) ∧
            message ≠ "No token provided, access denied") as Hfailed.
  { intros e status message. unfold auth_failed.
    destruct (String.eqb _ _); [|destruct (String.eqb _ _)];
      intros E; inversion E; split; auto; discriminate. }
  unfold Middleware.auth. destruct authorization as [header|]; cbn [token_of].
  2:{ split; [|split].
      - intros id role. split; [discriminate|]. by intros (? & ? & ? & ? & _).
      - split; [by left|done].
      - intros status message E. inversion E. by left. }
  destruct (String.eqb_spec (String_replace header "Bearer " "") "") as [Hempty|Htoken].
  { split; [|split].
    - intros id role. split; [discriminate|].
      intros (header' & ? & ? & E & Hne & _). inversion E. by subst.
    - split; [intros _|done]. apply String_replace_empty in Hempty as [->| ->]; auto.
    - intros status message E. inversion E. by left. }
  assert (¬ (Some header = None ∨ Some header = Some "" ∨ Some header = Some "Bearer "))
    as Hheader.
  { intros [E|[E|E]]; [discriminate E| |]; inversion E; subst header;
      apply Htoken; by apply String_replace_empty; auto. }
  destruct (jwt_verify _) as [decoded|e] eqn:Hverify.
  - destruct (User_findById _) as [[user|]|e] eqn:Hfind.
    + split; [|split].
      * intros id role. split.
        -- intros E. inversion E. by exists header, decoded, user.
        -- intros (header' & decoded' & user' & E & _ & Hv & Hf & -> & ->).
           inversion E. subst header'. rewrite Hverify in Hv. inversion Hv. subst decoded'.
           rewrite Hfind in Hf. by inversion Hf.
      * split; [discriminate|]. intros H. by destruct Hheader.
      * discriminate.
    + split; [|split].
      * intros id role. split; [discriminate|].
        intros (header' & decoded' & user' & E & _ & Hv & Hf & _).
        inversion E. subst header'. rewrite Hverify in Hv. inversion Hv. subst decoded'.
        rewrite Hfind in Hf. discriminate Hf.
      * split; [discriminate|]. intros H. by destruct Hheader.
      * intros status message E. inversion E. by left.
    + split; [|split].
      * intros id role. split.
        -- unfold auth_failed. destruct (String.eqb _ _); [|destruct (String.eqb _ _)];
             discriminate.
        -- intros (header' & decoded' & user' & E & _ & Hv & Hf & _).
           inversion E. subst header'. rewrite Hverify in Hv. inversion Hv. subst decoded'.
           rewrite Hfind in Hf. discriminate Hf.
      * split; [|intros H; by destruct Hheader].
        intros E. by apply Hfailed in E as [_ ?].
      * intros status message E. by apply Hfailed in E as [? _].
  - split; [|split].
    + intros id role. split.
      * unfold auth_failed. destruct (String.eqb _ _); [|destruct (String.eqb _ _)];
          discriminate.
      * intros (header' & decoded' & user' & E & _ & Hv & _).
        inversion E. subst header'. rewrite Hverify in Hv. discriminate Hv.
    + split; [|intros H; by destruct Hheader].
      intros E. by apply Hfailed in E as [_ ?].
    + intros status message E. by apply Hfailed in E as [? _].
Qed.

End auth_facts.

(** * The file filter *)

Section extname_facts.
Import Js Path Spec.

Local Open Scope Z_scope.

Lemma loop_slashes (k : nat) (r : list ascii) (st : scan) :
  matchedSlash st = true →
  extname_loop (replicate k "/"%char ++ r) st = extname_loop r st.
Proof.
  intros Hst. induction k as [|k IH]; [reflexivity|].
  cbn [replicate app extname_loop]. cbn [Ascii.eqb Bool.eqb andb]. by rewrite Hst.
Qed.

(** Once the end of the extension is known and no dot has been seen,
    the characters that are neither dots nor slashes change nothing. *)
Lemma loop_plain (e t : list ascii) (st : scan) :
  Forall (λ c, c ≠ "/"%char ∧ c ≠ "."%char) e →
  startDot st = -1 → end_ st ≠ -1 →
  extname_loop (e ++ t) st = extname_loop t st.
Proof.
  intros He Hdot Hend. induction He as [|c e [Hs Hd] _ IH]; [reflexivity|].
  cbn [app extname_loop].
  rewrite (proj2 (Ascii.eqb_neq c "/") Hs), (proj2 (Ascii.eqb_neq c ".") Hd).
  rewrite (proj2 (Z.eqb_neq _ _) Hend), Hdot. cbn [Z.eqb negb]. exact IH.
Qed.

Lemma loop_first (c : ascii) (rest : list ascii) :
  c ≠ "/"%char → c ≠ "."%char →
  extname_loop (c :: rest) initial_scan =
  extname_loop rest {| startDot := -1; startPart := 0;
                       end_ := Z.of_nat (length rest) + 1;
                       matchedSlash := false; preDotState := 0 |}.
Proof.
  intros Hs Hd. cbn [extname_loop].
  by rewrite (proj2 (Ascii.eqb_neq c "/") Hs), (proj2 (Ascii.eqb_neq c ".") Hd).
Qed.

(** After the dot and a character before it, the dot, the end and the
    fact that something comes before the dot stay as they are. *)
Lemma loop_stable (t : list ascii) (st : scan) :
  startDot st ≠ -1 → end_ st ≠ -1 → preDotState st ≠ 0 →
  startDot (extname_loop t st) = startDot st ∧
  end_ (extname_loop t st) = end_ st ∧
  preDotState (extname_loop t st) ≠ 0.
Proof.
  revert st. induction t as [|c t IH]; intros st Hdot Hend Hpre; [done|].
  cbn [extname_loop]. destruct (Ascii.eqb c "/").
  { destruct (negb (matchedSlash st)); [done|by apply IH]. }
  rewrite (proj2 (Z.eqb_neq _ _) Hend), (proj2 (Z.eqb_neq _ _) Hdot). cbn [negb].
  destruct (Ascii.eqb c ".").
  - destruct (preDotState st =? 1) eqn:E; cbn [negb].
    + by apply IH.
    + destruct (IH {| startDot := startDot st; startPart := startPart st;
                      end_ := end_ st; matchedSlash := matchedSlash st;
                      preDotState := 1 |}) as (? & ? & ?); done.
  - destruct (IH {| startDot := startDot st; startPart := startPart st;
                    end_ := end_ st; matchedSlash := matchedSlash st;
                    preDotState := -1 |}) as (? & ? & ?); done.
Qed.

Lemma step_dot (rest : list ascii) (st : scan) :
  startDot st = -1 →
  extname_loop ("."%char :: rest) st =
  extname_loop rest
    {| startDot := Z.of_nat (length rest);
       startPart := startPart st;
       end_ := (if end_ st =? -1 then Z.of_nat (length rest) + 1 else end_ st);
       matchedSlash := (if end_ st =? -1 then false else matchedSlash st);
       preDotState := preDotState st |}.
Proof.
  destruct st as [sd sp en ms pd]. cbn [startDot]. intros ->.
  cbn [extname_loop Ascii.eqb Bool.eqb andb end_ startDot startPart matchedSlash
       preDotState].
  by destruct (en =? -1).
Qed.

Lemma step_before_dot (c : ascii) (rest : list ascii) (st : scan) :
  c ≠ "/"%char → startDot st ≠ -1 → end_ st ≠ -1 → preDotState st = 0 →
  extname_loop (c :: rest) st =
  extname_loop rest
    {| startDot := startDot st; startPart := startPart st; end_ := end_ st;
       matchedSlash := matchedSlash st;
       preDotState := (if Ascii.eqb c "." then 1 else -1) |}.
Proof.
  destruct st as [sd sp en ms pd]. cbn [startDot end_ preDotState].
  intros Hc Hsd Hen ->. cbn [extname_loop].
  rewrite (proj2 (Ascii.eqb_neq c "/") Hc).
  cbn [end_ startDot startPart matchedSlash preDotState].
  rewrite (proj2 (Z.eqb_neq _ _) Hen).
  cbn [end_ startDot startPart matchedSlash preDotState].
  rewrite (proj2 (Z.eqb_neq _ _) Hsd). by destruct (Ascii.eqb c ".").
Qed.

(** From the last dot of the last portion on, when a character that is
    not a slash comes before it. *)
Lemma loop_dot (c2 : ascii) (t3 : list ascii) (st : scan) :
  c2 ≠ "/"%char → startDot st = -1 → preDotState st = 0 →
  let st' := extname_loop ("."%char :: c2 :: t3) st in
  startDot st' = Z.of_nat (length (c2 :: t3)) ∧
  end_ st' = (if end_ st =? -1 then Z.of_nat (length (c2 :: t3)) + 1 else end_ st) ∧
  preDotState st' ≠ 0.
Proof.
  intros Hc2 Hdot Hpre. cbv zeta. rewrite step_dot by done.
  assert ((if end_ st =? -1 then Z.of_nat (length (c2 :: t3)) + 1 else end_ st) ≠ -1)
    as Hend.
  { destruct (Z.eqb_spec (end_ st) (-1)); [lia|done]. }
  rewrite step_before_dot; cbn [startDot end_ preDotState]; try done; try lia.
  match goal with
  | |- context [extname_loop t3 ?s] =>
      destruct (loop_stable t3 s) as (-> & -> & ?); cbn [startDot end_ preDotState];
        try done; try lia
  end.
  by destruct (Ascii.eqb c2 ".").
Qed.

(** The state at the end of the loop for a path whose last portion has
    an extension. *)
Lemma loop_extension (k : nat) (e t3 : list ascii) (c2 : ascii) :
  Forall (λ c, c ≠ "/"%char ∧ c ≠ "."%char) e → c2 ≠ "/"%char →
  let r := e ++ "."%char :: c2 :: t3 in
  let st := extname_loop (replicate k "/"%char ++ r) initial_scan in
  startDot st = Z.of_nat (length (c2 :: t3)) ∧
  end_ st = Z.of_nat (length r) ∧
  preDotState st ≠ 0.
Proof.
  intros He Hc2 r st. unfold st. rewrite loop_slashes by done. unfold r.
  destruct He as [|c e [Hs Hd] He].
  - cbn [app]. destruct (loop_dot c2 t3 initial_scan Hc2 eq_refl eq_refl) as (-> & -> & ?).
    cbn [initial_scan end_ Z.eqb Pos.eqb length]. split; [done|]. split; [lia|done].
  - cbn [app]. rewrite loop_first by done.
    rewrite loop_plain by (try done; cbn [end_]; lia).
    match goal with
    | |- context [extname_loop _ ?s] =>
        destruct (loop_dot c2 t3 s Hc2 eq_refl eq_refl) as (-> & -> & ?)
    end.
    cbn [end_]. split; [done|]. split; [|done].
    match goal with |- (if ?b then _ else _) = _ => destruct b eqn:E end.
    + apply Z.eqb_eq in E. lia.
    + cbn [length]. lia.
Qed.

Lemma extname_extension (path : string) (k : nat) (e t3 : list ascii) (c2 : ascii) :
  rev (list_ascii_of_string path) = replicate k "/"%char ++ e ++ "."%char :: c2 :: t3 →
  Forall (λ c, c ≠ "/"%char ∧ c ≠ "."%char) e → e ≠ [] → c2 ≠ "/"%char →
  extname path = string_of_list_ascii ("."%char :: rev e).
Proof.
  intros Hrev He Hne Hc2. unfold extname. cbv zeta. rewrite Hrev.
  destruct (loop_extension k e t3 c2 He Hc2) as (Hdot & Hend & Hpre). cbv zeta in *.
  rewrite Hdot, Hend.
  assert (length (e ++ "."%char :: c2 :: t3) = length e + 1 + length (c2 :: t3))%nat as Hlen
    by (rewrite length_app; cbn [length]; lia).
  assert (0 < length e)%nat as Hpos by (destruct e; [done|cbn; lia]).
  rewrite (proj2 (Z.eqb_neq _ _) Hpre).
  assert ((Z.of_nat (length (c2 :: t3)) =? -1) = false) as -> by (apply Z.eqb_neq; lia).
  assert ((Z.of_nat (length (e ++ "."%char :: c2 :: t3)) =? -1) = false) as ->
    by (apply Z.eqb_neq; lia).
  assert ((Z.of_nat (length (c2 :: t3))
           =? Z.of_nat (length (e ++ "."%char :: c2 :: t3)) - 1) = false) as ->
    by (apply Z.eqb_neq; lia).
  rewrite andb_false_r. cbn [orb andb]. f_equal.
  rewrite <- (rev_involutive (list_ascii_of_string path)), Hrev.
  rewrite !rev_app_distr. cbn [rev]. rewrite <- !app_assoc. cbn [app].
  rewrite Nat2Z.id.
  replace (rev t3 ++ c2 :: "."%char :: rev e ++ rev (replicate k "/"%char))
    with ((rev t3 ++ [c2]) ++ ("."%char :: rev e) ++ rev (replicate k "/"%char))
    by (by rewrite <- app_assoc).
  rewrite drop_app_length' by (rewrite length_app, length_rev; cbn; lia).
  rewrite take_app_length'; [reflexivity|].
  cbn [length] in *. rewrite length_rev. lia.
Qed.

Lemma extname_without (path : string) :
  let st := extname_loop (rev (list_ascii_of_string path)) initial_scan in
  startDot st = -1 ∨ preDotState st = 0 → extname path = "".
Proof.
  intros st H. unfold extname. cbv zeta. fold st.
  destruct H as [-> | ->]; [reflexivity|]. cbn [Z.eqb]. by rewrite !orb_true_r.
Qed.

Lemma split_slashes (l : list ascii) :
  ∃ k r, l = replicate k "/"%char ++ r ∧ ∀ r', r ≠ "/"%char :: r'.
Proof.
  induction l as [|c l (k & r & -> & Hr)]; [by exists 0%nat, []|].
  destruct (Ascii.eqb_spec c "/") as [->|Hc].
  - by exists (S k), r.
  - exists 0%nat, (c :: replicate k "/"%char ++ r). split; [reflexivity|].
    intros r' E. inversion E. done.
Qed.

Lemma split_plain (r : list ascii) :
  ∃ e t, r = e ++ t ∧ Forall (λ c, c ≠ "/"%char ∧ c ≠ "."%char) e ∧
         (t = [] ∨ (∃ t', t = "/"%char :: t') ∨ (∃ t', t = "."%char :: t')).
Proof.
  induction r as [|c r (e & t & -> & He & Ht)]; [exists [], []; by auto|].
  destruct (Ascii.eqb_spec c "/") as [->|Hs]; [exists [], ("/"%char :: e ++ t); by eauto 6|].
  destruct (Ascii.eqb_spec c ".") as [->|Hd]; [exists [], ("."%char :: e ++ t); by eauto 6|].
  exists (c :: e), t. split; [reflexivity|]. split; [by constructor|exact Ht].
Qed.

(** After the characters of the last portion that follow its last dot. *)
Lemma loop_after_plain (e t : list ascii) :
  Forall (λ c, c ≠ "/"%char ∧ c ≠ "."%char) e →
  ∃ st, extname_loop (e ++ t) initial_scan = extname_loop t st ∧
        startDot st = -1 ∧ preDotState st = 0 ∧
        (e = [] → st = initial_scan) ∧
        (e ≠ [] → matchedSlash st = false ∧ end_ st ≠ -1).
Proof.
  intros He. destruct He as [|c e [Hs Hd] He].
  - by exists initial_scan.
  - cbn [app]. rewrite loop_first by done.
    rewrite loop_plain by (try done; cbn [end_]; lia).
    eexists. split; [reflexivity|]. cbn [startDot preDotState matchedSlash end_].
    repeat split; try done. lia.
Qed.

(** A path has an extension of more than the dot, or its extension is
    at most a dot. *)
Lemma extname_cases (path : string) :
  (String.length (extname path) ≤ 1)%nat ∨
  ∃ k e c2 t3,
    rev (list_ascii_of_string path) = replicate k "/"%char ++ e ++ "."%char :: c2 :: t3 ∧
    Forall (λ c, c ≠ "/"%char ∧ c ≠ "."%char) e ∧ e ≠ [] ∧ c2 ≠ "/"%char.
Proof.
  destruct (split_slashes (rev (list_ascii_of_string path))) as (k & r & Hrev & Hr).
  destruct (split_plain r) as (e & t & -> & He & Ht).
  destruct (loop_after_plain e t He) as (st & Hloop & Hdot & Hpre & Hnil & Hcons).
  assert (∀ st', extname_loop t st = st' → startDot st' = -1 ∨ preDotState st' = 0 →
                 (String.length (extname path) ≤ 1)%nat) as Hshort.
  { intros st' Hst' H. rewrite extname_without; [cbn; lia|]. cbv zeta.
    by rewrite Hrev, loop_slashes, Hloop, Hst'. }
  destruct Ht as [->|[[t' ->]|[t2 ->]]].
  - left. apply (Hshort st); [reflexivity|by left].
  - left. destruct e as [|c e]; [by destruct (Hr t')|].
    destruct (Hcons ltac:(done)) as [Hms _].
    eapply Hshort; [cbn [extname_loop Ascii.eqb Bool.eqb andb]; by rewrite Hms|].
    by left.
  - destruct t2 as [|c2 t3].
    { left. eapply Hshort; [by rewrite step_dot|]. by right. }
    destruct (Ascii.eqb_spec c2 "/") as [->|Hc2].
    { left. eapply Hshort; [rewrite step_dot by done|].
      - cbn [extname_loop Ascii.eqb Bool.eqb andb matchedSlash].
        assert ((if end_ st =? -1 then false else matchedSlash st) = false) as ->.
        { destruct (Z.eqb_spec (end_ st) (-1)) as [E|E]; [done|].
          destruct e as [|c e]; [by rewrite (Hnil eq_refl) in E|].
          by destruct (Hcons ltac:(done)). }
        reflexivity.
      - by right. }
    destruct e as [|c e]; [|right; by exists k, (c :: e), c2, t3].
    left. unfold extname. cbv zeta. rewrite Hrev.
    destruct (loop_extension k [] t3 c2 He Hc2) as (Hsd & Hen & _). cbv zeta in *.
    cbn [app] in *. rewrite Hsd, Hen.
    match goal with |- (String.length (if ?b then _ else _) ≤ 1)%nat => destruct b end;
      [cbn; lia|].
    assert (∀ l, String.length (string_of_list_ascii l) = length l) as Hlen.
    { induction l as [|a l IH]; cbn; [done|by rewrite IH]. }
    rewrite Hlen, length_take. cbn [length]. lia.
Qed.

End extname_facts.

Section filter_facts.
Import Js Path Upload Spec.

Lemma lower_plain (c : ascii) :
  lower c ∈ ["x"; "l"; "s"]%char → c ≠ "/"%char ∧ c ≠ "."%char.
Proof.
  intros H. split; intros ->; vm_compute in H;
    repeat (apply elem_of_cons in H as [H|H]; [discriminate H|]); by apply elem_of_nil in H.
Qed.

Lemma String_length_list (s : string) :
  String.length s = length (list_ascii_of_string s).
Proof. induction s as [|c s IH]; [reflexivity|]. cbn. by rewrite IH. Qed.

Lemma toLowerCase_list (s : string) :
  list_ascii_of_string (toLowerCase s) = map lower (list_ascii_of_string s).
Proof. unfold toLowerCase. apply list_ascii_of_string_of_list_ascii. Qed.

Lemma lower_extension_plain (l : list ascii) :
  map lower l = list_ascii_of_string "xls" ∨ map lower l = list_ascii_of_string "xlsx" →
  Forall (λ c, c ≠ "/"%char ∧ c ≠ "."%char) l ∧ l ≠ [].
Proof.
  intros H. split; [|intros ->; by destruct H as [H|H]].
  apply Forall_forall. intros c Hc. apply lower_plain.
  apply (list_elem_of_fmap_2 lower) in Hc.
  change (lower <$> l) with (map lower l) in Hc.
  destruct H as [H|H]; rewrite H in Hc; cbn in Hc;
    repeat (apply elem_of_cons in Hc as [->|Hc];
            [repeat first [apply list_elem_of_here | apply list_elem_of_further]|]);
    by apply elem_of_nil in Hc.
Qed.

Lemma string_eq_list (s t : string) :
  list_ascii_of_string s = list_ascii_of_string t → s = t.
Proof.
  intros E. by rewrite <- (string_of_list_ascii_of_string s), E, string_of_list_ascii_of_string.
Qed.

Lemma fileFilter_spec (originalname : string) :
  fileFilter originalname = Ok true ↔
  toLowerCase (extname originalname) = ".xls" ∨ toLowerCase (extname originalname) = ".xlsx".
Proof.
  unfold fileFilter, allowedExtensions. cbn [existsb]. rewrite orb_false_r.
  destruct (String.eqb_spec (toLowerCase (extname originalname)) ".xls") as [E|H1];
    [cbn; split; [intros _; by left|done]|].
  destruct (String.eqb_spec (toLowerCase (extname originalname)) ".xlsx") as [E|H2];
    [cbn; split; [intros _; by right|done]|].
  cbn. split; [discriminate|]. by intros [?|?].
Qed.

(** X5: the file filter accepts a name exactly when it is a non-empty
    stem that does not end with a slash, a dot, the letters [xls] or
    [xlsx] in any case, and possibly slashes after them; every other
    name is refused with the error "Only Excel files (.xls, .xlsx) are
    allowed". *)
Theorem fileFilter_goes_by_the_extension (originalname : string) :
  (fileFilter originalname = Ok true ↔
   ∃ stem ext k,
     originalname = (stem ++ "." ++ ext ++ slashes k)%string ∧
     (toLowerCase ext = "xls" ∨ toLowerCase ext = "xlsx") ∧
     stem ≠ "" ∧ (∀ s, stem ≠ (s ++ "/")%string)) ∧
  (fileFilter originalname ≠ Ok true →
   fileFilter originalname = Error "Only Excel files (.xls, .xlsx) are allowed").
Proof.
  split; [|unfold fileFilter; by destruct (existsb _ _)].
  rewrite fileFilter_spec. split.
  - intros Hext.
    assert (String.length (toLowerCase (extname originalname)) = String.length (extname originalname))
      as Hlen.
    { rewrite !String_length_list, toLowerCase_list. apply length_map. }
    destruct (extname_cases originalname) as [Hshort|(k & e & c2 & t3 & Hrev & He & Hne & Hc2)].
    { rewrite <- Hlen in Hshort. destruct Hext as [E|E]; rewrite E in Hshort; cbn in Hshort; lia. }
    rewrite (extname_extension originalname k e t3 c2 Hrev He Hne Hc2) in Hext.
    exists (string_of_list_ascii (rev (c2 :: t3))), (string_of_list_ascii (rev e)), k.
    split; [|split; [|split]].
    + apply string_eq_list. rewrite !string_app_list. unfold slashes.
      rewrite !list_ascii_of_string_of_list_ascii.
      rewrite <- (rev_involutive (list_ascii_of_string originalname)), Hrev.
      rewrite !rev_app_distr. cbn [rev list_ascii_of_string].
      rewrite <- !app_assoc. cbn [app]. f_equal. f_equal. f_equal. f_equal.
      clear. induction k as [|k IH]; [reflexivity|].
      cbn [replicate rev]. rewrite IH. clear. induction k; [reflexivity|]. cbn. by f_equal.
    + destruct Hext as [E|E]; apply (f_equal list_ascii_of_string) in E;
        rewrite toLowerCase_list, list_ascii_of_string_of_list_ascii in E; cbn [map] in E;
        injection E as E'; [left|right]; apply string_eq_list;
        by rewrite toLowerCase_list, list_ascii_of_string_of_list_ascii.
    + cbn [rev]. intros E. apply (f_equal list_ascii_of_string) in E.
      rewrite list_ascii_of_string_of_list_ascii in E. by destruct (rev t3).
    + intros s E. apply (f_equal list_ascii_of_string) in E.
      rewrite string_app_list, list_ascii_of_string_of_list_ascii in E.
      cbn [rev list_ascii_of_string] in E. apply app_inj_tail in E as [_ ?]. done.
  - intros (stem & ext & k & -> & Hext & Hstem & Hslash).
    set (e := rev (list_ascii_of_string ext)).
    assert (map lower (list_ascii_of_string ext) = list_ascii_of_string "xls" ∨
            map lower (list_ascii_of_string ext) = list_ascii_of_string "xlsx") as Hlist.
    { destruct Hext as [E|E]; apply (f_equal list_ascii_of_string) in E;
        rewrite toLowerCase_list in E; auto. }
    destruct (lower_extension_plain _ Hlist) as [Hplain Hne].
    destruct (rev (list_ascii_of_string stem)) as [|c2 t3] eqn:Hrs.
    { exfalso. apply Hstem, string_eq_list.
      by rewrite <- (rev_involutive (list_ascii_of_string stem)), Hrs. }
    assert (c2 ≠ "/"%char) as Hc2.
    { intros ->. apply (Hslash (string_of_list_ascii (rev t3))), string_eq_list.
      rewrite string_app_list, list_ascii_of_string_of_list_ascii.
      by rewrite <- (rev_involutive (list_ascii_of_string stem)), Hrs. }
    rewrite (extname_extension _ k e t3 c2).
    + unfold e. rewrite rev_involutive.
      assert (toLowerCase (string_of_list_ascii ("."%char :: list_ascii_of_string ext))
              = String "." (toLowerCase ext)) as ->.
      { apply string_eq_list. rewrite toLowerCase_list, list_ascii_of_string_of_list_ascii.
        cbn [map list_ascii_of_string]. by rewrite toLowerCase_list. }
      destruct Hext as [-> | ->]; auto.
    + rewrite !string_app_list. unfold slashes.
      rewrite list_ascii_of_string_of_list_ascii, !rev_app_distr. cbn [list_ascii_of_string rev].
      rewrite Hrs. rewrite <- !app_assoc. cbn [app]. f_equal.
      clear. induction k as [|k IH]; [reflexivity|].
      cbn [replicate rev]. rewrite IH. clear. induction k; [reflexivity|]. cbn. by f_equal.
    + unfold e. by apply Forall_rev.
    + unfold e. intros E. apply Hne. by rewrite <- (rev_involutive (list_ascii_of_string ext)), E.
    + exact Hc2.
Qed.

End filter_facts.

(** * From a sheet to a chart *)

Section sheet_to_chart.
Import Js Upload Analysis Spec.

Variable Date_parse : string → number.

(** X6: from an ingested sheet to its chart: for a sheet without a
    header named [__proto__] and a bar, line or area chart over two of
    its columns (each the last of its header name), the labels are the
    cells of the x-column of the first fifty data rows, [null] for a
    missing cell, and the values are the cells of the y-column parsed
    as floats, with 0 where that gives [NaN] (or a zero). *)
Theorem chart_shows_the_cells (header : prim) (headers : list prim)
    (rows : list (list prim)) (sheets : list (list (list prim)))
    (i j : nat) (hx hy : prim) (xAxis yAxis : axis) (chartType : string) :
  let hs := header :: headers in
  Forall (λ h, ToString (Prim h) ≠ "__proto__") hs →
  hs !! i = Some hx → hs !! j = Some hy →
  last_of_its_name hs i → last_of_its_name hs j →
  column xAxis = ToString (Prim hx) → column yAxis = ToString (Prim hy) →
  rows ≠ [] → chartType ∈ ["bar"; "line"; "area"] →
  ∃ r, processExcelFile Date_parse (Ok ((hs :: rows) :: sheets)) = Ok r ∧
       ∀ h d, holds_rows h d (Upload.data r) →
         ∃ cd ds h',
           processChartData (Ref d) xAxis yAxis chartType h = (Ok cd, h') ∧
           datasets cd = [ds] ∧
           labels cd = map (λ row, Prim (cell row i)) (take 50 rows) ∧
           Analysis.data ds =
             map (λ row, let y := parseFloat (Prim (cell row j)) in
                         Value (Num (if num_truthy y then y else Fin 0)))
                 (take 50 rows).
Proof.
  intros hs Hk Hi Hj Hlasti Hlastj Hx Hy Hne Hct.
  eexists. split; [reflexivity|]. intros h d Hh. cbn [Upload.data] in Hh.
  assert (String.eqb chartType "pie" = false ∧ String.eqb chartType "scatter" = false)
    as [Hpie Hscatter].
  { repeat (apply elem_of_cons in Hct as [->|Hct]; [done|]). by apply elem_of_nil in Hct. }
  assert (map (row_object hs) rows ≠ []) as Hne' by (by destruct rows).
  destruct (series_run xAxis yAxis h d _ chartType Hh Hne' Hpie Hscatter) as [h' ->].
  destruct (series_chart_parts yAxis chartType
              (map (λ row, prop_get (column xAxis) row)
                   (take 50 (map (row_object hs) rows)))
              (map (λ row, Value (Num (y_number yAxis row)))
                   (take 50 (map (row_object hs) rows))))
    as (ds & Hds & Hlabels & Hdata).
  eexists _, ds, _. split; [reflexivity|]. split; [exact Hds|].
  rewrite Hlabels, Hdata.
  change (map (row_object hs) rows) with (row_object hs <$> rows).
  rewrite <- fmap_take.
  change (row_object hs <$> take 50 rows) with (map (row_object hs) (take 50 rows)).
  rewrite !map_map. split; apply map_ext; intros row.
  - rewrite Hx. apply prop_get_own.
    by apply (row_object_lookup_last hs row i hx).
  - unfold y_number. rewrite Hy.
    by rewrite (prop_get_own _ _ _ (row_object_lookup_last hs row j hy Hk Hj Hlastj)).
Qed.

End sheet_to_chart.

(** * Further properties of the charts *)

Section chart_more.
Import Js Analysis Spec.

Variables xAxis yAxis : axis.

(** X7: a scatter chart has one point for every row, beyond the
    first fifty too, each coordinate being the cell parsed as a float,
    with 0 where that gives [NaN] (or a zero); it has no labels, and
    its two colours are the first colour.  The builder adds to the
    heap one object for each point, with the coordinates as its
    properties [x] and [y], and after them the array of the points. *)
Theorem scatter_keeps_every_row (h : heap) (d : nat) (rows : list plain) :
  holds_rows h d rows → rows ≠ [] →
  let coordinate := λ (a : axis) (row : plain),
    let n := parseFloat (prop_get (column a) row) in
    if num_truthy n then n else Fin 0 in
  ∃ cd ds,
    processChartData (Ref d) xAxis yAxis "scatter" h =
      (Ok cd,
       h ++ map (λ row, Obj (ordinary [("x", Num (coordinate xAxis row));
                                       ("y", Num (coordinate yAxis row))])) rows
         ++ [Arr (map Ref (seq (length h) (length rows)))]) ∧
    labels cd = [] ∧ datasets cd = [ds] ∧
    data ds = map (λ row, Point (coordinate xAxis row) (coordinate yAxis row)) rows ∧
    length (data ds) = length rows ∧
    backgroundColor ds = Color "#FF6384" ∧ borderColor ds = Color "#FF6384".
Proof.
  intros Hh Hne coordinate. rewrite (scatter_run xAxis yAxis h d rows Hh Hne).
  eexists _, _. split; [reflexivity|]. split; [reflexivity|]. split; [reflexivity|].
  cbn [data backgroundColor borderColor scatter_chart]. split; [reflexivity|].
  split; [by rewrite length_map|]. split; reflexivity.
Qed.

(** X8: a pie chart has as many background colours and values as
    labels; the colour at a place is the colour of the palette at that
    place modulo ten, so the colours repeat from the eleventh label on;
    and the border colours stay empty. *)
Theorem pie_colours_cycle (h : heap) (d : nat) (rows : list plain) :
  holds_rows h d rows → rows ≠ [] →
  ∃ cd ds h' cs,
    processChartData (Ref d) xAxis yAxis "pie" h = (Ok cd, h') ∧
    datasets cd = [ds] ∧
    backgroundColor ds = Colors cs ∧
    length cs = length (labels cd) ∧
    length (data ds) = length (labels cd) ∧
    (∀ i, (i < length cs)%nat → cs !! i = colors !! (i mod 10)) ∧
    (∀ i, (i + 10 < length cs)%nat → cs !! (i + 10) = cs !! i) ∧
    borderColor ds = Colors [].
Proof.
  intros Hh Hne. destruct (pie_run xAxis yAxis h d rows Hh Hne) as [h' ->].
  set (g := fold_left (group_props xAxis yAxis) rows empty_object).
  eexists _, _, _, _. split; [reflexivity|]. split; [reflexivity|].
  unfold pie_chart. cbv zeta.
  cbn [labels data backgroundColor borderColor initial_dataset].
  split; [reflexivity|].
  assert (∀ i, (i < length (Object_keys g))%nat →
            imap (λ index (_ : string), color (index mod length colors)) (Object_keys g) !! i
            = colors !! (i mod 10)) as Hcs.
  { intros i Hi. rewrite list_lookup_imap.
    destruct (lookup_lt_is_Some_2 _ _ Hi) as [k ->]. cbn [fmap option_fmap option_map].
    unfold color. change (length colors) with 10%nat.
    destruct (lookup_lt_is_Some_2 colors (i mod 10)) as [c Hc].
    { change (length colors) with 10%nat. apply Nat.mod_upper_bound. lia. }
    by rewrite Hc. }
  split; [by rewrite length_imap, length_map|].
  split; [unfold Object_values, Object_keys; by rewrite !length_map|].
  split; [intros i Hi; apply Hcs; by rewrite length_imap in Hi|].
  split; [|reflexivity].
  intros i Hi. rewrite length_imap in Hi. rewrite !Hcs by lia.
  f_equal. rewrite <- (Nat.Div0.add_mod_idemp_r i 10 10). cbn. by rewrite Nat.add_0_r.
Qed.

End chart_more.

(** * The chart configuration *)

Section config_facts.
Import Js Analysis Spec.

Lemma bind_Ok {A B} (m : M A) (f : A → M B) (h h' : heap) (b : B) :
  (m ≫= f) h = (Ok b, h') → ∃ a h1, m h = (Ok a, h1) ∧ f a h1 = (Ok b, h').
Proof.
  unfold mbind, M_bind. destruct (m h) as [[a|e] h1]; [|discriminate].
  intros E. by exists a, h1.
Qed.

(** Whatever the rows, a chart that the builder returns has one data
    set, whose label is the label of the y-axis, or its column. *)
Lemma processChartData_dataset (data : value) (xAxis yAxis : axis) (chartType : string)
    (h h' : heap) (cd : chartData) :
  processChartData data xAxis yAxis chartType h = (Ok cd, h') →
  ∃ ds, datasets cd = [ds] ∧ dataset_label ds = label_or_column yAxis ∧
        borderWidth ds = 1%nat.
Proof.
  unfold processChartData. destruct (negb (truthy data)); [discriminate|].
  intros E. apply bind_Ok in E as (len & h1 & _ & E).
  destruct (strict_eq len _); [discriminate|].
  destruct (String.eqb chartType "pie").
  { apply bind_Ok in E as (g & h2 & _ & E).
    apply bind_Ok in E as (u & h3 & _ & E).
    apply bind_Ok in E as (o & h4 & _ & E). cbv zeta in E.
    do 3 (apply bind_Ok in E as (? & ? & _ & E)).
    inversion E. by eexists. }
  destruct (String.eqb chartType "scatter").
  { apply bind_Ok in E as (points & h2 & _ & E). inversion E. by eexists. }
  do 3 (apply bind_Ok in E as (? & ? & _ & E)).
  inversion E. unfold series_chart.
  destruct (String.eqb chartType "bar"); [by eexists|].
  destruct (_ || _); by eexists.
Qed.

(** X10: the configuration made for a chart of the builder has the
    chart type and the chart as they are, and the title "y vs x" of the
    two axis labels (the column where an axis has no label); the legend
    is on the right for a pie chart and on top otherwise; the scales
    are absent exactly for a pie chart, and where they are present the
    title of the y-axis is the label of the data set of the chart, and
    the x-axis is linear exactly for a scatter chart. *)
Theorem chart_config_matches_chart (data : value) (xAxis yAxis : axis)
    (chartType : string) (h h' : heap) (cd : chartData) :
  processChartData data xAxis yAxis chartType h = (Ok cd, h') →
  let cfg := generateChartConfig chartType cd xAxis yAxis in
  config_type cfg = chartType ∧ config_data cfg = cd ∧
  text (plugins_title (options_plugins (config_options cfg))) =
    (label_or_column yAxis ++ " vs " ++ label_or_column xAxis)%string ∧
  position (plugins_legend (options_plugins (config_options cfg))) =
    (if String.eqb chartType "pie" then "right" else "top") ∧
  (options_scales (config_options cfg) = None ↔ chartType = "pie") ∧
  (∀ s, options_scales (config_options cfg) = Some s →
        (∃ ds, datasets cd = [ds] ∧ text (scale_title (y s)) = dataset_label ds) ∧
        text (scale_title (x s)) = label_or_column xAxis ∧
        display (scale_title (x s)) = true ∧ display (scale_title (y s)) = true ∧
        (scale_type (x s) = Some "linear" ↔ chartType = "scatter")).
Proof.
  intros Hcd cfg.
  destruct (processChartData_dataset _ _ _ _ _ _ _ Hcd) as (ds & Hds & Hlabel & _).
  unfold cfg, generateChartConfig.
  destruct (String.eqb_spec chartType "pie") as [->|Hpie].
  { cbn. split; [done|]. split; [done|]. split; [done|]. split; [done|].
    split; [done|]. intros s E. discriminate E. }
  destruct (String.eqb_spec chartType "scatter") as [->|Hscatter].
  { cbn. split; [done|]. split; [done|]. split; [done|]. split; [done|].
    split; [split; [discriminate|done]|]. intros s E. inversion E. cbn.
    split; [by exists ds|done]. }
  cbn. split; [done|]. split; [done|]. split; [done|]. split; [done|].
  split; [split; [discriminate|done]|]. intros s E. inversion E. cbn.
  split; [by exists ds|]. repeat split; try done.
Qed.

End config_facts.

(** * The statistics of an input without numbers *)

Section absent_statistics.
Import Js Analysis Spec.

Variable Math_pow : number → number → number.
Variable Math_sqrt : number → number.

Local Abbreviation calculateStatistics :=
  (Analysis.calculateStatistics Math_pow Math_sqrt).

Lemma filter_is_number_numeric (vs : list value) :
  List.filter is_number vs = map (λ n, Prim (Num n)) (numeric_values vs).
Proof.
  induction vs as [|v vs IH]; [reflexivity|].
  cbn [List.filter numeric_values omap list_omap].
  destruct v as [[| | |n|]| |b]; cbn; try exact IH.
  - destruct n; cbn; try exact IH; by rewrite IH.
  - destruct b; exact IH.
Qed.

(** X11: the calculator answers [null] for [null] and [undefined]
    without touching the heap; on an array it never throws, and it
    answers [null] exactly when the array holds no number other than
    [NaN]. *)
Theorem statistics_absent_without_numbers (h : heap) :
  calculateStatistics (Prim Null) h = (Ok None, h) ∧
  calculateStatistics (Prim Undefined) h = (Ok None, h) ∧
  ∀ d vs, h !! d = Some (Arr vs) →
    ∃ r h', calculateStatistics (Ref d) h = (Ok r, h') ∧
            (r = None ↔ numeric_values vs = []).
Proof.
  split; [reflexivity|]. split; [reflexivity|]. intros d vs Hd.
  pose proof (filter_is_number_numeric vs) as Hfilter.
  destruct (numeric_values vs) as [|n ns] eqn:E.
  - destruct (calculateStatistics_empty Math_pow Math_sqrt h d vs Hd Hfilter) as [ext ->].
    by eexists _, _.
  - rewrite (calculateStatistics_numbers Math_pow Math_sqrt h d vs Hd)
      by (by rewrite Hfilter).
    eexists _, _. split; [reflexivity|]. split; discriminate.
Qed.

End absent_statistics.

(** * The handler that creates an analysis *)

(** Membership in a list that is written out. *)
Ltac in_list :=
  solve [repeat first [apply list_elem_of_here | apply list_elem_of_further]].

Section pipeline_facts.
Import Js Analysis Spec.

Variable Math_pow : number → number → number.
Variable Math_sqrt : number → number.
Variable Upload_findOne : value → result (option upload).
Variable save : chartData → chartConfig → option statistics → result unit.

Local Abbreviation calculateStatistics :=
  (Analysis.calculateStatistics Math_pow Math_sqrt).
Local Abbreviation unrounded_statistics :=
  (Analysis.unrounded_statistics Math_pow Math_sqrt).
Local Abbreviation analyse := (Analysis.analyse Math_pow Math_sqrt save).
Local Abbreviation create := (Analysis.create Math_pow Math_sqrt Upload_findOne save).
Local Abbreviation post_analysis :=
  (Analysis.post_analysis Math_pow Math_sqrt Upload_findOne save).

Lemma holds_rows_app (h k : heap) (d : nat) (rows : list plain) :
  holds_rows h d rows → holds_rows (h ++ k) d rows.
Proof. apply holds_rows_prefix. by apply prefix_app_r. Qed.

(** With rows the builder returns a chart, whatever the chart type, and
    adds at most objects of its own. *)
Lemma processChartData_rows (xAxis yAxis : axis) (chartType : string) (h : heap)
    (d : nat) (rows : list plain) :
  holds_rows h d rows → rows ≠ [] →
  ∃ cd ext, processChartData (Ref d) xAxis yAxis chartType h = (Ok cd, h ++ ext).
Proof.
  intros Hh Hne.
  assert (∃ cd h', processChartData (Ref d) xAxis yAxis chartType h = (Ok cd, h'))
    as (cd & h' & E).
  { destruct (String.eqb_spec chartType "pie") as [->|Hpie].
    { destruct (pie_run xAxis yAxis h d rows Hh Hne) as [h' ->]. by do 2 eexists. }
    destruct (String.eqb_spec chartType "scatter") as [->|Hscatter].
    { rewrite (scatter_run xAxis yAxis h d rows) by done. by eexists _, _. }
    apply String.eqb_neq in Hpie, Hscatter.
    destruct (series_run xAxis yAxis h d rows chartType Hh Hne Hpie Hscatter) as [h' ->].
    by do 2 eexists. }
  destruct (extends_run _ _ _ _ (processChartData_frame xAxis yAxis _ _) E) as [ext ->].
  by exists cd, ext.
Qed.

Lemma y_axis_data_run (yAxis : axis) (h : heap) (d : nat) (rows : list plain) :
  holds_rows h d rows →
  let parsed := map (λ row, Prim (Num (parseFloat (prop_get (column yAxis) row)))) rows in
  y_axis_data (Ref d) yAxis h =
  (Ok (S (length h)), h ++ [Arr parsed; Arr (List.filter not_NaN parsed)]).
Proof.
  intros (ls & Hd & Hrows) parsed. unfold y_axis_data.
  erewrite bind_run; cycle 1.
  { eapply Array_map_run; [exact Hd|].
    apply (mapM_rows _ (λ row, parseFloat (prop_get (column yAxis) row)) _ _ _ Hrows).
    intros l row Hl. unfold row_number.
    by rewrite (bind_run _ _ _ _ _ (get_prop_row _ _ _ _ Hl)). }
  cbn [fst]. rewrite map_map. fold parsed.
  rewrite (Array_filter_run _ _ _ _ _ (lookup_last_alloc _ _)).
  rewrite length_app, <- app_assoc. cbn. by rewrite Nat.add_1_r.
Qed.

Lemma filter_not_NaN_numbers (l : list number) :
  List.filter not_NaN (map (λ n, Prim (Num n)) l)
  = map (λ n, Prim (Num n)) (List.filter (λ n, negb (isNaN n)) l).
Proof.
  induction l as [|n l IH]; [reflexivity|]. cbn [map List.filter].
  unfold not_NaN at 1. cbn [ToNumber]. destruct (negb (isNaN n)); cbn [map]; by rewrite IH.
Qed.

Lemma filter_is_number_numbers (l : list number) :
  List.filter is_number (map (λ n, Prim (Num n)) (List.filter (λ n, negb (isNaN n)) l))
  = map (λ n, Prim (Num n)) (List.filter (λ n, negb (isNaN n)) l).
Proof.
  induction l as [|n l IH]; [reflexivity|]. cbn [List.filter].
  destruct (negb (isNaN n)) eqn:E; [|exact IH].
  cbn [map List.filter]. unfold is_number at 1.
  cbn [typeof ToNumber String.eqb Ascii.eqb Bool.eqb].
  cbn. rewrite E. by rewrite IH.
Qed.

Lemma lift_bind {A B} (r : result A) (f : A → M B) (h : heap) :
  (lift r ≫= f) h = match r with Ok a => f a h | Throw e => (Throw e, h) end.
Proof. unfold lift, mbind, M_bind. by destruct r. Qed.

(** X16: in the handler the statistics are computed from the y-values
    of all rows that parse as numbers: they are [null] exactly when no
    y-value parses, whatever the chart type.  The bar, line and area
    charts in the same analysis show the first fifty rows only, with 0
    for a y-value that does not parse.  The rows in the heap stay as
    they are, and the analysis is answered when saving succeeds. *)
Theorem statistics_cover_every_row (h : heap) (d : nat) (rows : list plain)
    (found : upload) (xAxis yAxis : axis) (chartType : string) :
  holds_rows h d rows → rows ≠ [] → upload_data found = Ref d →
  let parsed := map (λ row, parseFloat (prop_get (column yAxis) row)) rows in
  let numbers := List.filter (λ n, negb (isNaN n)) parsed in
  ∃ cd st h',
    (processChartData (Ref d) xAxis yAxis chartType h).1 = Ok cd ∧
    analyse found xAxis yAxis chartType h =
      (match save cd (generateChartConfig chartType cd xAxis yAxis) st with
       | Ok _ => Ok (Created cd (generateChartConfig chartType cd xAxis yAxis) st)
       | Throw e => Throw e
       end, h') ∧
    h `prefix_of` h' ∧
    st = match numbers with
         | [] => None
         | _ :: _ =>
             Some (rounded (unrounded_statistics
                     (merge_sort (sorts_before compareFn)
                                 (map (λ n, Prim (Num n)) numbers))))
         end ∧
    (st = None ↔ Forall (λ n, isNaN n = true) parsed) ∧
    (chartType ∈ ["bar"; "line"; "area"] →
     ∃ ds, datasets cd = [ds] ∧
           data ds = map (λ n, Value (Num (if num_truthy n then n else Fin 0)))
                         (take 50 parsed)).
Proof.
  intros Hh Hne Hdata parsed numbers.
  destruct (processChartData_rows xAxis yAxis chartType h d rows Hh Hne) as (cd & ext & Hcd).
  assert (∃ st ext',
    calculateStatistics (Ref (S (length (h ++ ext))))
      ((h ++ ext) ++ [Arr (map (λ n, Prim (Num n)) parsed);
                      Arr (List.filter not_NaN (map (λ n, Prim (Num n)) parsed))])
    = (Ok st, h ++ ext') ∧
    st = match numbers with
         | [] => None
         | _ :: _ =>
             Some (rounded (unrounded_statistics
                     (merge_sort (sorts_before compareFn)
                                 (map (λ n, Prim (Num n)) numbers))))
         end) as (st & ext' & Hst & Est).
  { rewrite filter_not_NaN_numbers. fold numbers.
    set (h1 := h ++ ext).
    set (o := Arr (map (λ n, Prim (Num n)) parsed)).
    set (o' := Arr (map (λ n, Prim (Num n)) numbers)).
    assert ((h1 ++ [o; o']) !! S (length h1) = Some o') as Hlook.
    { replace (S (length h1)) with (length (h1 ++ [o])) by (rewrite length_app; cbn; lia).
      apply lookup_second_alloc. }
    pose proof (filter_is_number_numbers parsed) as Hnum. fold numbers in Hnum.
    destruct numbers as [|n numbers'] eqn:En.
    - destruct (calculateStatistics_empty Math_pow Math_sqrt _ _ _ Hlook Hnum) as [k ->].
      eexists _, _. split; [|reflexivity]. unfold h1. by rewrite <- !app_assoc.
    - rewrite (calculateStatistics_numbers Math_pow Math_sqrt _ _ _ Hlook)
        by (by rewrite Hnum).
      rewrite Hnum. eexists _, _. split; [|reflexivity]. unfold h1. by rewrite <- !app_assoc. }
  exists cd, st, (h ++ ext'). split; [by rewrite Hcd|]. split; [|split; [|split; [|split]]].
  - unfold Analysis.analyse. rewrite Hdata, (bind_run _ _ _ _ _ Hcd). cbv zeta.
    pose proof (y_axis_data_run yAxis (h ++ ext) d rows (holds_rows_app _ _ _ _ Hh)) as Hy.
    cbv zeta in Hy. rewrite <- (map_map _ (λ n, Prim (Num n))) in Hy. fold parsed in Hy.
    rewrite (bind_run _ _ _ _ _ Hy), (bind_run _ _ _ _ _ Hst), lift_bind.
    by destruct (save _ _ _).
  - by eexists.
  - exact Est.
  - rewrite Est. unfold numbers. clear. induction parsed as [|n l IH].
    + split; [constructor|reflexivity].
    + cbn [List.filter]. destruct (isNaN n) eqn:E; cbn [negb].
      * rewrite IH. split; [by constructor|by intros [_ ?]%Forall_cons].
      * split; [discriminate|]. intros [H _]%Forall_cons. congruence.
  - intros Hct.
    assert (String.eqb chartType "pie" = false ∧ String.eqb chartType "scatter" = false)
      as [Hpie Hscatter].
    { repeat (apply elem_of_cons in Hct as [->|Hct]; [done|]). by apply elem_of_nil in Hct. }
    destruct (series_run xAxis yAxis h d rows chartType Hh Hne Hpie Hscatter) as [h1 Hrun].
    rewrite Hrun in Hcd. injection Hcd as <- _.
    unfold parsed. rewrite <- fmap_take.
    change (map ?f (take 50 rows)) with (f <$> take 50 rows).
    assert (∀ l : list plain,
              (λ n, Value (Num (if num_truthy n then n else Fin 0))) <$>
                ((λ row, parseFloat (prop_get (column yAxis) row)) <$> l)
              = (λ row, Value (Num (y_number yAxis row))) <$> l) as ->.
    { intros l. rewrite <- list_fmap_compose. reflexivity. }
    unfold series_chart. destruct (String.eqb chartType "bar"); [by eexists|].
    destruct (_ || _); by eexists.
Qed.

Lemma extends_y_axis_data (data : value) (yAxis : axis) : extends (y_axis_data data yAxis).
Proof.
  apply extends_bind.
  { apply extends_Array_map. intros row. apply extends_reads.
    apply reads_bind; [apply reads_get_prop|]. intros c. apply reads_ret. }
  intros mapped. apply extends_Array_filter.
Qed.

Lemma extends_analyse (found : upload) (xAxis yAxis : axis) (chartType : string) :
  extends (analyse found xAxis yAxis chartType).
Proof.
  apply extends_bind; [apply processChartData_frame|]. intros cd.
  apply extends_bind; [apply extends_y_axis_data|]. intros yAxisData.
  apply extends_bind; [intros h; apply calculateStatistics_frame|]. intros st.
  apply extends_bind; [apply extends_lift|]. intros _. apply extends_ret.
Qed.

Lemma extends_create (body : request) : extends (create body).
Proof.
  unfold Analysis.create.
  destruct (xAxis body) as [x|], (yAxis body) as [y|]; try apply extends_ret.
  destruct (_ || _); [apply extends_ret|].
  apply extends_bind; [apply extends_lift|]. intros [found|]; [|apply extends_ret].
  destruct (negb _); [apply extends_ret|].
  destruct (_ || _); [apply extends_ret|]. apply extends_analyse.
Qed.

Lemma analyse_creates (found : upload) (xAxis yAxis : axis) (chartType : string)
    (h h' : heap) (r : response) :
  analyse found xAxis yAxis chartType h = (Ok r, h') →
  ∃ cd st, r = Created cd (generateChartConfig chartType cd xAxis yAxis) st ∧
           (processChartData (upload_data found) xAxis yAxis chartType h).1 = Ok cd ∧
           save cd (generateChartConfig chartType cd xAxis yAxis) st = Ok tt.
Proof.
  unfold Analysis.analyse, mbind, M_bind, lift.
  destruct (processChartData _ _ _ _ h) as [[cd|e] h1]; [|discriminate].
  destruct (y_axis_data _ _ h1) as [[yAxisData|e] h2]; [|discriminate].
  destruct (Analysis.calculateStatistics _ _ _ h2) as [[st|e] h3]; [|discriminate].
  destruct (save _ _ _) as [[]|e] eqn:Hsave; [|discriminate].
  intros E. inversion E. by eexists _, _.
Qed.

Lemma includes_Str (vs : list value) (s : string) :
  includes vs (Prim (Str s)) = true ↔ Prim (Str s) ∈ vs.
Proof.
  unfold includes. rewrite existsb_exists. split.
  - intros (v & Hv & E). apply list_elem_of_In in Hv.
    destruct v as [[| | | |t]| |]; try discriminate E.
    apply String.eqb_eq in E. by subst.
  - intros Hin. exists (Prim (Str s)). split; [by apply list_elem_of_In|].
    cbn. apply String.eqb_refl.
Qed.

Lemma includes_validChartTypes (v : value) :
  includes (map (λ t, Prim (Str t)) validChartTypes) v = true ↔
  ∃ type, v = Prim (Str type) ∧ type ∈ validChartTypes.
Proof.
  split.
  - unfold includes. rewrite existsb_exists. intros (w & Hw & E).
    apply list_elem_of_In, list_elem_of_fmap in Hw as (t & -> & Ht).
    exists t. split; [|exact Ht].
    destruct v as [[| | |[]|s]| |]; try discriminate E.
    apply String.eqb_eq in E. by subst.
  - intros (t & -> & Ht). apply includes_Str.
    apply list_elem_of_fmap. by exists t.
Qed.

(** A request that passes the checks goes on to the analysis. *)
Lemma create_accepted (body : request) (found : upload) (x y : axis) (type : string)
    (h : heap) :
  accepted Upload_findOne body found x y type →
  create body h = analyse found x y type h.
Proof.
  intros (Hx & Hy & Htype & Hvalid & Hid & Htitle & Hfound & Hcx & Hcy).
  unfold Analysis.create. rewrite Hx, Hy, Hid, Htitle, Htype. cbn [truthy negb orb].
  destruct (String.eqb_spec type "") as [->|_].
  { exfalso. repeat (apply elem_of_cons in Hvalid as [?|Hvalid]; [done|]).
    by apply elem_of_nil in Hvalid. }
  cbn [negb]. rewrite lift_bind, Hfound.
  rewrite (proj2 (includes_validChartTypes (Prim (Str type)))) by (by exists type).
  rewrite (proj2 (includes_Str _ _) Hcx), (proj2 (includes_Str _ _) Hcy).
  reflexivity.
Qed.

(** Going on to the analysis, the request has passed the checks. *)
Lemma create_analyses (body : request) (h h' : heap) (cd : chartData)
    (cfg : chartConfig) (st : option statistics) :
  create body h = (Ok (Created cd cfg st), h') →
  ∃ found x y type,
    accepted Upload_findOne body found x y type ∧
    analyse found x y type h = (Ok (Created cd cfg st), h').
Proof.
  unfold Analysis.create.
  destruct (xAxis body) as [x|] eqn:Hx, (yAxis body) as [y|] eqn:Hy; try discriminate.
  destruct (truthy (uploadId body)) eqn:Hid; [|discriminate].
  destruct (truthy (request_title body)) eqn:Htitle; [|discriminate].
  destruct (truthy (chartType body)) eqn:Htruthy; [|discriminate].
  cbn [negb orb]. rewrite lift_bind.
  destruct (Upload_findOne (uploadId body)) as [[found|]|e] eqn:Hfound; try discriminate.
  destruct (includes _ (chartType body)) eqn:Hvalid; [|discriminate].
  apply includes_validChartTypes in Hvalid as (type & Htype & Hvalid).
  destruct (includes _ (Prim (Str (column x)))) eqn:Hcx; [|discriminate].
  destruct (includes _ (Prim (Str (column y)))) eqn:Hcy; [|discriminate].
  cbn [negb orb]. rewrite Htype. cbn [ToString]. intros E.
  exists found, x, y, type. split; [|exact E].
  apply includes_Str in Hcx, Hcy. by repeat split.
Qed.

(** X17: the handler of [POST /api/analysis] always answers: whatever
    is thrown inside is answered with the status 500 and the message of
    the error (or "Error creating analysis" for an empty message); a
    status with a message is one of 400, 404 and 500; and the handler
    changes no object that was in the heap. *)
Theorem handler_always_answers (body : request) (h : heap) :
  ∃ r h', post_analysis body h = (Ok r, h') ∧
          h `prefix_of` h' ∧
          (∀ status message, r = Message status message → status ∈ [400; 404; 500]) ∧
          (∀ e h1, create body h = (Throw e, h1) →
                   r = Message 500 (if String.eqb (message_of e) ""
                                    then "Error creating analysis" else message_of e)).
Proof.
  pose proof (extends_create body h) as Hext.
  unfold Analysis.post_analysis, catch.
  destruct (create body h) as [[r|e] h'] eqn:E; cbn [snd] in Hext.
  - exists r, h'. split; [reflexivity|]. split; [exact Hext|]. split; [|discriminate].
    intros status message ->. revert E. unfold Analysis.create.
    destruct (xAxis body) as [x|], (yAxis body) as [y|];
      try (intros E; inversion E; in_list).
    destruct (_ || _); [intros E; inversion E; in_list|].
    rewrite lift_bind. destruct (Upload_findOne _) as [[found|]|e];
      [|intros E; inversion E; in_list|discriminate].
    destruct (negb _); [intros E; inversion E; in_list|].
    destruct (_ || _); [intros E; inversion E; in_list|].
    intros E. apply analyse_creates in E as (cd & st & E & _). discriminate E.
  - eexists _, h'. split; [reflexivity|]. split; [exact Hext|]. split.
    + intros status message E'. inversion E'. in_list.
    + intros e' h1 E'. by inversion E'.
Qed.

(** X18: the handler answers with a new analysis only for a request
    that has passed its checks (the required fields, an upload of the
    user, a valid chart type, axes that name columns of the upload);
    the chart is the one that the builder returns for the rows of the
    upload, the configuration the one made for that chart, and the
    analysis has been saved. *)
Theorem created_only_when_accepted (body : request) (h h' : heap) (cd : chartData)
    (cfg : chartConfig) (st : option statistics) :
  post_analysis body h = (Ok (Created cd cfg st), h') →
  ∃ found x y type,
    accepted Upload_findOne body found x y type ∧
    (processChartData (upload_data found) x y type h).1 = Ok cd ∧
    cfg = generateChartConfig type cd x y ∧
    save cd cfg st = Ok tt.
Proof.
  unfold Analysis.post_analysis, catch.
  destruct (create body h) as [[r|e] h1] eqn:E; [|discriminate].
  intros E'. inversion E'. subst r h1.
  apply create_analyses in E as (found & x & y & type & Hacc & E).
  apply analyse_creates in E as (cd' & st' & E & Hcd & Hsave).
  inversion E. subst. by exists found, x, y, type.
Qed.

(** X19: an accepted request for an upload without rows is answered
    with the status 500 and the message of the builder, "No data
    available for chart generation", and nothing is saved. *)
Theorem empty_upload_is_a_server_error (body : request) (found : upload) (x y : axis)
    (type : string) (h : heap) (d : nat) :
  accepted Upload_findOne body found x y type →
  upload_data found = Ref d → h !! d = Some (Arr []) →
  post_analysis body h =
    (Ok (Message 500 "No data available for chart generation"), h).
Proof.
  intros Hacc Hdata Hd. unfold Analysis.post_analysis, catch.
  rewrite (create_accepted body found x y type h Hacc).
  unfold Analysis.analyse. rewrite Hdata.
  assert (processChartData (Ref d) x y type h = (Throw no_data, h)) as Hthrow.
  { unfold processChartData. cbn [truthy negb].
    by rewrite (bind_run _ _ _ _ _ (get_length_run _ _ _ Hd)). }
  by rewrite (bind_throw _ _ _ _ _ Hthrow).
Qed.

End pipeline_facts.

(** * Examples *)

Section examples.
Import Js Upload Analysis Spec.

(** No text is a date. *)
Local Abbreviation no_dates := (λ _ : string, NaN).

(** A column of three numbers. *)
Local Abbreviation three_numbers :=
  [Prim (Num (of_Z 1)); Prim (Num (of_Z 2)); Prim (Num (of_Z 3))].

Lemma analyzeColumnType_decision_witness :
  (analyzeColumnType no_dates three_numbers = "number" ↔ 3 > 0 ∧ 3 > 0) ∧
  (analyzeColumnType no_dates three_numbers = "date" ↔ ¬ (3 > 0 ∧ 3 > 0) ∧ 0 > 0) ∧
  (analyzeColumnType no_dates three_numbers = "string" ↔ ¬ (3 > 0 ∧ 3 > 0) ∧ ¬ 0 > 0) ∧
  analyzeColumnType no_dates [] = "string" ∧
  (∀ values', ∃ n' d', count_is (number_evidence no_dates) (take 10 values') n' ∧
                       count_is (date_evidence no_dates) (take 10 values') d').
Proof.
  apply (analyzeColumnType_decision no_dates three_numbers 3 0).
  - repeat (apply count_in; [left; eexists; split; reflexivity|]). apply count_nil.
  - repeat (apply count_out; [intros (s & E & _); discriminate E|]). apply count_nil.
Defined.

(** Two rows of a sheet with the columns [year] and [sales], the array
    that holds them, and the axes of a chart of sales by year. *)
Local Abbreviation row_2023 :=
  (ordinary [("year", Num (of_Z 2023)); ("sales", Num (of_Z 10))]).
Local Abbreviation row_2021 :=
  (ordinary [("year", Num (of_Z 2021)); ("sales", Str "5")]).
Local Abbreviation sales_heap :=
  [Obj row_2023; Obj row_2021; Arr [Ref 0; Ref 1]].
Local Abbreviation by_year := {| column := "year"; label := None |}.
Local Abbreviation sales := {| column := "sales"; label := None |}.

Lemma sales_heap_holds_rows : holds_rows sales_heap 2 [row_2023; row_2021].
Proof. exists [0; 1]. split; [reflexivity|]. repeat constructor. Defined.

(** Three rows of one group whose y-values are the texts [Infinity] and
    [-Infinity] and the number 5. *)
Local Abbreviation unbounded_rows :=
  [ordinary [("c", Str "A"); ("v", Str "Infinity")];
   ordinary [("c", Str "A"); ("v", Str "-Infinity")];
   ordinary [("c", Str "A"); ("v", Num (of_Z 5))]].
Local Abbreviation unbounded_heap :=
  (map Obj unbounded_rows ++ [Arr [Ref 0; Ref 1; Ref 2]]).
Local Abbreviation by_c := {| column := "c"; label := None |}.
Local Abbreviation of_v := {| column := "v"; label := None |}.

(** Two rows whose x-values are names of members of
    [Object.prototype]. *)
Local Abbreviation inherited_rows :=
  [ordinary [("c", Str "constructor"); ("v", Num (of_Z 1))];
   ordinary [("c", Str "__proto__"); ("v", Num (of_Z 2))]].
Local Abbreviation inherited_heap :=
  (map Obj inherited_rows ++ [Arr [Ref 0; Ref 1]]).

(** C2, as stated, fails.  The years 2023 and 2021, seen in this order,
    are array indices as keys, and the labels come out as 2021, 2023.
    A group whose sum so far is [NaN] starts again from the next
    y-value: the group of [Infinity], [-Infinity] and 5 gets the value
    5, which is not its sum.  And the object that holds the groups
    inherits from [Object.prototype]: the group [constructor] gets a
    text as its value, the source text of that function followed by
    the numeral of the y-value, and the x-value [__proto__] gets no
    label at all. *)
Lemma pie_order_and_sums_fail :
  (holds_rows sales_heap 2 [row_2023; row_2021] ∧
   ∃ cd h',
     processChartData (Ref 2) by_year sales "pie" sales_heap = (Ok cd, h') ∧
     labels cd = [Prim (Str "2021"); Prim (Str "2023")] ∧
     first_seen (map (x_key by_year) [row_2023; row_2021]) = ["2023"; "2021"] ∧
     labels cd ≠
       map (λ key, Prim (Str key))
           (first_seen (map (x_key by_year) [row_2023; row_2021]))) ∧
  (holds_rows unbounded_heap 3 unbounded_rows ∧
   ∃ cd ds h',
     processChartData (Ref 3) by_c of_v "pie" unbounded_heap = (Ok cd, h') ∧
     datasets cd = [ds] ∧
     Analysis.data ds = [Value (Num (of_Z 5))] ∧
     group_sum by_c of_v "A" unbounded_rows = NaN) ∧
  (holds_rows inherited_heap 2 inherited_rows ∧
   ∃ cd ds h',
     processChartData (Ref 2) by_c of_v "pie" inherited_heap = (Ok cd, h') ∧
     datasets cd = [ds] ∧
     map (x_key by_c) inherited_rows = ["constructor"; "__proto__"] ∧
     labels cd = [Prim (Str "constructor")] ∧
     Analysis.data ds = [Value (Str "function Object() { [native code] }1")]).
Proof.
  split; [|split].
  - split; [exact sales_heap_holds_rows|].
    do 2 eexists. split; [vm_compute; reflexivity|].
    split; [reflexivity|]. split; [vm_compute; reflexivity|].
    vm_compute. discriminate.
  - split.
    + exists [0; 1; 2]. split; [reflexivity|]. repeat constructor.
    + do 3 eexists. split; [vm_compute; reflexivity|].
      split; [reflexivity|]. split; vm_compute; reflexivity.
  - split.
    + exists [0; 1]. split; [reflexivity|]. repeat constructor.
    + do 3 eexists. split; [vm_compute; reflexivity|].
      split; [reflexivity|]. split; [vm_compute; reflexivity|].
      split; vm_compute; reflexivity.
Qed.

Local Abbreviation sales_keys :=
  (first_seen (map (x_key by_year) [row_2023; row_2021])).

Lemma pie_groups_witness :
  ∃ cd ds h',
    processChartData (Ref 2) by_year sales "pie" sales_heap = (Ok cd, h') ∧
    datasets cd = [ds] ∧
    labels cd = map (λ key, Prim (Str key)) (indices_first sales_keys) ∧
    Analysis.data ds =
      map (λ key, Value (Num (group_sum by_year sales key [row_2023; row_2021])))
          (indices_first sales_keys) ∧
    NoDup (indices_first sales_keys) ∧
    (∀ key, key ∈ indices_first sales_keys
            ↔ key ∈ map (x_key by_year) [row_2023; row_2021]) ∧
    (∃ indices others,
       indices_first sales_keys = indices ++ others ∧
       Sorted index_le indices ∧
       Forall (λ key, is_index key = true) indices ∧
       others = filter (λ key, is_index key = false) sales_keys) ∧
    (Forall (λ key, is_index key = false) sales_keys →
     indices_first sales_keys = sales_keys).
Proof.
  apply (pie_groups by_year sales sales_heap 2 [row_2023; row_2021]).
  - exact sales_heap_holds_rows.
  - discriminate.
  - apply (bool_decide_unpack _). vm_compute. exact I.
  - apply finite_running_sums.
    repeat constructor; eexists; vm_compute; reflexivity.
Defined.

(** Sixty rows, numbered from 0, behind the array at 60. *)
Local Abbreviation numbered_row :=
  (λ i : nat, ordinary [("year", Num (of_nat i)); ("sales", Num (of_nat i))]).
Local Abbreviation sixty_rows := (map numbered_row (seq 0 60)).
Local Abbreviation sixty_heap :=
  (map Obj sixty_rows ++ [Arr (map Ref (seq 0 60))]).

Lemma series_keeps_first_50_witness :
  ∃ cd ds h',
    processChartData (Ref 60) by_year sales "area" sixty_heap = (Ok cd, h') ∧
    datasets cd = [ds] ∧
    labels cd = map (λ row, prop_get (column by_year) row) (take 50 sixty_rows) ∧
    Analysis.data ds =
      map (λ row, let y := parseFloat (prop_get (column sales) row) in
                  Value (Num (if num_truthy y then y else Fin 0)))
          (take 50 sixty_rows) ∧
    ((length sixty_rows > 50)%nat →
     length (labels cd) = 50%nat ∧ length (Analysis.data ds) = 50%nat) ∧
    ((length sixty_rows ≤ 50)%nat → take 50 sixty_rows = sixty_rows).
Proof.
  apply (series_keeps_first_50 by_year sales sixty_heap 60 sixty_rows "area").
  - exists (seq 0 60). split; [reflexivity|]. repeat constructor.
  - discriminate.
  - apply list_elem_of_further, list_elem_of_further, list_elem_of_here.
Defined.

Local Abbreviation or_0 :=
  (λ n : number, if isNaN n then Fin 0 else if num_truthy n then n else Fin 0).
Local Abbreviation y_of :=
  (λ (a : axis) (row : plain), or_0 (parseFloat (prop_get (column a) row))).

Lemma empty_dataset_only_witness :
  ([row_2023; row_2021] = [] →
   processChartData (Ref 2) by_year sales "line" sales_heap = (Throw no_data, sales_heap)) ∧
  ((∃ e h', processChartData (Ref 2) by_year sales "line" sales_heap = (Throw e, h'))
   ↔ [row_2023; row_2021] = []) ∧
  ([row_2023; row_2021] ≠ [] →
   ∃ cd ds h',
     processChartData (Ref 2) by_year sales "line" sales_heap = (Ok cd, h') ∧
     datasets cd = [ds] ∧
     ("line" = "pie" →
      Analysis.data ds =
        map Value
            (Object_values
               (fold_left (λ g row, pie_step (prop_get (column by_year) row)
                                             (y_of sales row) g)
                          [row_2023; row_2021] empty_object))) ∧
     ("line" = "scatter" →
      Analysis.data ds =
        map (λ row, Point (y_of by_year row) (y_of sales row)) [row_2023; row_2021]) ∧
     ("line" ≠ "pie" → "line" ≠ "scatter" →
      Analysis.data ds =
        map (λ row, Value (Num (y_of sales row))) (take 50 [row_2023; row_2021]))).
Proof.
  apply (empty_dataset_only by_year sales sales_heap 2 [row_2023; row_2021] "line").
  exact sales_heap_holds_rows.
Defined.

(** Three values: a text between two numbers. *)
Local Abbreviation eighths :=
  [Prim (Num (Fin (1 # 8))); Prim (Str "x"); Prim (Num (Fin (- 1 # 8)))].
Local Abbreviation square := (λ x _ : number, num_mul x x).
Local Abbreviation identity := (λ x : number, x).

Lemma statistics_rounded_witness :
  let raw :=
    unrounded_statistics square identity
      (merge_sort (sorts_before compareFn) (List.filter is_number eighths)) in
  ∃ s, (calculateStatistics square identity (Ref 0) [Arr eighths]).1 = Ok (Some s) ∧
       rounds_half_away (mean raw) (mean s) ∧
       rounds_half_away (median raw) (median s) ∧
       rounds_half_away (mode raw) (mode s) ∧
       rounds_half_away (range raw) (range s) ∧
       rounds_half_away (standardDeviation raw) (standardDeviation s).
Proof.
  apply (statistics_rounded square identity [Arr eighths] 0 eighths).
  - reflexivity.
  - vm_compute. discriminate.
Defined.

End examples.

(** * Further examples *)

Section more_examples.
Import Js Upload Analysis Spec.

(** A sheet with the columns [year] and [sales] and two data rows, the
    second of which has no year; no text is a date. *)
Local Abbreviation sheet_headers := [Str "year"; Str "sales"].
Local Abbreviation sheet_rows :=
  [[Num (of_Z 2023); Num (of_Z 10)]; [Null; Str "5"]].
Local Abbreviation no_dates := (λ _ : string, NaN).

Lemma sheet_headers_distinct :
  NoDup (map (λ h, ToString (Prim h)) sheet_headers).
Proof. apply (bool_decide_unpack _). vm_compute. exact I. Defined.

Lemma sheet_headers_plain :
  Forall (λ h, ToString (Prim h) ≠ "__proto__") sheet_headers.
Proof. apply (bool_decide_unpack _). vm_compute. exact I. Defined.

(** A sheet with the columns [a] and [__proto__] and one data row. *)
Local Abbreviation proto_headers := [Str "a"; Str "__proto__"].
Local Abbreviation proto_row := [Num (of_Z 1); Num (of_Z 2)].

(** C5: for a sheet with the headers [a] and [__proto__] the row object
    has the property [a] alone.  The assignment under the name
    [__proto__] goes to the accessor that every object inherits, which
    ignores a number: the row gets no such property, reads
    [Object.prototype] under that name, and its column is described
    with that object as its only sample.  Zipping the header names
    with the cells gives both pairs. *)
Theorem proto_header_is_lost (Date_parse : string → number) :
  ∃ r obj c,
    processExcelFile Date_parse (Ok [[proto_headers; proto_row]]) = Ok r ∧
    rowCount r = 1%nat ∧
    Upload.data r = [obj] ∧
    own obj = [("a", Num (of_Z 1))] ∧
    prop_get "__proto__" obj = Native ObjectPrototype ∧
    zip_row proto_headers proto_row =
      [("a", Num (of_Z 1)); ("__proto__", Num (of_Z 2))] ∧
    columns r !! 1%nat = Some c ∧
    sampleValues c = [Native ObjectPrototype] ∧ type c = "string".
Proof.
  eexists _, _, _. split; [reflexivity|]. repeat split.
Qed.

Lemma rows_zip_headers_witness :
  ∃ r, processExcelFile no_dates (Ok [sheet_headers :: sheet_rows]) = Ok r ∧
       rowCount r = length sheet_rows ∧
       Forall2 (λ row obj,
                  inherits obj = true ∧
                  (∀ key, prop_lookup key (own obj)
                          = as_mapping (zip_row sheet_headers row) key) ∧
                  length (zip_row sheet_headers row) = length sheet_headers ∧
                  (NoDup (map (λ h, ToString (Prim h)) sheet_headers) →
                   own obj = zip_row sheet_headers row))
               sheet_rows (Upload.data r).
Proof.
  apply (rows_zip_headers no_dates (Str "year") [Str "sales"] sheet_rows []).
  exact sheet_headers_plain.
Defined.

Lemma duplicate_headers_overwrite_witness :
  let row := [Num (of_Z 2023); Num (of_Z 10)] in
  let names := map (λ header, ToString (Prim header)) sheet_headers in
  Object_keys (row_object sheet_headers row) = indices_first (first_seen names) ∧
  (∀ index header,
     sheet_headers !! index = Some header → last_of_its_name sheet_headers index →
     prop_get (ToString (Prim header)) (row_object sheet_headers row) =
       Prim (cell row index)) ∧
  (length (Object_keys (row_object sheet_headers row)) ≤ length sheet_headers)%nat ∧
  (NoDup names ↔
   length (Object_keys (row_object sheet_headers row)) = length sheet_headers).
Proof.
  apply (duplicate_headers_overwrite sheet_headers [Num (of_Z 2023); Num (of_Z 10)]).
  exact sheet_headers_plain.
Defined.

Lemma columns_describe_cells_witness :
  ∃ r, processExcelFile no_dates (Ok [sheet_headers :: sheet_rows]) = Ok r ∧
       columns r =
         imap (λ index h,
                 {| name := h;
                    type := analyzeColumnType no_dates (column_cells sheet_rows index);
                    sampleValues := take 5 (column_cells sheet_rows index) |})
              sheet_headers ∧
       Forall (λ c, (length (sampleValues c) ≤ 5)%nat ∧
                    Forall (λ v, v ≠ Prim Null ∧ v ≠ Prim Undefined) (sampleValues c))
              (columns r).
Proof.
  apply (columns_describe_cells no_dates (Str "year") [Str "sales"] sheet_rows []).
  - exact sheet_headers_plain.
  - exact sheet_headers_distinct.
Defined.

Local Abbreviation by_year := {| column := "year"; label := None |}.
Local Abbreviation sales := {| column := "sales"; label := None |}.

Lemma sheet_headers_last (index : nat) : last_of_its_name sheet_headers index.
Proof.
  intros j h h' Hi Hj Hlt E.
  assert (index = j); [|lia].
  eapply NoDup_lookup; [exact sheet_headers_distinct| |].
  - rewrite list_lookup_fmap, Hi. reflexivity.
  - rewrite list_lookup_fmap, Hj. cbn. f_equal. exact E.
Defined.

Lemma chart_shows_the_cells_witness :
  ∃ r, processExcelFile no_dates (Ok [sheet_headers :: sheet_rows]) = Ok r ∧
       ∀ h d, holds_rows h d (Upload.data r) →
         ∃ cd ds h',
           processChartData (Ref d) by_year sales "line" h = (Ok cd, h') ∧
           datasets cd = [ds] ∧
           labels cd = map (λ row, Prim (cell row 0)) (take 50 sheet_rows) ∧
           Analysis.data ds =
             map (λ row, let y := parseFloat (Prim (cell row 1)) in
                         Value (Num (if num_truthy y then y else Fin 0)))
                 (take 50 sheet_rows).
Proof.
  apply (chart_shows_the_cells no_dates (Str "year") [Str "sales"] sheet_rows []
           0 1 (Str "year") (Str "sales") by_year sales "line").
  - exact sheet_headers_plain.
  - reflexivity.
  - reflexivity.
  - exact (sheet_headers_last 0).
  - exact (sheet_headers_last 1).
  - reflexivity.
  - reflexivity.
  - discriminate.
  - apply list_elem_of_further, list_elem_of_here.
Defined.

(** Two rows in the heap, behind the array at 2. *)
Local Abbreviation row_2023 :=
  (ordinary [("year", Num (of_Z 2023)); ("sales", Num (of_Z 10))]).
Local Abbreviation row_2021 :=
  (ordinary [("year", Num (of_Z 2021)); ("sales", Str "5")]).
Local Abbreviation sales_heap :=
  [Obj row_2023; Obj row_2021; Arr [Ref 0; Ref 1]].

Local Abbreviation coordinate :=
  (λ (a : axis) (row : plain),
     let n := parseFloat (prop_get (column a) row) in
     if num_truthy n then n else Fin 0).

Lemma scatter_keeps_every_row_witness :
  ∃ cd ds,
    processChartData (Ref 2) by_year sales "scatter" sales_heap =
      (Ok cd,
       sales_heap
         ++ map (λ row, Obj (ordinary [("x", Num (coordinate by_year row));
                                       ("y", Num (coordinate sales row))]))
                [row_2023; row_2021]
         ++ [Arr (map Ref (seq (length sales_heap) (length [row_2023; row_2021])))]) ∧
    labels cd = [] ∧ datasets cd = [ds] ∧
    Analysis.data ds =
      map (λ row, Point (coordinate by_year row) (coordinate sales row))
          [row_2023; row_2021] ∧
    length (Analysis.data ds) = length [row_2023; row_2021] ∧
    backgroundColor ds = Color "#FF6384" ∧ borderColor ds = Color "#FF6384".
Proof.
  apply (scatter_keeps_every_row by_year sales sales_heap 2 [row_2023; row_2021]).
  - exact sales_heap_holds_rows.
  - discriminate.
Defined.

Lemma pie_colours_cycle_witness :
  ∃ cd ds h' cs,
    processChartData (Ref 2) by_year sales "pie" sales_heap = (Ok cd, h') ∧
    datasets cd = [ds] ∧
    backgroundColor ds = Colors cs ∧
    length cs = length (labels cd) ∧
    length (Analysis.data ds) = length (labels cd) ∧
    (∀ i, (i < length cs)%nat → cs !! i = colors !! (i mod 10)) ∧
    (∀ i, (i + 10 < length cs)%nat → cs !! (i + 10) = cs !! i) ∧
    borderColor ds = Colors [].
Proof.
  apply (pie_colours_cycle by_year sales sales_heap 2 [row_2023; row_2021]).
  - exact sales_heap_holds_rows.
  - discriminate.
Defined.

Local Abbreviation bar_chart :=
  (series_chart sales "bar"
     (map (λ row, prop_get "year" row) [row_2023; row_2021])
     (map (λ row, Value (Num (y_number sales row))) [row_2023; row_2021])).

Lemma chart_config_matches_chart_witness :
  let cfg := generateChartConfig "bar" bar_chart by_year sales in
  config_type cfg = "bar" ∧ config_data cfg = bar_chart ∧
  text (plugins_title (options_plugins (config_options cfg))) =
    (label_or_column sales ++ " vs " ++ label_or_column by_year)%string ∧
  position (plugins_legend (options_plugins (config_options cfg))) =
    (if String.eqb "bar" "pie" then "right" else "top") ∧
  (options_scales (config_options cfg) = None ↔ "bar" = "pie") ∧
  (∀ s, options_scales (config_options cfg) = Some s →
        (∃ ds, datasets bar_chart = [ds] ∧ text (scale_title (y s)) = dataset_label ds) ∧
        text (scale_title (x s)) = label_or_column by_year ∧
        display (scale_title (x s)) = true ∧ display (scale_title (y s)) = true ∧
        (scale_type (x s) = Some "linear" ↔ "bar" = "scatter")).
Proof.
  apply (chart_config_matches_chart (Ref 2) by_year sales "bar" sales_heap
           (processChartData (Ref 2) by_year sales "bar" sales_heap).2 bar_chart).
  vm_compute. reflexivity.
Defined.

Local Abbreviation square := (λ x _ : number, num_mul x x).
Local Abbreviation identity := (λ x : number, x).

(** A request for a bar chart of sales by year over the upload whose
    rows are the two rows above; every upload id finds that upload, and
    saving succeeds. *)
Local Abbreviation sales_upload :=
  {| upload_columns := [Prim (Str "year"); Prim (Str "sales")];
     upload_data := Ref 2 |}.
Local Abbreviation bar_request :=
  {| uploadId := Prim (Str "u1");
     request_title := Prim (Str "Sales");
     description := Prim Undefined;
     chartType := Prim (Str "bar");
     xAxis := Some by_year;
     yAxis := Some sales |}.
Local Abbreviation finds_sales := (λ _ : value, Ok (Some sales_upload)).
Local Abbreviation saves :=
  (λ (_ : chartData) (_ : chartConfig) (_ : option statistics), Ok tt).

Lemma statistics_cover_every_row_witness :
  let parsed :=
    map (λ row, parseFloat (prop_get (column sales) row)) [row_2023; row_2021] in
  let numbers := List.filter (λ n, negb (isNaN n)) parsed in
  ∃ cd st h',
    (processChartData (Ref 2) by_year sales "bar" sales_heap).1 = Ok cd ∧
    analyse square identity saves sales_upload by_year sales "bar" sales_heap =
      (match saves cd (generateChartConfig "bar" cd by_year sales) st with
       | Ok _ => Ok (Created cd (generateChartConfig "bar" cd by_year sales) st)
       | Throw e => Throw e
       end, h') ∧
    sales_heap `prefix_of` h' ∧
    st = match numbers with
         | [] => None
         | _ :: _ =>
             Some (rounded (unrounded_statistics square identity
                     (merge_sort (sorts_before compareFn)
                                 (map (λ n, Prim (Num n)) numbers))))
         end ∧
    (st = None ↔ Forall (λ n, isNaN n = true) parsed) ∧
    ("bar" ∈ ["bar"; "line"; "area"] →
     ∃ ds, datasets cd = [ds] ∧
           Analysis.data ds =
             map (λ n, Value (Num (if num_truthy n then n else Fin 0)))
                 (take 50 parsed)).
Proof.
  apply (statistics_cover_every_row square identity saves sales_heap 2
           [row_2023; row_2021] sales_upload by_year sales "bar").
  - exact sales_heap_holds_rows.
  - discriminate.
  - reflexivity.
Defined.

Lemma created_only_when_accepted_witness :
  ∃ cd cfg st h',
    post_analysis square identity finds_sales saves bar_request sales_heap
      = (Ok (Created cd cfg st), h') ∧
    ∃ found x y type,
      accepted finds_sales bar_request found x y type ∧
      (processChartData (upload_data found) x y type sales_heap).1 = Ok cd ∧
      cfg = generateChartConfig type cd x y ∧
      saves cd cfg st = Ok tt.
Proof.
  eexists _, _, _, _. split; [vm_compute; reflexivity|].
  eapply (created_only_when_accepted square identity finds_sales saves bar_request
            sales_heap).
  vm_compute. reflexivity.
Defined.

Local Abbreviation empty_upload :=
  {| upload_columns := [Prim (Str "year"); Prim (Str "sales")];
     upload_data := Ref 0 |}.
Local Abbreviation finds_empty := (λ _ : value, Ok (Some empty_upload)).

Lemma bar_request_accepted :
  accepted finds_empty bar_request empty_upload by_year sales "bar".
Proof.
  repeat split; try reflexivity.
  - apply list_elem_of_here.
  - apply list_elem_of_here.
  - apply list_elem_of_further, list_elem_of_here.
Defined.

Lemma empty_upload_is_a_server_error_witness :
  post_analysis square identity finds_empty saves bar_request [Arr []] =
    (Ok (Message 500 "No data available for chart generation"), [Arr []]).
Proof.
  apply (empty_upload_is_a_server_error square identity finds_empty saves bar_request
           empty_upload by_year sales "bar" [Arr []] 0).
  - exact bar_request_accepted.
  - reflexivity.
  - reflexivity.
Defined.

End more_examples.
